(** * RhymeTime browser extension: a shallow embedding and its properties

    The first part embeds the code, one module for each source file:

    - [JS]         the fragment of the JavaScript string and object
                   semantics the code relies on (UTF-16 strings, [trim],
                   [split], regular-expression replacement, property lookup
                   on object literals, exceptions);
    - [Audio]      audiogenerator.js, class AudioGenerator;
    - [Gemini]     gemini.js, class GeminiAPI;
    - [Popup]      popup.js, RhymeTimePopup.saveToHistory;
    - [Content]    the content script, class ContentExtractor;
    - [Background] the background script, handleRhymeGeneration;
    - [AudioService] audiogenerator.js, the service, the constructor and
                   selectVoice; [Settings] what settings.js writes to the
                   storage; [GeminiKey] gemini.js, setApiKey;
    - [Server]     server.js, the route of the proxy and its prompt;
    - [PopupView]  popup.js, the history list and the word count shown;
    - [Pipeline]   popup.js, handleTransform, with the listeners of the
                   content script and of the background script;
    - [Player]     gemini.js, class AudioPlayer, and generateAudio of
                   popup.js in front of it.

    The second part states and proves the properties, in the modules
    [AudioFacts], [PopupFacts], [ContentFacts], [GeminiFacts],
    [AudioCacheFacts] and [BackgroundFacts], and then in
    [ContentTextFacts], [DensityFacts], [GeminiMoreFacts],
    [AudioServiceFacts], [VoiceFacts], [ServerFacts],
    [BackgroundMoreFacts], [EndToEndFacts], [PopupViewFacts],
    [PipelineFacts] and [PlayerFacts].

    Promises are modelled by their settled outcome: an async function is a
    state-passing computation that either returns a value or throws. What
    lies outside the code (the DOM, the storage, the remote services, the
    speech engine, the clock) is a field of the state, read as the code
    reads it. *)

From Stdlib Require Import String Ascii DecimalString ZArith NArith Lia Bool List.
Import ListNotations.

(* ===================================================================== *)
(** ** JavaScript primitives *)
(* ===================================================================== *)

Module JS.

(** A JavaScript string is a sequence of UTF-16 code units;
    [s.length] is the length of the list and [s.charCodeAt(i)] its
    i-th element. *)
Definition jsstring := list N.

(** An ASCII literal of the source text. *)
Definition lit (s : string) : jsstring :=
  map N_of_ascii (list_ascii_of_string s).
Arguments lit : simpl never.

Definition newline : jsstring := [10%N].

(** Decimal rendering of an integral Number ([Number.prototype.toString]
    and template interpolation of an integer). *)
Definition dec (z : Z) : jsstring := lit (NilZero.string_of_int (Z.to_int z)).

Definition str_eqb (a b : jsstring) : bool :=
  if list_eq_dec N.eq_dec a b then true else false.

(** *** Character classes *)

Local Open Scope N_scope.

(** LineTerminator: LF, CR, LS, PS. The [.] of a regular expression
    without the [s] flag matches everything else. *)
Definition is_line_terminator (c : N) : bool :=
  (c =? 10) || (c =? 13) || (c =? 8232) || (c =? 8233).

(** WhiteSpace and LineTerminator together: the class [\s] and the
    characters removed by [String.prototype.trim]. *)
Definition is_ws (c : N) : bool :=
  ((9 <=? c) && (c <=? 13)) || (c =? 32) || (c =? 160) || (c =? 5760)
  || ((8192 <=? c) && (c <=? 8202))
  || (c =? 8232) || (c =? 8233) || (c =? 8239) || (c =? 8287)
  || (c =? 12288) || (c =? 65279).

(** Canonicalize of a case-insensitive regular expression without the
    [u] flag, restricted to what decides a comparison with an ASCII pattern
    character: ASCII letters fold to upper case; a code unit above 127
    never folds to an ASCII one and is left alone. *)
Definition canon (c : N) : N :=
  if (97 <=? c) && (c <=? 122) then c - 32 else c.

Local Close Scope N_scope.

(** *** Prefixes and substrings *)

Fixpoint startsWith (p s : jsstring) : bool :=
  match p, s with
  | [], _ => true
  | a :: p', b :: s' => N.eqb a b && startsWith p' s'
  | _ :: _, [] => false
  end.

(** A literal ASCII pattern matched under the [i] flag. *)
Fixpoint startsWith_ci (p s : jsstring) : bool :=
  match p, s with
  | [], _ => true
  | a :: p', b :: s' => N.eqb (canon a) (canon b) && startsWith_ci p' s'
  | _ :: _, [] => false
  end.

(** [s.includes(needle)] *)
Fixpoint includes (needle s : jsstring) : bool :=
  startsWith needle s ||
  match s with
  | [] => false
  | _ :: t => includes needle t
  end.

(** [s.substring(0, n)] for a non-negative integer [n]. *)
Definition substring0 (n : nat) (s : jsstring) : jsstring := firstn n s.

(** *** trim *)

Fixpoint trimStart (s : jsstring) : jsstring :=
  match s with
  | [] => []
  | c :: t => if is_ws c then trimStart t else s
  end.

Definition trimEnd (s : jsstring) : jsstring := rev (trimStart (rev s)).

Definition trim (s : jsstring) : jsstring := trimEnd (trimStart s).

(** *** split on a character class

    [s.split(/[...]+/)] for a class of single code units: the pieces between
    the maximal runs of separator characters, empty pieces at the ends
    included. [split_go] returns the first piece and the later ones. *)
Fixpoint split_go (sep : N -> bool) (s : jsstring) : jsstring * list jsstring :=
  match s with
  | [] => ([], [])
  | c :: t =>
      let (p, ps) := split_go sep t in
      if sep c then
        match t with
        | d :: _ => if sep d then ([], ps) else ([], p :: ps)
        | [] => ([], p :: ps)
        end
      else (c :: p, ps)
  end.

Definition split_re (sep : N -> bool) (s : jsstring) : list jsstring :=
  let (p, ps) := split_go sep s in p :: ps.

(** [arr.join(sep)] *)
Fixpoint join (sep : jsstring) (l : list jsstring) : jsstring :=
  match l with
  | [] => []
  | [a] => a
  | a :: rest => a ++ sep ++ join sep rest
  end.

(** [arr.slice(0, n)] for a non-negative integer [n]. *)
Definition slice0 {A} (n : nat) (l : list A) : list A := firstn n l.

(** *** Global replacement

    [s.replace(/re/g, ...)] scans left to right; where the expression
    matches, the match is replaced and the scan resumes after it, elsewhere
    one code unit is copied. A matcher returns the replacement text and the
    (positive) length of the match at the head of its argument; [skip]
    counts the code units of the last match still to be passed over. *)
Definition matcher := jsstring -> option (jsstring * nat).

Fixpoint replace_go (m : matcher) (skip : nat) (s : jsstring) : jsstring :=
  match s with
  | [] => []
  | c :: t =>
      match skip with
      | S k => replace_go m k t
      | O =>
          match m s with
          | Some (rep, n) => rep ++ replace_go m (pred n) t
          | None => c :: replace_go m 0 t
          end
      end
  end.

Definition replaceAll (m : matcher) (s : jsstring) : jsstring := replace_go m 0 s.

(** The maximal run of characters of a class at the head of a string. *)
Fixpoint takeWhile {A} (p : A -> bool) (s : list A) : list A :=
  match s with
  | c :: t => if p c then c :: takeWhile p t else []
  | [] => []
  end.

(** [/\s+/] *)
Definition m_ws_run (rep : jsstring) : matcher := fun s =>
  match takeWhile is_ws s with
  | [] => None
  | run => Some (rep, length run)
  end.

(** [new RegExp(phrase, "gi")] for a phrase of letters and spaces, replaced
    by the empty string. *)
Definition m_phrase_ci (phrase : jsstring) : matcher := fun s =>
  match phrase with
  | [] => None
  | _ => if startsWith_ci phrase s then Some ([], length phrase) else None
  end.

(** *** Word count

    [text ? text.split(/\s+/).filter((word) => word.length > 0).length : 0] *)
Definition nonempty (s : jsstring) : bool :=
  match s with [] => false | _ => true end.

Definition countWords (text : jsstring) : nat :=
  match text with
  | [] => 0
  | _ => length (filter nonempty (split_re is_ws text))
  end.

(** *** Exceptions *)

Inductive JsError : Type :=
| Error (message : jsstring)
| TypeError (message : jsstring).

Definition message (e : JsError) : jsstring :=
  match e with Error m => m | TypeError m => m end.

(** Completion of an expression or of a settled promise. *)
Inductive Completion (A : Type) : Type :=
| Normal (a : A)
| Throw (e : JsError).
Arguments Normal {A} a.
Arguments Throw {A} e.

(** *** Property lookup on an object literal

    [table[key]] finds an own property, else a member inherited from
    [Object.prototype], else [undefined]. *)
Inductive Lookup (A : Type) : Type :=
| Own (a : A)
| Inherited
| Absent.
Arguments Own {A} a.
Arguments Inherited {A}.
Arguments Absent {A}.

Fixpoint assoc {A} (table : list (jsstring * A)) (key : jsstring) : option A :=
  match table with
  | [] => None
  | (k, v) :: rest => if str_eqb k key then Some v else assoc rest key
  end.

Definition object_prototype_keys : list jsstring :=
  map lit
    ["constructor"; "__proto__"; "hasOwnProperty"; "isPrototypeOf";
     "propertyIsEnumerable"; "toLocaleString"; "toString"; "valueOf";
     "__defineGetter__"; "__defineSetter__"; "__lookupGetter__";
     "__lookupSetter__"]%string.

Definition is_prototype_key (key : jsstring) : bool :=
  existsb (str_eqb key) object_prototype_keys.

Definition get {A} (table : list (jsstring * A)) (key : jsstring) : Lookup A :=
  match assoc table key with
  | Some v => Own v
  | None => if is_prototype_key key then Inherited else Absent
  end.

(** Text of an inherited member when it is interpolated into a template,
    as the engine of the extension's browser prints it. *)
Definition inherited_text (key : jsstring) : jsstring :=
  if str_eqb key (lit "__proto__") then lit "[object Object]"
  else if str_eqb key (lit "constructor")
       then lit "function Object() { [native code] }"
       else lit "function " ++ key ++ lit "() { [native code] }".

(** A value met where the code expects a string: a string; a falsy value
    that is not a string ([undefined], [null], [0], [false]); or any
    other value, truthy and not a string (an object, a function, a member
    inherited from [Object.prototype]). *)
Inductive jsval : Type :=
| VStr (s : jsstring)
| VFalsy
| VObject.

(** *** Strings as conditions

    An optional string stands for a value that is a string or [undefined]
    (or [null]); as a condition only a non-empty string holds. *)
Definition truthy (v : option jsstring) : option jsstring :=
  match v with
  | Some (c :: k) => Some (c :: k)
  | _ => None
  end.

(** [a || b] *)
Definition or_else (a : option jsstring) (b : jsstring) : jsstring :=
  match truthy a with
  | Some s => s
  | None => b
  end.

(** *** Stateful computations that may throw

    The body of an (async) function over a state [S]: it ends with a value
    or with an exception, and leaves a state behind in both cases. *)
Definition M (S A : Type) : Type := S -> Completion A * S.

Definition ret {S A} (a : A) : M S A := fun s => (Normal a, s).

Definition throw {S A} (e : JsError) : M S A := fun s => (Throw e, s).

Definition bind {S A B} (c : M S A) (k : A -> M S B) : M S B :=
  fun s =>
    match c s with
    | (Normal a, s') => k a s'
    | (Throw e, s') => (Throw e, s')
    end.

(** [try { body } catch (error) { handler }] *)
Definition try_catch {S A} (body : M S A) (handler : JsError -> M S A) : M S A :=
  fun s =>
    match body s with
    | (Normal a, s') => (Normal a, s')
    | (Throw e, s') => handler e s'
    end.

(** A pure expression that may throw. *)
Definition lift {S A} (c : Completion A) : M S A := fun s => (c, s).

Definition gets {S A} (f : S -> A) : M S A := fun s => (Normal (f s), s).

Definition modify {S} (f : S -> S) : M S unit := fun s => (Normal tt, f s).

End JS.
Import JS.

Declare Scope js_scope.
Delimit Scope js_scope with js.
Notation "x <- c ;; k" := (bind c (fun x => k))
  (at level 61, c at next level, right associativity) : js_scope.
Notation "c ;; k" := (bind c (fun _ => k))
  (at level 61, right associativity) : js_scope.

(* ===================================================================== *)
(** ** audiogenerator.js: class AudioGenerator *)
(* ===================================================================== *)

Module Audio.

Local Open Scope Z_scope.

(** ToInt32: the signed 32-bit integer congruent to [z] modulo 2^32. *)
Definition to_int32 (z : Z) : Z := (z + 2^31) mod 2^32 - 2^31.

(** [a << n] and [a & b] on Numbers holding integers. *)
Definition shl (a : Z) (n : Z) : Z := to_int32 (Z.shiftl (to_int32 a) n).
Definition band (a b : Z) : Z := to_int32 (Z.land (to_int32 a) (to_int32 b)).

(** One turn of the loop of hashString:
[[
      const char = str.charCodeAt(i)
      hash = (hash << 5) - hash + char
      hash = hash & hash // Convert to 32-bit integer
]]
    The subtraction and the addition are exact: all three operands are
    below 2^32 in absolute value. *)
Definition hash_step (hash : Z) (char : N) : Z :=
  let hash1 := shl hash 5 - hash + Z.of_N char in
  band hash1 hash1.

(** The value of [hash] when the loop ends. *)
Definition hash_value (str : jsstring) : Z := fold_left hash_step str 0.

Definition hashString (str : jsstring) : jsstring := dec (hash_value str).

(** [options.gender || "default"]: [undefined] and the empty string both
    give the default. *)
Definition gender_or_default (gender : option jsstring) : jsstring :=
  or_else gender (lit "default").

(** [`${style}-${options.gender || "default"}-${this.hashString(text)}`] *)
Definition createCacheKey (text style : jsstring) (gender : option jsstring)
  : jsstring :=
  style ++ lit "-" ++ gender_or_default gender ++ lit "-" ++ hashString text.

(** The recurrence in the words of the specification: [hash*31 + charCode],
    first without truncation, then truncated to 32 bits at each step. *)
Definition rolling31 (str : jsstring) : Z :=
  fold_left (fun hash char => hash * 31 + Z.of_N char) str 0.

Definition rolling31_trunc (str : jsstring) : Z :=
  fold_left (fun hash char => to_int32 (hash * 31 + Z.of_N char)) str 0.

Local Close Scope Z_scope.
Local Open Scope js_scope.

(** *** Results

    The fields [voice] and [duration] of a result (a voice name and a
    floating-point estimate) describe the audio and decide nothing; the
    model leaves them, the choice of a voice and the voice tables of the
    remote providers out. *)

Definition Blob := list N.

(** rate, pitch and volume, in hundredths. *)
Record VoiceConfig := { rate : N; pitch : N; volume : N }.

Record Utterance := { u_text : jsstring; u_config : VoiceConfig }.

(** [audioUrl] with [audioBlob], or [utterance] with [playDirectly: true] *)
Inductive Playable : Type :=
| AudioUrl (audioBlob : Blob)
| Direct (utterance : Utterance).

Record AudioResult := {
  success : bool;
  service : jsstring;
  audio : Playable
}.

Definition playDirectly (r : AudioResult) : bool :=
  match audio r with Direct _ => true | AudioUrl _ => false end.

(** *** The host and the object *)

(** What one POST to a remote provider comes to. *)
Inductive RemoteReply : Type :=
| Rejected (e : JsError)
    (** [fetch] rejects *)
| NotOk (status : N)
    (** [!response.ok] *)
| BodyFails (e : JsError)
    (** [response.blob()], [response.json()] or base64ToBlob throws *)
| Body (blob : Blob).

Inductive Call : Type :=
| CallBrowser
| CallElevenLabs
| CallGoogle
| CallAzure.

Record World := {
  sync : jsstring -> option jsstring;
    (** chrome.storage.sync *)
  remote : nat -> RemoteReply;
    (** the reply to the n-th request of the run *)
  speechSynthesis : bool;
    (** ["speechSynthesis" in window] *)
  recording : nat -> option Blob;
    (** the n-th recordSpeech: a blob, or a rejection *)
  getGoogleVoiceConfig : jsstring -> option jsstring -> option JsError;
  getAzureVoiceConfig : jsstring -> option jsstring -> option JsError;
    (** The two methods are called by the class and not defined in it:
        whether the call throws is left to the host. With the class as it
        stands the call is a TypeError. *)
  currentService : jsstring;
  audioCache : list (jsstring * AudioResult);
    (** the Map, in insertion order *)
  requests : nat;
  recordings : nat;
  calls : list Call
    (** backends invoked so far, oldest first *)
}.

Definition maxCacheSize : nat := 50.

Definition with_cache (c : list (jsstring * AudioResult)) (w : World) : World :=
  {| sync := sync w; remote := remote w; speechSynthesis := speechSynthesis w;
     recording := recording w; getGoogleVoiceConfig := getGoogleVoiceConfig w;
     getAzureVoiceConfig := getAzureVoiceConfig w;
     currentService := currentService w; audioCache := c;
     requests := requests w; recordings := recordings w; calls := calls w |}.

Definition with_counts (rq rc : nat) (cs : list Call) (w : World) : World :=
  {| sync := sync w; remote := remote w; speechSynthesis := speechSynthesis w;
     recording := recording w; getGoogleVoiceConfig := getGoogleVoiceConfig w;
     getAzureVoiceConfig := getAzureVoiceConfig w;
     currentService := currentService w; audioCache := audioCache w;
     requests := rq; recordings := rc; calls := cs |}.

Definition enter (c : Call) : M World unit :=
  modify (fun w => with_counts (requests w) (recordings w) (calls w ++ [c]) w).

Definition fetch : M World RemoteReply :=
  reply <- gets (fun w => remote w (requests w)) ;;
  modify (fun w => with_counts (S (requests w)) (recordings w) (calls w) w) ;;
  ret reply.

Definition recordSpeech : M World (option Blob) :=
  blob <- gets (fun w => recording w (recordings w)) ;;
  modify (fun w => with_counts (requests w) (S (recordings w)) (calls w) w) ;;
  ret blob.

(** [result[`${service}ApiKey`] || null] *)
Definition getApiKey (svc : string) : M World (option jsstring) :=
  gets (fun w => truthy (sync w (lit svc ++ lit "ApiKey"))).

(** *** The Map used as a cache *)

Definition cache_get (key : jsstring) (c : list (jsstring * AudioResult))
  : option AudioResult := assoc c key.

Definition cache_has (key : jsstring) (c : list (jsstring * AudioResult)) : bool :=
  match cache_get key c with Some _ => true | None => false end.

(** [map.set(key, value)]: a present key keeps its place, a new one goes
    last. *)
Fixpoint cache_set (key : jsstring) (v : AudioResult)
    (c : list (jsstring * AudioResult)) : list (jsstring * AudioResult) :=
  match c with
  | [] => [(key, v)]
  | (k, x) :: rest =>
      if str_eqb k key then (k, v) :: rest else (k, x) :: cache_set key v rest
  end.

(** [map.delete(map.keys().next().value)] *)
Definition cache_delete_first (c : list (jsstring * AudioResult))
  : list (jsstring * AudioResult) := tl c.

(** [[
    if (this.audioCache.size >= this.maxCacheSize) {
      const firstKey = this.audioCache.keys().next().value
      this.audioCache.delete(firstKey)
    }
    this.audioCache.set(key, audioResult)
]] *)
Definition cacheAudio_on (key : jsstring) (audioResult : AudioResult)
    (c : list (jsstring * AudioResult)) : list (jsstring * AudioResult) :=
  if maxCacheSize <=? length c
  then cache_set key audioResult (cache_delete_first c)
  else cache_set key audioResult c.

Definition cacheAudio (key : jsstring) (audioResult : AudioResult) : M World unit :=
  modify (fun w => with_cache (cacheAudio_on key audioResult (audioCache w)) w).

(** *** The backends *)

Definition configs : list (jsstring * VoiceConfig) :=
  [ (lit "rap",     {| rate := 130; pitch := 110; volume := 90 |});
    (lit "pop",     {| rate := 100; pitch := 100; volume := 80 |});
    (lit "nursery", {| rate := 80;  pitch := 120; volume := 70 |});
    (lit "ballad",  {| rate := 70;  pitch := 90;  volume := 80 |});
    (lit "country", {| rate := 90;  pitch := 95;  volume := 80 |}) ]%N.

(** [configs[style] || configs.pop]; [None] stands for a member inherited
    from [Object.prototype], which has no rate, pitch or volume. *)
Definition getVoiceConfig (style : jsstring) : option VoiceConfig :=
  match get configs style with
  | Own c => Some c
  | Inherited => None
  | Absent => Some {| rate := 100; pitch := 100; volume := 80 |}%N
  end.

(** generateWithBrowser. Setting [utterance.rate] to [undefined] is a
    TypeError of the platform; a failed recording gives the utterance
    itself for direct playback. *)
Definition generateWithBrowser (text style : jsstring) (gender : option jsstring)
  : M World AudioResult :=
  enter CallBrowser ;;
  supported <- gets speechSynthesis ;;
  if negb supported then throw (Error (lit "Speech synthesis not supported"))
  else
    match getVoiceConfig style with
    | None =>
        throw (TypeError (lit "Failed to set the 'rate' property on 'SpeechSynthesisUtterance': The provided float value is non-finite."))
    | Some voiceConfig =>
        let utterance := {| u_text := text; u_config := voiceConfig |} in
        recorded <- recordSpeech ;;
        match recorded with
        | Some audioBlob =>
            ret {| success := true; service := lit "browser";
                   audio := AudioUrl audioBlob |}
        | None =>
            ret {| success := true; service := lit "browser";
                   audio := Direct utterance |}
        end
    end.

(** The request of a remote backend and the reading of its response. The
    voice and the settings sent along are read from tables, which cannot
    throw. *)
Definition post (svc provider : string) : M World AudioResult :=
  reply <- fetch ;;
  match reply with
  | Rejected e => throw e
  | NotOk status =>
      throw (Error (lit provider ++ lit " API error: " ++ dec (Z.of_N status)))
  | BodyFails e => throw e
  | Body audioBlob =>
      ret {| success := true; service := lit svc; audio := AudioUrl audioBlob |}
  end.

Definition generateWithElevenLabs (text style : jsstring) (gender : option jsstring)
  : M World AudioResult :=
  enter CallElevenLabs ;;
  apiKey <- getApiKey "elevenlabs" ;;
  match apiKey with
  | None => throw (Error (lit "ElevenLabs API key not configured"))
  | Some _ => post "elevenlabs" "ElevenLabs"
  end.

Definition generateWithGoogle (text style : jsstring) (gender : option jsstring)
  : M World AudioResult :=
  enter CallGoogle ;;
  apiKey <- getApiKey "google" ;;
  match apiKey with
  | None => throw (Error (lit "Google Cloud API key not configured"))
  | Some _ =>
      thrown <- gets (fun w => getGoogleVoiceConfig w style gender) ;;
      match thrown with
      | Some e => throw e
      | None => post "google" "Google TTS"
      end
  end.

(** getAzureConfig reads [azureKey] and [azureRegion]. *)
Definition generateWithAzure (text style : jsstring) (gender : option jsstring)
  : M World AudioResult :=
  enter CallAzure ;;
  key <- gets (fun w => truthy (sync w (lit "azureKey"))) ;;
  region <- gets (fun w => truthy (sync w (lit "azureRegion"))) ;;
  match key, region with
  | Some _, Some _ =>
      thrown <- gets (fun w => getAzureVoiceConfig w style gender) ;;
      match thrown with
      | Some e => throw e
      | None => post "azure" "Azure TTS"
      end
  | _, _ => throw (Error (lit "Azure TTS configuration not complete"))
  end.

(** *** generateAudio *)

(** The [switch] on [this.currentService]. *)
Definition dispatch (svc text style : jsstring) (gender : option jsstring)
  : M World AudioResult :=
  if str_eqb svc (lit "elevenlabs") then generateWithElevenLabs text style gender
  else if str_eqb svc (lit "google") then generateWithGoogle text style gender
  else if str_eqb svc (lit "azure") then generateWithAzure text style gender
  else generateWithBrowser text style gender.

(** [style] is [None] when the argument is left out: the default is
    ["pop"]. [gender] is [options.gender]. *)
Definition generateAudio (text : jsstring) (style0 : option jsstring)
    (gender : option jsstring) : M World AudioResult :=
  let style := match style0 with Some s => s | None => lit "pop" end in
  try_catch
    (let cacheKey := createCacheKey text style gender in
     cached <- gets (fun w => cache_get cacheKey (audioCache w)) ;;
     match cached with
     | Some audioResult => ret audioResult
     | None =>
         svc <- gets currentService ;;
         audioResult <- dispatch svc text style gender ;;
         cacheAudio cacheKey audioResult ;;
         ret audioResult
     end)
    (fun error => generateWithBrowser text style gender).

(** *** Vocabulary of the properties, and scenarios *)

(** The backend that the [switch] selects. *)
Definition service_call (svc : jsstring) : Call :=
  if str_eqb svc (lit "elevenlabs") then CallElevenLabs
  else if str_eqb svc (lit "google") then CallGoogle
  else if str_eqb svc (lit "azure") then CallAzure
  else CallBrowser.

(** What a backend leaves alone: the cache, the configured service and the
    host; and the one call it adds to the trace. *)
Definition extends (c : Call) (w w' : World) : Prop :=
  audioCache w' = audioCache w
  /\ currentService w' = currentService w
  /\ speechSynthesis w' = speechSynthesis w
  /\ calls w' = calls w ++ [c].

Definition not_finite : JsError :=
  TypeError (lit "Failed to set the 'rate' property on 'SpeechSynthesisUtterance': The provided float value is non-finite.").

Definition no_storage : jsstring -> option jsstring := fun _ => None.

Definition world_of (svc : string) (speech : bool) : World :=
  {| sync := no_storage; remote := fun _ => NotOk 401;
     speechSynthesis := speech; recording := fun _ => None;
     getGoogleVoiceConfig := fun _ _ =>
       Some (TypeError (lit "this.getGoogleVoiceConfig is not a function"));
     getAzureVoiceConfig := fun _ _ =>
       Some (TypeError (lit "this.getAzureVoiceConfig is not a function"));
     currentService := lit svc; audioCache := [];
     requests := 0; recordings := 0; calls := [] |}.

(** The default service in a window without speech synthesis. *)
Definition world_mute : World := world_of "browser" false.

(** A remote service selected and no key stored for it. *)
Definition world_unconfigured : World := world_of "elevenlabs" true.

(** The default service where speech synthesis works. *)
Definition world_speaking : World := world_of "browser" true.

End Audio.

(* ===================================================================== *)
(** ** gemini.js: class GeminiAPI *)
(* ===================================================================== *)

Module Gemini.

(** *** Prompt construction *)

Record LengthSpec := { lines : jsstring; verses : jsstring; duration : jsstring }.

Record StyleGuide := {
  rhythm : jsstring;
  rhymeScheme : jsstring;
  language : jsstring;
  structure : jsstring;
  examples : jsstring
}.

Definition lengthSpecs : list (jsstring * LengthSpec) :=
  [ (lit "short",
     {| lines := lit "4-6 lines"; verses := lit "1 verse"; duration := lit "brief" |});
    (lit "medium",
     {| lines := lit "8-12 lines"; verses := lit "2-3 verses"; duration := lit "moderate" |});
    (lit "long",
     {| lines := lit "16-24 lines"; verses := lit "3-4 verses"; duration := lit "extended" |}) ].

Definition styleGuides : list (jsstring * StyleGuide) :=
  [ (lit "rap",
     {| rhythm := lit "strong 4/4 beat with emphasis on beats 1 and 3";
        rhymeScheme := lit "AABB or ABAB with internal rhymes";
        language := lit "modern, rhythmic, with wordplay and flow";
        structure := lit "verses with punch lines";
        examples := lit "like Drake, Kendrick, or Eminem" |});
    (lit "pop",
     {| rhythm := lit "catchy, upbeat tempo";
        rhymeScheme := lit "ABAB or AABA with memorable hooks";
        language := lit "accessible, melodic, radio-friendly";
        structure := lit "verse-chorus structure with hooks";
        examples := lit "like Taylor Swift, Ed Sheeran, or Dua Lipa" |});
    (lit "nursery",
     {| rhythm := lit "simple, bouncy rhythm";
        rhymeScheme := lit "AABB perfect rhymes";
        language := lit "simple words, playful, innocent";
        structure := lit "repetitive patterns, easy to remember";
        examples := lit "like Twinkle Twinkle Little Star or Humpty Dumpty" |});
    (lit "ballad",
     {| rhythm := lit "slow, emotional tempo";
        rhymeScheme := lit "ABAB or ABCB with flowing verses";
        language := lit "emotional, storytelling, descriptive";
        structure := lit "narrative verses building emotion";
        examples := lit "like Adele, Sam Smith, or classic folk ballads" |});
    (lit "country",
     {| rhythm := lit "steady, storytelling rhythm";
        rhymeScheme := lit "AABA or ABAB with narrative flow";
        language := lit "folksy, down-to-earth, relatable";
        structure := lit "story-driven verses with choruses";
        examples := lit "like Johnny Cash, Dolly Parton, or Keith Urban" |}) ].

Definition toneAdjectives : list (jsstring * jsstring) :=
  [ (lit "fun", lit "playful, energetic, and entertaining");
    (lit "educational", lit "informative, clear, and engaging");
    (lit "humorous", lit "funny, witty, and clever");
    (lit "dramatic", lit "intense, emotional, and powerful");
    (lit "chill", lit "relaxed, smooth, and laid-back") ].

(** [`${guide.field}`] when [guide] was found: a member inherited from
    [Object.prototype] has none of the fields and prints [undefined]. *)
Definition field_text {A} (l : Lookup A) (f : A -> jsstring) : jsstring :=
  match l with
  | Own a => f a
  | _ => lit "undefined"
  end.

(** [`${toneDesc}`] *)
Definition tone_text (tone : jsstring) : jsstring :=
  match get toneAdjectives tone with
  | Own a => a
  | Inherited => inherited_text tone
  | Absent => lit "undefined"
  end.

Definition cannot_read (field : string) : JsError :=
  TypeError (lit "Cannot read properties of undefined (reading '"
             ++ lit field ++ lit "')").

(** The template literal of createPrompt, its holes filled. *)
Definition basePrompt (toneDesc style title content : jsstring)
    (guide : Lookup StyleGuide) (spec : Lookup LengthSpec)
    (customInstructions : jsstring) : jsstring :=
  lit "Transform the following content into a " ++ toneDesc ++ lit " " ++ style
    ++ lit " song/rhyme." ++ newline
  ++ newline
  ++ lit "CONTENT TO TRANSFORM:" ++ newline
  ++ lit "Title: " ++ title ++ newline
  ++ lit "Content: " ++ substring0 2500 content ++ newline
  ++ newline
  ++ lit "STYLE REQUIREMENTS:" ++ newline
  ++ lit "- Genre: " ++ style ++ lit " " ++ field_text guide examples ++ newline
  ++ lit "- Rhythm: " ++ field_text guide rhythm ++ newline
  ++ lit "- Rhyme scheme: " ++ field_text guide rhymeScheme ++ newline
  ++ lit "- Language style: " ++ field_text guide language ++ newline
  ++ lit "- Structure: " ++ field_text guide structure ++ newline
  ++ lit "- Length: " ++ field_text spec lines ++ lit " ("
    ++ field_text spec verses ++ lit ")" ++ newline
  ++ lit "- Tone: " ++ toneDesc ++ newline
  ++ newline
  ++ lit "CREATIVE GUIDELINES:" ++ newline
  ++ lit "1. Capture the main ideas and key information from the content" ++ newline
  ++ lit "2. Make it memorable and catchy with strong rhythm" ++ newline
  ++ lit "3. Use creative wordplay and metaphors appropriate to the style" ++ newline
  ++ lit "4. Ensure smooth flow and natural pronunciation" ++ newline
  ++ lit "5. Include hooks or memorable phrases that stick" ++ newline
  ++ lit "6. Make it " ++ toneDesc ++ lit " while staying true to the content" ++ newline
  ++ match customInstructions with
     | [] => []
     | _ => lit "7. Additional instructions: " ++ customInstructions
     end ++ newline
  ++ newline
  ++ lit "IMPORTANT: Return ONLY the song/rhyme lyrics with clear verse breaks. No explanations, titles, or additional text.".

(** createPrompt. Reading a field of [guide] or [spec] throws when the
    lookup gave [undefined]; [guide.examples] is read first. *)
Definition createPrompt (content style length tone title customInstructions : jsstring)
  : Completion jsstring :=
  let spec := get lengthSpecs length in
  let guide := get styleGuides style in
  let toneDesc := tone_text tone in
  match guide, spec with
  | Absent, _ => Throw (cannot_read "examples")
  | _, Absent => Throw (cannot_read "lines")
  | _, _ =>
      Normal (basePrompt toneDesc style title content guide spec customInstructions)
  end.

(** *** Cleaning the response *)

(** The first [:] reached by the lazy [.*?], which stops at a line
    terminator; returns what follows the colon. *)
Fixpoint after_colon (s : jsstring) : option jsstring :=
  match s with
  | [] => None
  | c :: t =>
      if N.eqb c 58 then Some t
      else if is_line_terminator c then None
      else after_colon t
  end.

(** [/^(Here's|Here is).*?:\s*/i], replaced by the empty string. *)
Definition strip_here (s : jsstring) : jsstring :=
  let tail :=
    if startsWith_ci (lit "Here's") s then after_colon (skipn 6 s)
    else if startsWith_ci (lit "Here is") s then after_colon (skipn 7 s)
    else None in
  match tail with
  | Some t => trimStart t
  | None => s
  end.

(** [/^(Song|Rhyme|Lyrics):\s*/i], replaced by the empty string. *)
Definition strip_label (s : jsstring) : jsstring :=
  if startsWith_ci (lit "Song:") s then trimStart (skipn 5 s)
  else if startsWith_ci (lit "Rhyme:") s then trimStart (skipn 6 s)
  else if startsWith_ci (lit "Lyrics:") s then trimStart (skipn 7 s)
  else s.

(** The group of [(.*?)] followed by the closing delimiter: the shortest
    text free of line terminators after which [close] starts. *)
Fixpoint lazy_group (close : jsstring) (s : jsstring) : option jsstring :=
  if startsWith close s then Some []
  else
    match s with
    | [] => None
    | c :: t =>
        if is_line_terminator c then None
        else option_map (cons c) (lazy_group close t)
    end.

(** [/\*\*(.*?)\*\*/] and [/\*(.*?)\*/], replaced by ["$1"]. *)
Definition m_emphasis (delim : jsstring) : matcher := fun s =>
  if nonempty delim && startsWith delim s then
    match lazy_group delim (skipn (length delim) s) with
    | Some g => Some (g, length delim + length g + length delim)
    | None => None
    end
  else None.

(** Index of the last line feed of a string, if any. *)
Fixpoint last_lf (s : jsstring) : option nat :=
  match s with
  | [] => None
  | c :: t =>
      match last_lf t with
      | Some i => Some (S i)
      | None => if N.eqb c 10 then Some 0 else None
      end
  end.

(** [/\n\s*\n/] replaced by two line feeds: the greedy [\s*] gives back
    white space until a line feed follows. *)
Definition m_blank_lines : matcher := fun s =>
  match s with
  | c :: t =>
      if N.eqb c 10 then
        match last_lf (takeWhile is_ws t) with
        | Some i => Some (newline ++ newline, S (S i))
        | None => None
        end
      else None
  | [] => None
  end.

(** cleanResponse on a string. *)
Definition cleanResponse_str (response : jsstring) : jsstring :=
  match response with
  | [] => []
  | _ =>
      let cleaned :=
        trim (replaceAll (m_emphasis (lit "*"))
               (replaceAll (m_emphasis (lit "**"))
                 (strip_label (strip_here response)))) in
      replaceAll m_blank_lines cleaned
  end.

(** cleanResponse on what the service sent: a falsy value gives the
    empty string, [.replace] on a truthy value that is not a string is a
    TypeError. *)
Definition cleanResponse (response : jsval) : Completion jsstring :=
  match response with
  | VStr s => Normal (cleanResponse_str s)
  | VFalsy => Normal []
  | VObject => Throw (TypeError (lit "response.replace is not a function"))
  end.

(** countWords of gemini.js on the same value. *)
Definition countWords_val (text : jsval) : Completion nat :=
  match text with
  | VStr s => Normal (countWords s)
  | VFalsy => Normal 0
  | VObject => Throw (TypeError (lit "text.split is not a function"))
  end.

(** *** The local fallback *)

Definition is_sentence_end (c : N) : bool :=
  N.eqb c 46 || N.eqb c 33 || N.eqb c 63.

(** [[
    const sentences = content.split(/[.!?]+/).filter((s) => s.trim().length > 10)
    return sentences.slice(0, maxPoints).map((s) => s.trim())
]] *)
Definition extractKeyPoints (content : jsstring) (maxPoints : nat) : list jsstring :=
  let sentences :=
    filter (fun s => 10 <? length (trim s)) (split_re is_sentence_end content) in
  map trim (slice0 maxPoints sentences).

Definition keyLines (content : jsstring) : jsstring :=
  join (lit "," ++ newline) (extractKeyPoints content 2).

Definition templates (content : jsstring) : list (jsstring * jsstring) :=
  [ (lit "rap",
     lit "Yo, check this out, let me break it down," ++ newline
     ++ keyLines content ++ newline
     ++ lit "That's the story, that's the sound!");
    (lit "pop",
     lit "Here's a story that you need to know," ++ newline
     ++ keyLines content ++ newline
     ++ lit "Now you've heard it, now you know!");
    (lit "nursery",
     lit "Listen close to what I say," ++ newline
     ++ keyLines content ++ newline
     ++ lit "That's the story for today!");
    (lit "ballad",
     lit "Let me tell you of a tale," ++ newline
     ++ keyLines content ++ newline
     ++ lit "This story will never fail.");
    (lit "country",
     lit "Gather 'round, I'll tell you true," ++ newline
     ++ keyLines content ++ newline
     ++ lit "That's the story, through and through.") ].

Definition pop_template (content : jsstring) : jsstring :=
  lit "Here's a story that you need to know," ++ newline
  ++ keyLines content ++ newline
  ++ lit "Now you've heard it, now you know!".

(** [return templates[style] || templates.pop]: every own template is a
    non-empty string, an inherited member is an object or a function. *)
Definition generateFallbackRhyme (content style : jsstring) : jsval :=
  match get (templates content) style with
  | Own t => VStr t
  | Inherited => VObject
  | Absent => VStr (pop_template content)
  end.

(** *** The object, its host and the calls to the service *)

(** What one POST to the generative endpoint comes to, by the branch of
    callGeminiAPI it drives. *)
Inductive ApiReply : Type :=
| FetchRejected (e : JsError)
    (** [fetch] rejects: the network failed *)
| HttpFailure (status : N) (detail : option jsstring)
    (** [!response.ok]; [detail] is [errorData.error?.message] when truthy *)
| Unreadable (e : JsError)
    (** reading the body throws: [response.json()] rejects, or
        [content.parts[0].text] is not reachable *)
| InvalidFormat
    (** [candidates], [candidates[0]] or [candidates[0].content] is missing *)
| ReplyText (text : jsval)
    (** [result.candidates[0].content.parts[0].text] *).

Inductive Event : Type :=
| EvFetch (key prompt : jsstring)
| EvDelay (ms : nat).

Record World := {
  storedKey : option jsstring;
    (** [geminiApiKey] in chrome.storage.sync *)
  backend : nat -> jsstring -> jsstring -> ApiReply;
    (** the reply to the n-th request of the run, given key and prompt *)
  clock : jsstring;
    (** [new Date().toISOString()] *)
  apiKey : option jsstring;
    (** [this.apiKey], [None] for [null] *)
  fetches : nat;
    (** requests sent so far *)
  log : list Event
    (** requests and delays, oldest first *)
}.

Definition maxRetries : nat := 3.
Definition retryDelay : nat := 1000.

Local Open Scope js_scope.

Definition set_apiKey (k : option jsstring) (w : World) : World :=
  {| storedKey := storedKey w; backend := backend w; clock := clock w;
     apiKey := k; fetches := fetches w; log := log w |}.

Definition record_event (e : Event) (w : World) : World :=
  {| storedKey := storedKey w; backend := backend w; clock := clock w;
     apiKey := apiKey w;
     fetches := match e with EvFetch _ _ => S (fetches w) | EvDelay _ => fetches w end;
     log := log w ++ [e] |}.

(** getApiKey: the cached key if there is one, else the stored one
    ([result.geminiApiKey || null]), which is cached. *)
Definition getApiKey : M World (option jsstring) :=
  cached <- gets apiKey ;;
  match truthy cached with
  | Some k => ret (Some k)
  | None =>
      stored <- gets storedKey ;;
      modify (set_apiKey (truthy stored)) ;;
      ret (truthy stored)
  end.

(** [delay(ms)] *)
Definition delay (ms : nat) : M World unit := modify (record_event (EvDelay ms)).

(** What the [try] block of callGeminiAPI makes of a reply: the text, or
    the exception it throws. *)
Definition outcome (reply : ApiReply) : Completion jsval :=
  match reply with
  | FetchRejected e => Throw e
  | HttpFailure status detail =>
      Throw (Error (lit "API request failed: " ++ dec (Z.of_N status) ++ lit " - "
                    ++ or_else detail (lit "Unknown error")))
  | Unreadable e => Throw e
  | InvalidFormat => Throw (Error (lit "Invalid response format from Gemini API"))
  | ReplyText text => Normal text
  end.

(** The attempt fails: the [try] block throws. *)
Definition fails (reply : ApiReply) : bool :=
  match reply with ReplyText _ => false | _ => true end.

(** The [try] block of callGeminiAPI: one request and the reading of its
    response. *)
Definition request (prompt key : jsstring) : M World jsval :=
  n <- gets fetches ;;
  reply <- gets (fun w => backend w n key prompt) ;;
  modify (record_event (EvFetch key prompt)) ;;
  lift (outcome reply).

(** callGeminiAPI. The source recurses on [attempt + 1] while
    [attempt < this.maxRetries]; [left] is the number of retries still
    allowed, [maxRetries - attempt]. *)
Fixpoint callGeminiAPI_from (left : nat) (prompt key : jsstring) (attempt : nat)
  : M World jsval :=
  try_catch (request prompt key)
    (fun error =>
       match left with
       | S left' =>
           delay (retryDelay * attempt) ;;
           callGeminiAPI_from left' prompt key (attempt + 1)
       | O => throw error
       end).

Definition callGeminiAPI (prompt key : jsstring) (attempt : nat) : M World jsval :=
  callGeminiAPI_from (maxRetries - attempt) prompt key attempt.

(** *** transformToRhyme *)

Record Options := {
  opt_style : option jsstring;
  opt_length : option jsstring;
  opt_tone : option jsstring;
  opt_title : option jsstring;
  opt_customInstructions : option jsstring
}.

(** Destructuring with a default: the default replaces [undefined]. *)
Definition or_default (v : option jsstring) (d : jsstring) : jsstring :=
  match v with Some x => x | None => d end.

Record Metadata := {
  md_style : jsstring;
  md_length : jsstring;
  md_tone : jsstring;
  wordCount : nat;
  generatedAt : jsstring
}.

Inductive RhymeResult : Type :=
| Success (rhyme : jsstring) (metadata : Metadata)
| Failure (error : jsstring) (fallback : jsval).

Definition success (r : RhymeResult) : bool :=
  match r with Success _ _ => true | Failure _ _ => false end.

Definition transformToRhyme (content : jsstring) (options : Options)
  : M World RhymeResult :=
  let style := or_default (opt_style options) (lit "pop") in
  let length := or_default (opt_length options) (lit "medium") in
  let tone := or_default (opt_tone options) (lit "fun") in
  let title := or_default (opt_title options) [] in
  let customInstructions := or_default (opt_customInstructions options) [] in
  try_catch
    (apiKey <- getApiKey ;;
     match apiKey with
     | None => throw (Error (lit "Gemini API key not configured"))
     | Some key =>
         prompt <- lift (createPrompt content style length tone title customInstructions) ;;
         response <- callGeminiAPI prompt key 1 ;;
         rhyme <- lift (cleanResponse response) ;;
         words <- lift (countWords_val response) ;;
         now <- gets clock ;;
         ret (Success rhyme
                {| md_style := style; md_length := length; md_tone := tone;
                   wordCount := words; generatedAt := now |})
     end)
    (fun error =>
       ret (Failure (message error) (generateFallbackRhyme content style))).

(** *** Vocabulary of the properties, and scenarios *)

Definition styles : list jsstring :=
  map lit ["rap"; "pop"; "nursery"; "ballad"; "country"]%string.
Definition lengths : list jsstring :=
  map lit ["short"; "medium"; "long"]%string.
Definition tones : list jsstring :=
  map lit ["fun"; "educational"; "humorous"; "dramatic"; "chill"]%string.

(** The first [n] sentences whose trimmed length exceeds 10, trimmed: the
    selection in the words of the specification, one sentence at a time. *)
Fixpoint firstLongSentences (sentences : list jsstring) (n : nat) : list jsstring :=
  match sentences, n with
  | [], _ => []
  | _, O => []
  | s :: rest, S k =>
      if 10 <? length (trim s)
      then trim s :: firstLongSentences rest k
      else firstLongSentences rest (S k)
  end.

(** The first and the last line of the five templates. *)
Definition frames : list (jsstring * (jsstring * jsstring)) :=
  [ (lit "rap", (lit "Yo, check this out, let me break it down,",
                 lit "That's the story, that's the sound!"));
    (lit "pop", (lit "Here's a story that you need to know,",
                 lit "Now you've heard it, now you know!"));
    (lit "nursery", (lit "Listen close to what I say,",
                     lit "That's the story for today!"));
    (lit "ballad", (lit "Let me tell you of a tale,",
                    lit "This story will never fail."));
    (lit "country", (lit "Gather 'round, I'll tell you true,",
                     lit "That's the story, through and through.")) ].

Definition framed (frame : jsstring * jsstring) (points : list jsstring) : jsstring :=
  fst frame ++ newline ++ join (lit "," ++ newline) points ++ newline ++ snd frame.

(** The failure result of transformToRhyme. *)
Definition failed (content : jsstring) (options : Options) (e : JsError) : RhymeResult :=
  Failure (message e)
    (generateFallbackRhyme content (or_default (opt_style options) (lit "pop"))).

(** The trace of three attempts. *)
Definition attempts (key prompt : jsstring) : list Event :=
  [EvFetch key prompt; EvDelay 1000; EvFetch key prompt; EvDelay 2000;
   EvFetch key prompt].

(** The text of the end-to-end scenario. *)
Definition fox : jsstring :=
  lit "The quick brown fox jumps over the lazy dog. It was a sunny day.".

Definition pop_options : Options :=
  {| opt_style := Some (lit "pop"); opt_length := Some (lit "medium");
     opt_tone := Some (lit "fun"); opt_title := None;
     opt_customInstructions := None |}.

Definition world_with (key : option jsstring) (b : nat -> ApiReply) : World :=
  {| storedKey := key; backend := fun n _ _ => b n;
     clock := lit "2024-01-01T00:00:00.000Z";
     apiKey := None; fetches := 0; log := [] |}.

Definition failed_to_fetch : ApiReply := FetchRejected (TypeError (lit "Failed to fetch")).

Definition chatty : ApiReply := ReplyText (VStr (lit "Here's your song: la la")).

(** Fails twice, then answers. *)
Definition world_flaky : World :=
  world_with (Some (lit "AIzaSy-0123456789-abcdefghij"))
    (fun n => if n <? 2 then failed_to_fetch else chatty).

(** Never answers. *)
Definition world_down : World :=
  world_with (Some (lit "AIzaSy-0123456789-abcdefghij"))
    (fun _ => HttpFailure 503 None).

(** No key configured. *)
Definition world_no_key : World := world_with None (fun _ => chatty).

(** Answers at once. *)
Definition world_up : World :=
  world_with (Some (lit "AIzaSy-0123456789-abcdefghij")) (fun _ => chatty).

End Gemini.

(* ===================================================================== *)
(** ** popup.js: RhymeTimePopup.saveToHistory *)
(* ===================================================================== *)

Module Popup.

(** getCurrentSettings(): the values of the form. *)
Record Settings := {
  style : jsstring;
  length_ : jsstring;
  tone : jsstring;
  customInstructions : jsstring;
  voiceGender : jsstring
}.

Record Content := { c_title : jsstring; c_url : jsstring }.

Record HistoryItem := {
  id : Z;
  rhyme : jsstring;
  title : jsstring;
  url : jsstring;
  settings : Settings;
  generationTime : Z;
  createdAt : jsstring
}.

Record Popup := {
  currentContent : option Content;
    (** [this.currentContent], [None] for [null] *)
  form : Settings;
  settings_maxHistory : option Z;
    (** [this.settings.maxHistory]: an integer, or [None] when the setting
        is [undefined] or [NaN] *)
  history : list HistoryItem;
    (** [this.history], newest first *)
  stored : list HistoryItem;
    (** [rhymeHistory] in chrome.storage.local *)
  dateNow : Z;
  isoNow : jsstring
}.

(** [this.settings.maxHistory || 25] *)
Definition maxHistory (p : Popup) : Z :=
  match settings_maxHistory p with
  | Some 0%Z | None => 25%Z
  | Some m => m
  end.

(** [arr.slice(0, end)] for an integer [end]: a negative [end] counts
    from the end of the array. *)
Definition slice_to {A} (e : Z) (l : list A) : list A :=
  let len := Z.of_nat (length l) in
  let k := if (e <? 0)%Z then Z.max (len + e) 0 else Z.min e len in
  firstn (Z.to_nat k) l.

Definition historyItem (p : Popup) (rhymeText : jsstring) (generationTime : Z)
  : HistoryItem :=
  {| id := dateNow p;
     rhyme := rhymeText;
     title := or_else (option_map c_title (currentContent p)) (lit "Generated Rhyme");
     url := or_else (option_map c_url (currentContent p)) [];
     settings := form p;
     generationTime := generationTime;
     createdAt := isoNow p |}.

(** [[
    this.history.unshift(historyItem)
    const maxHistory = this.settings.maxHistory || 25
    if (this.history.length > maxHistory) {
      this.history = this.history.slice(0, maxHistory)
    }
]] *)
Definition push_capped (maxHistory : Z) (item : HistoryItem)
    (history : list HistoryItem) : list HistoryItem :=
  let history1 := item :: history in
  if (maxHistory <? Z.of_nat (length history1))%Z
  then slice_to maxHistory history1
  else history1.

(** saveToHistory: the new list is also written to the storage. *)
Definition saveToHistory (rhymeText : jsstring) (generationTime : Z) (p : Popup)
  : Popup :=
  let h := push_capped (maxHistory p) (historyItem p rhymeText generationTime)
             (history p) in
  {| currentContent := currentContent p; form := form p;
     settings_maxHistory := settings_maxHistory p;
     history := h; stored := h;
     dateNow := dateNow p; isoNow := isoNow p |}.

(** The clock moves between two saves. *)
Definition at_time (t : Z) (iso : jsstring) (p : Popup) : Popup :=
  {| currentContent := currentContent p; form := form p;
     settings_maxHistory := settings_maxHistory p;
     history := history p; stored := stored p;
     dateNow := t; isoNow := iso |}.

(** Saving one rhyme after another, each at its own time. *)
Fixpoint saveAll (rhymes : list (jsstring * Z * jsstring)) (p : Popup) : Popup :=
  match rhymes with
  | [] => p
  | (text, t, iso) :: rest => saveAll rest (saveToHistory text 0 (at_time t iso p))
  end.

(** *** Vocabulary of the properties, and scenarios *)

(** The entry that a save creates, for the popup [p] and the clock of the
    save. *)
Definition entry (p : Popup) (r : jsstring * Z * jsstring) : HistoryItem :=
  let '(text, t, iso) := r in historyItem (at_time t iso p) text 0.

Definition popup0 : Popup :=
  {| currentContent := None;
     form := {| style := lit "pop"; length_ := lit "medium"; tone := lit "fun";
                customInstructions := []; voiceGender := lit "auto" |};
     settings_maxHistory := Some 25%Z;
     history := []; stored := [];
     dateNow := 0%Z; isoNow := lit "2024-01-01T00:00:00.000Z" |}.

(** 26 rhymes, numbered by the time of their save. *)
Definition rhyme_at (n : nat) : jsstring * Z * jsstring :=
  (dec (Z.of_nat n), Z.of_nat n, lit "2024-01-01T00:00:00.000Z").

Definition rhymes26 : list (jsstring * Z * jsstring) := map rhyme_at (seq 1 26).

End Popup.

(* ===================================================================== *)
(** ** Content script: class ContentExtractor *)
(* ===================================================================== *)

Module Content.

(** *** The document

    An element is known by its position in the document. The document is
    what the DOM calls of the extractor return on it; none of them throws
    on the selectors of the extractor, except where a field says so. The
    score of extractByReadability is a floating-point number; the model
    takes from the host the two comparisons that the code makes of it. *)
Definition Element := nat.

Record Document := {
  querySelector : jsstring -> option Element;
    (** [document.querySelector(selectors)]: the first match, or [null] *)
  querySelectorAll : jsstring -> list Element;
    (** [document.querySelectorAll(selectors)], in document order *)
  matches : Element -> jsstring -> Completion bool;
    (** [element.matches(selectors)] *)
  textContent : Element -> jsstring;
    (** [element.textContent] *)
  textWithout : Element -> jsstring -> jsstring;
    (** the text of a deep clone of the element once its descendants that
        match the selectors are removed *)
  ancestors : Element -> list Element;
    (** [element.parentElement], the parent element of that one, and so
        on up to the root element *)
  body : option Element;
    (** [document.body], [None] for [null] *)
  scoreAbove50 : Element -> bool;
    (** [score > 50], for
        [score = textLength * 0.5 + paragraphCount * 10 - linkDensity * 20] *)
  scoreBelow : Element -> Element -> bool;
    (** [a.score < b.score] *)
  documentTitle : jsstring;
  locationHref : jsstring;
  isoNow : jsstring
    (** [new Date().toISOString()] *)
}.

(** [this.selectors] *)
Definition quote : jsstring := [34%N].
Definition sel_article : jsstring :=
  lit "article, [role=" ++ quote ++ lit "article" ++ quote ++ lit "]".
Definition sel_main : jsstring :=
  lit "main, [role=" ++ quote ++ lit "main" ++ quote ++ lit "]".
Definition sel_content : jsstring :=
  lit ".content, .post-content, .entry-content, .article-content, .story-body".
Definition sel_newsContent : jsstring :=
  lit ".story, .article-body, .post-body, .entry, .content-body".
Definition sel_blogContent : jsstring := lit ".post, .blog-post, .entry, .article".
Definition sel_textContent : jsstring :=
  lit "p, h1, h2, h3, h4, h5, h6, li, blockquote, .text".
Definition sel_exclude : jsstring :=
  lit "nav, header, footer, aside, .sidebar, .menu, .navigation, .ads, .advertisement, .social, .share, .comments, .related, .recommended, script, style, noscript".

Record ExtractedContent := {
  content : jsstring;
  title : jsstring;
  url : jsstring;
  wordCount : nat;
  extractedAt : jsstring
}.

(** *** Helpers *)

(** isExcludedElement on an element: an exception of [matches] counts as
    not excluded. *)
Definition isExcludedElement (doc : Document) (element : Element) : bool :=
  match matches doc element sel_exclude with
  | Normal b => b
  | Throw _ => false
  end.

(** [(element.textContent || "").trim().length], the fallback being the
    empty string *)
Definition getTextLength (doc : Document) (element : Element) : nat :=
  length (trim (textContent doc element)).

(** extractTextFromElement: the text of the clone without the excluded
    elements, white space collapsed, trimmed. *)
Definition extractTextFromElement (doc : Document) (element : Element) : jsstring :=
  trim (replaceAll (m_ws_run (lit " ")) (textWithout doc element sel_exclude)).

(** *** The four strategies *)

(** [a || b] on elements. *)
Definition or_element (a b : option Element) : option Element :=
  match a with Some e => Some e | None => b end.

(** extractByStructure: the article, else the main region, else a content
    class, else a news or blog class. *)
Definition extractByStructure (doc : Document) : option jsstring :=
  let contentElement :=
    or_element (querySelector doc sel_article)
      (or_element (querySelector doc sel_main)
         (or_element (querySelector doc sel_content)
            (or_element (querySelector doc sel_newsContent)
               (querySelector doc sel_blogContent)))) in
  option_map (extractTextFromElement doc) contentElement.

(** [candidates.sort((a, b) => b.score - a.score)] followed by
    [candidates[0]]: the first candidate of the largest score. *)
Definition best_candidate (doc : Document) (candidates : list Element)
  : option Element :=
  fold_left
    (fun best c =>
       match best with
       | None => Some c
       | Some b => if scoreBelow doc b c then Some c else Some b
       end)
    candidates None.

(** extractByReadability *)
Definition extractByReadability (doc : Document) : option jsstring :=
  let allElements := querySelectorAll doc (lit "div, section, article") in
  let candidates :=
    filter (fun element =>
              negb (isExcludedElement doc element) && scoreAbove50 doc element)
      allElements in
  option_map (extractTextFromElement doc) (best_candidate doc candidates).

(** The Map from elements to densities, in insertion order. *)
Fixpoint density_get (m : list (Element * nat)) (e : Element) : option nat :=
  match m with
  | [] => None
  | (k, v) :: rest => if Nat.eqb k e then Some v else density_get rest e
  end.

Fixpoint density_set (e : Element) (v : nat) (m : list (Element * nat))
  : list (Element * nat) :=
  match m with
  | [] => [(e, v)]
  | (k, x) :: rest =>
      if Nat.eqb k e then (k, v) :: rest else (k, x) :: density_set e v rest
  end.

(** The ancestors that the [while] loop visits: from the parent upwards,
    as long as [parent !== document.body]. *)
Definition below_body (doc : Document) (element : Element) : list Element :=
  takeWhile
    (fun parent =>
       match body doc with
       | Some b => negb (Nat.eqb parent b)
       | None => true
       end)
    (ancestors doc element).

(** [[
      const currentDensity = densityMap.get(parent) || 0
      densityMap.set(parent, currentDensity + this.getTextLength(element))
]] *)
Definition add_density (doc : Document) (element : Element)
    (m : list (Element * nat)) (parent : Element) : list (Element * nat) :=
  let currentDensity :=
    match density_get m parent with Some d => d | None => 0 end in
  density_set parent (currentDensity + getTextLength doc element) m.

Definition densityMap (doc : Document) : list (Element * nat) :=
  fold_left
    (fun m element =>
       if isExcludedElement doc element then m
       else fold_left (add_density doc element) (below_body doc element) m)
    (querySelectorAll doc sel_textContent) [].

(** The entry of the largest density, the first of them in the order of
    the Map, with that density; [(None, 0)] when no density is positive. *)
Definition densest (m : list (Element * nat)) : option Element * nat :=
  fold_left
    (fun best entry =>
       let '(element, density) := entry in
       if snd best <? density then (Some element, density) else best)
    m (None, 0).

(** extractByTextDensity *)
Definition extractByTextDensity (doc : Document) : option jsstring :=
  match densest (densityMap doc) with
  | (Some bestElement, maxDensity) =>
      if 200 <? maxDensity then Some (extractTextFromElement doc bestElement)
      else None
  | (None, _) => None
  end.

(** extractFallback: the long paragraphs, else the start of the text of
    the body; a document without a body makes [document.body.textContent]
    throw. *)
Definition extractFallback (doc : Document) : Completion jsstring :=
  let paragraphs :=
    filter (fun text => 20 <? length text)
      (map (fun p => trim (textContent doc p))
         (filter (fun p => negb (isExcludedElement doc p))
            (querySelectorAll doc (lit "p")))) in
  match paragraphs with
  | [] =>
      match body doc with
      | Some b => Normal (substring0 2000 (trim (textContent doc b)))
      | None =>
          Throw (TypeError (lit "Cannot read properties of null (reading 'textContent')"))
      end
  | _ => Normal (join (newline ++ newline) paragraphs)
  end.

(** *** cleanContent *)

Definition unwantedPhrases : list jsstring :=
  map lit
    ["Click here"; "Read more"; "Continue reading"; "Share this"; "Subscribe";
     "Sign up"; "Log in"; "Cookie policy"; "Privacy policy"]%string.

Definition cleanContent (content0 : jsstring) : jsstring :=
  match content0 with
  | [] => []
  | _ =>
      let content1 := replaceAll (m_ws_run (lit " ")) content0 in
      let content2 :=
        fold_left (fun content phrase => replaceAll (m_phrase_ci phrase) content)
          unwantedPhrases content1 in
      let content3 :=
        if 3000 <? length content2
        then substring0 3000 content2 ++ lit "..."
        else content2 in
      trim content3
  end.

(** *** extractContent *)

(** [a() || rest]: [rest] is evaluated when [a()] is [null] or the empty
    string. *)
Definition or_next (a : option jsstring) (rest : Completion jsstring)
  : Completion jsstring :=
  match truthy a with
  | Some text => Normal text
  | None => rest
  end.

(** getPageMetadata, by the two fields that extractContent reads; the
    description, the author and the date are looked up and left unused. *)
Definition metadata_title (doc : Document) : jsstring :=
  or_else (Some (documentTitle doc)) (lit "Untitled Page").

(** The [try] block of extractContent. *)
Definition extract_try (doc : Document) : Completion ExtractedContent :=
  match or_next (extractByStructure doc)
          (or_next (extractByReadability doc)
             (or_next (extractByTextDensity doc) (extractFallback doc))) with
  | Throw e => Throw e
  | Normal content0 =>
      let content1 := cleanContent content0 in
      Normal {| content := content1;
                title := metadata_title doc;
                url := locationHref doc;
                wordCount := countWords content1;
                extractedAt := isoNow doc |}
  end.

(** The [catch] block. *)
Definition extract_catch (doc : Document) : ExtractedContent :=
  {| content := lit "Unable to extract content from this page.";
     title := or_else (Some (documentTitle doc)) (lit "Unknown Page");
     url := locationHref doc;
     wordCount := 0;
     extractedAt := isoNow doc |}.

Definition extractContent (doc : Document) : Completion ExtractedContent :=
  match extract_try doc with
  | Normal r => Normal r
  | Throw _ => Normal (extract_catch doc)
  end.

(** *** Scenarios *)

(** A document in which no selector matches anything. *)
Definition empty_document (b : option Element) (text : Element -> jsstring)
  : Document :=
  {| querySelector := fun _ => None; querySelectorAll := fun _ => [];
     matches := fun _ _ => Normal false; textContent := text;
     textWithout := fun e _ => text e; ancestors := fun _ => [];
     body := b; scoreAbove50 := fun _ => false; scoreBelow := fun _ _ => false;
     documentTitle := []; locationHref := lit "about:blank";
     isoNow := lit "2024-01-01T00:00:00.000Z" |}.

(** A page without a body: the last strategy throws and the placeholder
    is returned. *)
Definition bare_page : Document := empty_document None (fun _ => []).

(** A page whose body is one long run of text. *)
Definition long_page : Document :=
  empty_document (Some 0) (fun _ => repeat 97%N 4000).

(** A page with an article. *)
Definition article_page : Document :=
  {| querySelector := fun sel => if str_eqb sel sel_article then Some 1 else None;
     querySelectorAll := fun _ => [];
     matches := fun _ _ => Normal false;
     textContent := fun _ => lit "  The quick   brown fox. Click here  to Subscribe now ";
     textWithout := fun _ _ => lit "  The quick   brown fox. Click here  to Subscribe now ";
     ancestors := fun _ => [];
     body := Some 0; scoreAbove50 := fun _ => false; scoreBelow := fun _ _ => false;
     documentTitle := lit "Fox"; locationHref := lit "https://example.org/fox";
     isoNow := lit "2024-01-01T00:00:00.000Z" |}.

End Content.

(* ===================================================================== *)
(** ** Background script: handleRhymeGeneration *)
(* ===================================================================== *)

Module Background.

Local Open Scope js_scope.

(** The data of a [generateRhyme] message as the popup builds it: the
    content and the title of the extraction, and the values of the form. *)
Record Request := {
  content : jsstring;
  style : jsstring;
  length_ : jsstring;
  tone : jsstring;
  title : jsstring;
  customInstructions : jsstring
}.

(** What the POST to the proxy server comes to. *)
Inductive ProxyReply : Type :=
| Rejected (e : JsError)
    (** [fetch] rejects *)
| NotOk (status : N) (error : option jsstring)
    (** [!response.ok]; [error] is [errorData.error] when truthy *)
| Unreadable (e : JsError)
    (** [response.json()] rejects, or reading [result.success] throws *)
| Unsuccessful (error : option jsstring)
    (** [!result.success]; [error] is [result.error] when truthy *)
| Generated (rhyme : jsval)
    (** [result.success] holds; [rhyme] is [result.rhyme] *).

Record World := {
  proxy : Request -> ProxyReply;
  isoNow : jsstring;
  posts : list Request
    (** requests sent to the proxy, oldest first *)
}.

Record Metadata := {
  md_style : jsstring;
  md_length : jsstring;
  md_tone : jsstring;
  wordCount : nat;
  generatedAt : jsstring;
  fallback : bool
}.

Record Result := {
  rhyme : jsval;
  metadata : Metadata;
  audioUrl : option jsstring
}.

Definition fetch (data : Request) : M World ProxyReply :=
  reply <- gets (fun w => proxy w data) ;;
  modify (fun w => {| proxy := proxy w; isoNow := isoNow w;
                      posts := posts w ++ [data] |}) ;;
  ret reply.

Definition is_sentence_end (c : N) : bool :=
  N.eqb c 46 || N.eqb c 33 || N.eqb c 63.

Definition keyPoints (content : jsstring) : list jsstring :=
  filter nonempty (map trim (slice0 2 (split_re is_sentence_end content))).

Definition keyLines (content : jsstring) : jsstring :=
  join (lit "," ++ newline) (keyPoints content).

(** The musical-note emoji U+1F3B5, two code units. *)
Definition note : jsstring := [55356; 57269]%N.

Definition fallbacks (content : jsstring) : list (jsstring * jsstring) :=
  [ (lit "rap",
     lit "Yo, here's the story, let me break it down," ++ newline
     ++ keyLines content ++ newline
     ++ lit "That's the info, straight from the ground!");
    (lit "pop",
     note ++ lit " Here's what happened, in a catchy way," ++ newline
     ++ keyLines content ++ newline
     ++ lit "That's the story of today! " ++ note);
    (lit "nursery",
     lit "Once upon a time, here's what we learned," ++ newline
     ++ keyLines content ++ newline
     ++ lit "And that's how the story turned!");
    (lit "default",
     lit "Here's the story in a fun way:" ++ newline
     ++ keyLines content ++ newline
     ++ lit "That's what happened today!") ].

Definition default_fallback (content : jsstring) : jsstring :=
  lit "Here's the story in a fun way:" ++ newline
  ++ keyLines content ++ newline
  ++ lit "That's what happened today!".

(** [return fallbacks[style] || fallbacks.default] *)
Definition generateFallbackRhyme (content style : jsstring) : jsval :=
  match get (fallbacks content) style with
  | Own t => VStr t
  | Inherited => VObject
  | Absent => VStr (default_fallback content)
  end.

(** countWords on [result.rhyme] *)
Definition countWords_val (text : jsval) : Completion nat :=
  match text with
  | VStr s => Normal (countWords s)
  | VFalsy => Normal 0
  | VObject => Throw (TypeError (lit "text.split is not a function"))
  end.

(** generateAudio of the background script: a placeholder whose own
    [try]/[catch] makes it return [null] whatever the text is. *)
Definition generateAudio (text : jsval) (style : jsstring) : option jsstring :=
  None.

(** The [try] block of handleRhymeGeneration. *)
Definition generate_try (data : Request) : M World Result :=
  if match content data with [] => true | c => length (trim c) <? 10 end
  then throw (Error (lit "Content is too short to transform"))
  else
    reply <- fetch data ;;
    match reply with
    | Rejected e => throw e
    | NotOk status error =>
        throw (Error (or_else error (lit "Server error: " ++ dec (Z.of_N status))))
    | Unreadable e => throw e
    | Unsuccessful error =>
        throw (Error (or_else error (lit "Failed to generate rhyme")))
    | Generated text =>
        words <- lift (countWords_val text) ;;
        now <- gets isoNow ;;
        ret {| rhyme := text;
               metadata := {| md_style := style data; md_length := length_ data;
                              md_tone := tone data; wordCount := words;
                              generatedAt := now; fallback := false |};
               audioUrl := generateAudio text (style data) |}
    end.

(** The [catch] block. *)
Definition generate_catch (data : Request) : M World Result :=
  now <- gets isoNow ;;
  ret {| rhyme := generateFallbackRhyme (content data) (style data);
         metadata := {| md_style := style data; md_length := length_ data;
                        md_tone := tone data; wordCount := 20;
                        generatedAt := now; fallback := true |};
         audioUrl := None |}.

Definition handleRhymeGeneration (data : Request) : M World Result :=
  try_catch (generate_try data) (fun error => generate_catch data).

(** *** Vocabulary of the properties, and scenarios *)

(** The result of the [catch] block. *)
Definition fallback_result (data : Request) (now : jsstring) : Result :=
  {| rhyme := generateFallbackRhyme (content data) (style data);
     metadata := {| md_style := style data; md_length := length_ data;
                    md_tone := tone data; wordCount := 20;
                    generatedAt := now; fallback := true |};
     audioUrl := None |}.


Definition fox_request : Request :=
  {| content := lit "The quick brown fox jumps over the lazy dog. It was a sunny day.";
     style := lit "pop"; length_ := lit "medium"; tone := lit "fun";
     title := lit "Fox"; customInstructions := [] |}.

(** The proxy is out of reach. *)
Definition world_offline : World :=
  {| proxy := fun _ => Rejected (TypeError (lit "Failed to fetch"));
     isoNow := lit "2024-01-01T00:00:00.000Z"; posts := [] |}.

(** The proxy answers with [success] set and no [rhyme]. *)
Definition world_no_rhyme : World :=
  {| proxy := fun _ => Generated VFalsy;
     isoNow := lit "2024-01-01T00:00:00.000Z"; posts := [] |}.

End Background.

(* ===================================================================== *)
(** ** audiogenerator.js: the service, the storage and the voices *)
(* ===================================================================== *)

Module AudioService.
Import Audio.

Local Open Scope js_scope.

Definition supportedServices : list jsstring :=
  map lit ["browser"; "elevenlabs"; "google"; "azure"]%string.

Definition with_service (svc : jsstring) (w : World) : World :=
  {| sync := sync w; remote := remote w; speechSynthesis := speechSynthesis w;
     recording := recording w; getGoogleVoiceConfig := getGoogleVoiceConfig w;
     getAzureVoiceConfig := getAzureVoiceConfig w;
     currentService := svc; audioCache := audioCache w;
     requests := requests w; recordings := recordings w; calls := calls w |}.

Definition with_sync (s : jsstring -> option jsstring) (w : World) : World :=
  {| sync := s; remote := remote w; speechSynthesis := speechSynthesis w;
     recording := recording w; getGoogleVoiceConfig := getGoogleVoiceConfig w;
     getAzureVoiceConfig := getAzureVoiceConfig w;
     currentService := currentService w; audioCache := audioCache w;
     requests := requests w; recordings := recordings w; calls := calls w |}.

(** [chrome.storage.sync.set({ key: value })]; [None] is [null]. *)
Definition storage_set (key : jsstring) (value : option jsstring)
    (s : jsstring -> option jsstring) : jsstring -> option jsstring :=
  fun k => if str_eqb k key then value else s k.

(** The constructor: the default service and an empty cache, in the window
    of [host]. *)
Definition new_AudioGenerator (host : World) : World :=
  with_cache [] (with_service (lit "browser") host).

(** [[
    if (this.supportedServices.includes(service)) {
      this.currentService = service
      this.chrome.storage.sync.set({ audioService: service })
    }
]] *)
Definition setService (service : jsstring) : M World unit :=
  if existsb (str_eqb service) supportedServices
  then modify (fun w =>
         with_sync (storage_set (lit "audioService") (Some service) (sync w))
           (with_service service w))
  else ret tt.

(** [[
    this.currentService = result.audioService || "browser"
    resolve(this.currentService)
]] *)
Definition getCurrentService : M World jsstring :=
  stored <- gets (fun w => sync w (lit "audioService")) ;;
  let service := or_else stored (lit "browser") in
  modify (with_service service) ;;
  ret service.

(** *** selectVoice *)

(** A SpeechSynthesisVoice, by the two attributes that are read. *)
Record Voice := { lang : jsstring; name : jsstring }.

Local Open Scope N_scope.

(** [String.prototype.toLowerCase], one code unit at a time: exact on
    ASCII; of the code units above 127 the two whose lower case has an ASCII
    letter in it are mapped (U+0130 and the Kelvin sign), the others are
    left as they are, which an ASCII needle of [includes] cannot tell from
    their lower case. *)
Definition toLowerCase_unit (c : N) : jsstring :=
  if (65 <=? c) && (c <=? 90) then [c + 32]
  else if c =? 304 then [105; 775]
  else if c =? 8490 then [107]
  else [c].

Local Close Scope N_scope.

Definition toLowerCase (s : jsstring) : jsstring := flat_map toLowerCase_unit s.

Definition stylePreferences : list (jsstring * list jsstring) :=
  [ (lit "rap",     map lit ["urban"; "young"; "energetic"]%string);
    (lit "pop",     map lit ["clear"; "pleasant"; "modern"]%string);
    (lit "nursery", map lit ["child"; "gentle"; "soft"]%string);
    (lit "ballad",  map lit ["emotional"; "deep"; "expressive"]%string);
    (lit "country", map lit ["warm"; "folksy"; "natural"]%string) ].

(** [voice.lang.startsWith("en-") && voice.name] *)
Definition english (voice : Voice) : bool :=
  startsWith (lit "en-") (lang voice) && nonempty (name voice).

(** [voice.name.toLowerCase().includes(preference)] *)
Definition named (preference : jsstring) (voice : Voice) : bool :=
  includes preference (toLowerCase (name voice)).

(** The [for] loop over the preferences: the first preference that some
    voice matches decides, and the first voice that matches it is taken. *)
Fixpoint preferred (preferences : list jsstring) (voices : list Voice)
  : option Voice :=
  match preferences with
  | [] => None
  | preference :: rest =>
      match find (named preference) voices with
      | Some matchingVoice => Some matchingVoice
      | None => preferred rest voices
      end
  end.

(** The filter of the gender fallback. *)
Definition gender_filter (preferredGender : jsstring) (voice : Voice) : bool :=
  if str_eqb preferredGender (lit "male")
  then named (lit "male") voice || named (lit "man") voice
  else named (lit "female") voice || named (lit "woman") voice.

(** selectVoice; [preferredGender] is [None] for [undefined], which the
    default ["female"] replaces. A style that finds a member of
    [Object.prototype] in the table makes the [for...of] loop throw. *)
Definition selectVoice (voices : list Voice) (style : jsstring)
    (preferredGender : option jsstring) : Completion (option Voice) :=
  let gender := match preferredGender with Some g => g | None => lit "female" end in
  let englishVoices := filter english voices in
  match englishVoices with
  | [] => Normal None
  | first :: _ =>
      match get stylePreferences style with
      | Inherited => Throw (TypeError (lit "preferences is not iterable"))
      | lookup =>
          let preferences := match lookup with Own p => p | _ => [] end in
          match preferred preferences englishVoices with
          | Some matchingVoice => Normal (Some matchingVoice)
          | None =>
              match filter (gender_filter gender) englishVoices with
              | genderVoice :: _ => Normal (Some genderVoice)
              | [] => Normal (Some first)
              end
          end
      end
  end.

End AudioService.

(* ===================================================================== *)
(** ** settings.js: what saveSettings writes to the storage *)
(* ===================================================================== *)

Module Settings.
Import AudioService.

(** The fields of collectFormData that saveSettings copies to keys of
    their own; a value is [None] when the field is missing from the page
    ([getFieldValue] returns [null]). *)
Record FormData := {
  geminiApiKey : option jsstring;
  elevenLabsApiKey : option jsstring;
  googleApiKey : option jsstring;
  azureApiKey : option jsstring;
  azureRegion : option jsstring;
  audioService : option jsstring
}.

(** The second [chrome.storage.sync.set] of saveSettings, on the string
    values of the storage; the first one stores the whole form under
    [rhymeTimeSettings], an object. *)
Definition saveSettings (formData : FormData)
    (storage : jsstring -> option jsstring) : jsstring -> option jsstring :=
  storage_set (lit "audioService") (audioService formData)
    (storage_set (lit "azureRegion") (azureRegion formData)
       (storage_set (lit "azureApiKey") (azureApiKey formData)
          (storage_set (lit "googleApiKey") (googleApiKey formData)
             (storage_set (lit "elevenLabsApiKey") (elevenLabsApiKey formData)
                (storage_set (lit "geminiApiKey") (geminiApiKey formData)
                   storage))))).

End Settings.

(* ===================================================================== *)
(** ** gemini.js: the key of GeminiAPI *)
(* ===================================================================== *)

Module GeminiKey.
Import Gemini.

Local Open Scope js_scope.

Definition set_storedKey (k : option jsstring) (w : World) : World :=
  {| storedKey := k; backend := backend w; clock := clock w;
     apiKey := apiKey w; fetches := fetches w; log := log w |}.

(** [[
    this.apiKey = apiKey
    this.chrome.storage.sync.set({ geminiApiKey: apiKey })
]] *)
Definition setApiKey (key : jsstring) : M World unit :=
  modify (fun w => set_storedKey (Some key) (set_apiKey (Some key) w)).

End GeminiKey.

(* ===================================================================== *)
(** ** server.js: the proxy server *)
(* ===================================================================== *)

Module Server.

Local Open Scope js_scope.

(** [req.body]: each field is a string, or [None] when the JSON text has
    no such field. *)
Record Body := {
  content : option jsstring;
  style : option jsstring;
  tone : option jsstring;
  length_ : option jsstring
}.

(** What the POST to the generative endpoint comes to. *)
Inductive GeminiReply : Type :=
| FetchFails (e : JsError)
    (** [fetch] rejects *)
| Status (status : N)
    (** [!response.ok] *)
| BodyFails (e : JsError)
    (** [response.json()] rejects, or [data] is [null] *)
| Text (generatedText : jsval)
    (** [data.candidates?.[0]?.content?.parts?.[0]?.text] *).

Record World := {
  GEMINI_API_KEY : option jsstring;
    (** [process.env.GEMINI_API_KEY], [None] for [undefined] *)
  gemini : jsstring -> jsstring -> GeminiReply;
    (** the reply of the endpoint, given the key and the prompt *)
  overLimit : bool;
    (** the limiter has counted ten requests of this client in the minute *)
  sent : list (jsstring * jsstring)
    (** the key and the prompt of the requests sent, oldest first *)
}.

(** [res.status(status).json({ error, details })] and
    [res.json({ success: true, rhyme, usage })]; [usage] is not read by
    the client. *)
Inductive Response : Type :=
| Failed (status : N) (error : jsstring) (details : option jsstring)
| Succeeded (rhyme : jsstring).

Definition stylePrompts : list (jsstring * jsstring) :=
  [ (lit "playful", lit "Create a playful, bouncy rhyme");
    (lit "educational",
     lit "Create an educational rhyme that helps remember key information");
    (lit "humorous", lit "Create a funny, witty rhyme");
    (lit "dramatic", lit "Create a dramatic, theatrical rhyme");
    (lit "nursery", lit "Create a simple nursery rhyme style");
    (lit "rap", lit "Create a rap-style rhyme with good flow");
    (lit "pop", lit "Create a pop song style rhyme with catchy hooks") ].

Definition lengthGuides : list (jsstring * jsstring) :=
  [ (lit "short", lit "Keep it to 4-8 lines");
    (lit "medium", lit "Make it 8-16 lines");
    (lit "long", lit "Create 16-24 lines") ].

(** [`${table[key] || fallback}`]: every own entry is a non-empty string,
    an inherited member is truthy and is printed. *)
Definition entry_or (table : list (jsstring * jsstring)) (key fallback : jsstring)
  : jsstring :=
  match get table key with
  | Own text => text
  | Inherited => inherited_text key
  | Absent => fallback
  end.

(** A default parameter replaces [undefined]. *)
Definition or_default (v : option jsstring) (d : jsstring) : jsstring :=
  match v with Some x => x | None => d end.

Definition createRhymePrompt (content : jsstring) (style0 tone0 length0 : option jsstring)
  : jsstring :=
  let style := or_default style0 (lit "playful") in
  let tone := or_default tone0 (lit "fun") in
  let length := or_default length0 (lit "short") in
  entry_or stylePrompts style (lit "Create a playful, bouncy rhyme")
    ++ lit " based on this content. "
    ++ entry_or lengthGuides length (lit "Keep it to 4-8 lines")
    ++ lit ". Make it " ++ tone
    ++ lit " in tone and easy to remember. Focus on the main points and make it flow well."
    ++ newline
  ++ newline
  ++ lit "Content to transform:" ++ newline
  ++ content ++ newline
  ++ newline
  ++ lit "Requirements:" ++ newline
  ++ lit "- Make it rhyme well and flow naturally" ++ newline
  ++ lit "- Capture the key information from the content" ++ newline
  ++ lit "- Keep the " ++ tone ++ lit " tone throughout" ++ newline
  ++ lit "- Make it memorable and engaging".

Definition fetch (key prompt : jsstring) : M World GeminiReply :=
  reply <- gets (fun w => gemini w key prompt) ;;
  modify (fun w => {| GEMINI_API_KEY := GEMINI_API_KEY w; gemini := gemini w;
                      overLimit := overLimit w;
                      sent := sent w ++ [(key, prompt)] |}) ;;
  ret reply.

(** The [try] block of the route. *)
Definition generate_try (body : Body) : M World Response :=
  match truthy (content body) with
  | None => ret (Failed 400 (lit "Content is required") None)
  | Some content =>
      apiKey <- gets GEMINI_API_KEY ;;
      match truthy apiKey with
      | None => ret (Failed 500 (lit "API key not configured") None)
      | Some key =>
          let prompt :=
            createRhymePrompt content (style body) (tone body) (length_ body) in
          reply <- fetch key prompt ;;
          match reply with
          | FetchFails e => throw e
          | Status status =>
              throw (Error (lit "Gemini API error: " ++ dec (Z.of_N status)))
          | BodyFails e => throw e
          | Text (VStr (c :: generatedText)) =>
              ret (Succeeded (trim (c :: generatedText)))
          | Text (VStr []) | Text VFalsy =>
              throw (Error (lit "No content generated"))
          | Text VObject =>
              throw (TypeError (lit "generatedText.trim is not a function"))
          end
      end
  end.

(** [app.post("/api/generate-rhyme", ...)] *)
Definition generate_rhyme (body : Body) : M World Response :=
  try_catch (generate_try body)
    (fun error =>
       ret (Failed 500 (lit "Failed to generate rhyme") (Some (message error)))).

(** The route behind [app.use("/api/", limiter)]: over the limit the
    limiter answers 429 with its [message] and the route is not run. *)
Definition api (body : Body) : M World Response :=
  limited <- gets overLimit ;;
  if limited
  then ret (Failed 429 (lit "Too many requests, please try again later.") None)
  else generate_rhyme body.

(** *** The route on a request

    [req.body] is what [express.json()] leaves: the object read from a
    JSON text, or [undefined] for a request without such a text under a
    version of Express that does not set [req.body] then (another sets the
    empty object, which is a [Body] without fields). A field that is not a
    string acts as the string it prints as, and a content that is falsy as
    a missing one. A request refused by [express.json()] itself does not
    reach the limiter or the route. *)




(** *** The client of the background script in front of this server *)

(** [JSON.stringify({ content, style, tone, length, title,
    customInstructions })], read by [express.json()]. *)
Definition body_of (data : Background.Request) : Body :=
  {| content := Some (Background.content data);
     style := Some (Background.style data);
     tone := Some (Background.tone data);
     length_ := Some (Background.length_ data) |}.

(** [response.ok] *)
Definition ok (status : N) : bool := ((200 <=? status) && (status <=? 299))%N.

(** The response as handleRhymeGeneration reads it. *)
Definition deliver (response : Response) : Background.ProxyReply :=
  match response with
  | Failed status error _ =>
      if ok status then Background.Unsuccessful (truthy (Some error))
      else Background.NotOk status (truthy (Some error))
  | Succeeded rhyme => Background.Generated (VStr rhyme)
  end.

(** The proxy of the background script when it is this server, in the
    state [server], and the network delivers. *)
Definition proxy_via (server : World) (data : Background.Request)
  : Background.ProxyReply :=
  match fst (api (body_of data) server) with
  | Normal response => deliver response
  | Throw e => Background.Rejected e
  end.

Definition served (server : World) (now : jsstring) : Background.World :=
  {| Background.proxy := proxy_via server; Background.isoNow := now;
     Background.posts := [] |}.

End Server.

(* ===================================================================== *)
(** ** popup.js: the history list and the word count on the page *)
(* ===================================================================== *)

Module PopupView.
Import Popup.

(** loadHistory: [this.history = result.rhymeHistory || []] *)
Definition loadHistory (p : Popup) : Popup :=
  {| currentContent := currentContent p; form := form p;
     settings_maxHistory := settings_maxHistory p;
     history := stored p; stored := stored p;
     dateNow := dateNow p; isoNow := isoNow p |}.

(** updateHistoryDisplay: [this.history.slice(0, 5)], and for each item
    [`${item.rhyme.substring(0, 60)}...`]. *)
Definition recentHistory (p : Popup) : list HistoryItem := slice0 5 (history p).

Definition preview (item : HistoryItem) : jsstring :=
  substring0 60 (rhyme item) ++ lit "...".

(** displayRhyme: [rhymeData.rhyme.split(/\s+/).length] *)
Definition displayedWordCount (rhymeText : jsstring) : nat :=
  length (split_re is_ws rhymeText).

End PopupView.

(* ===================================================================== *)
(** ** popup.js: handleTransform, and the listeners that answer it *)
(* ===================================================================== *)

Module Pipeline.

Local Open Scope js_scope.

(** *** Messages *)

(** [{ success: true, data }] or [{ success: false, error }] *)
Inductive Response (A : Type) : Type :=
| Succeeded (data : A)
| Failed (error : option jsstring).
Arguments Succeeded {A} data.
Arguments Failed {A} error.

(** What the callback of [chrome.runtime.sendMessage] finds: an error in
    [chrome.runtime.lastError], a response that is [undefined], or the
    response of the listener. *)
Inductive Delivery (A : Type) : Type :=
| LastError (message : jsstring)
| Undelivered
| Delivered (response : Response A).
Arguments LastError {A} message.
Arguments Undelivered {A}.
Arguments Delivered {A} response.

(** The listener of the content script:
[[
    try {
      const extractedData = contentExtractor.extractContent()
      sendResponse({ success: true, data: extractedData })
    } catch (error) {
      sendResponse({ success: false, error: error.message })
    }
]] *)
Definition content_onMessage (doc : Content.Document)
  : Response Content.ExtractedContent :=
  match Content.extractContent doc with
  | Normal extractedData => Succeeded extractedData
  | Throw error => Failed (Some (message error))
  end.

(** The listener of the background script on [extractContent]: the
    request is forwarded to the active tab and its response is passed on;
    [tab] is [None] when there is no active tab, [Some None] when the tab
    does not answer. *)
Definition background_onExtract (tab : option (option Content.Document))
  : Delivery Content.ExtractedContent :=
  match tab with
  | Some (Some doc) => Delivered (content_onMessage doc)
  | Some None => Undelivered
  | None => Delivered (Failed (Some (lit "No active tab found")))
  end.

(** The listener of the background script on [generateRhyme]:
[[
    handleRhymeGeneration(request.data)
      .then((result) => sendResponse({ success: true, data: result }))
      .catch((error) => sendResponse({ success: false, error: error.message }))
]]
    The popup below reads [data.rhyme] as a string; a result whose rhyme
    is not a string has no response here. *)
Definition background_onGenerate (w : Background.World) (data : Background.Request)
  : option (Delivery jsstring) :=
  match fst (Background.handleRhymeGeneration data w) with
  | Normal result =>
      match Background.rhyme result with
      | VStr text => Some (Delivered (Succeeded text))
      | _ => None
      end
  | Throw error => Some (Delivered (Failed (Some (message error))))
  end.

(** *** The popup *)

Record Flow := {
  popup : Popup.Popup;
    (** the history, the form and the clock *)
  content : option Content.ExtractedContent;
    (** [this.currentContent]; the record [popup] holds its title and
        address *)
  isProcessing : bool;
  saveHistory : bool;
    (** [this.settings.saveHistory], as a condition *)
  statuses : list jsstring;
    (** the messages given to updateStatus, oldest first *)
  rhymeText : option jsstring;
    (** the rhyme that displayRhyme was last given for the element
        [rhyme-text] *)
  audioControls : bool
    (** showAudioControls(true) was called *)
}.

(** What one run of handleTransform meets outside the popup. *)
Record Host := {
  extraction : Delivery Content.ExtractedContent;
    (** the answer to [{ action: "extractContent" }] *)
  generation : Background.Request -> Delivery jsstring;
    (** the answer to [{ action: "generateRhyme", data }], by the rhyme
        of its data *)
  generationTime : Z;
    (** [Date.now() - startTime] *)
  audio : Completion bool
    (** the [try] block of generateAudio up to its last statement: whether
        it reaches [showAudioControls(true)] (a generator class, a result
        and a player are there), or the exception it throws *)
}.

Definition with_popup (p : Popup.Popup) (f : Flow) : Flow :=
  {| popup := p; content := content f; isProcessing := isProcessing f;
     saveHistory := saveHistory f; statuses := statuses f;
     rhymeText := rhymeText f; audioControls := audioControls f |}.

Definition set_isProcessing (b : bool) (f : Flow) : Flow :=
  {| popup := popup f; content := content f; isProcessing := b;
     saveHistory := saveHistory f; statuses := statuses f;
     rhymeText := rhymeText f; audioControls := audioControls f |}.

(** [this.currentContent = contentData.data] *)
Definition set_currentContent (data : Content.ExtractedContent) (f : Flow) : Flow :=
  let p := popup f in
  {| popup := {| Popup.currentContent :=
                   Some {| Popup.c_title := Content.title data;
                           Popup.c_url := Content.url data |};
                 Popup.form := Popup.form p;
                 Popup.settings_maxHistory := Popup.settings_maxHistory p;
                 Popup.history := Popup.history p; Popup.stored := Popup.stored p;
                 Popup.dateNow := Popup.dateNow p; Popup.isoNow := Popup.isoNow p |};
     content := Some data; isProcessing := isProcessing f;
     saveHistory := saveHistory f; statuses := statuses f;
     rhymeText := rhymeText f; audioControls := audioControls f |}.

Definition updateStatus (message : jsstring) : M Flow unit :=
  modify (fun f =>
    {| popup := popup f; content := content f; isProcessing := isProcessing f;
       saveHistory := saveHistory f; statuses := statuses f ++ [message];
       rhymeText := rhymeText f; audioControls := audioControls f |}).

(** showError: the message in a red [span], after the cross mark
    U+274C. *)
Definition showError (message : jsstring) : M Flow unit :=
  updateStatus (lit "<span style=" ++ Content.quote ++ lit "color: #ff4444;"
                ++ Content.quote ++ lit ">" ++ [10060%N] ++ lit " " ++ message
                ++ lit "</span>").

(** displayRhyme, by the rhyme it is given; the word count and the time
    shown beside it are not part of the state. *)
Definition displayRhyme (rhyme : jsstring) : M Flow unit :=
  modify (fun f =>
    {| popup := popup f; content := content f; isProcessing := isProcessing f;
       saveHistory := saveHistory f; statuses := statuses f;
       rhymeText := Some rhyme; audioControls := audioControls f |}).

(** generateAudio of the popup: whatever its [try] block does, the
    [catch] block swallows the exception. *)
Definition generateAudio (h : Host) : M Flow unit :=
  try_catch
    (loaded <- lift (audio h) ;;
     if (loaded : bool)
     then modify (fun f =>
            {| popup := popup f; content := content f;
               isProcessing := isProcessing f; saveHistory := saveHistory f;
               statuses := statuses f; rhymeText := rhymeText f;
               audioControls := true |})
     else ret tt)
    (fun error => ret tt).

(** The value that handleTransform takes from a message:
[[
      if (!contentData.success) {
        throw new Error(contentData.error || "Failed to extract content")
      }
]] *)
Definition received {A} (otherwise : jsstring) (d : Delivery A) : Completion A :=
  match d with
  | LastError message => Throw (Error (or_else (Some message) otherwise))
  | Undelivered =>
      Throw (TypeError (lit "Cannot read properties of undefined (reading 'success')"))
  | Delivered (Succeeded data) => Normal data
  | Delivered (Failed error) => Throw (Error (or_else error otherwise))
  end.

(** The data of generateRhyme. *)
Definition requestData (data : Content.ExtractedContent) (settings : Popup.Settings)
  : Background.Request :=
  {| Background.content := Content.content data;
     Background.title := Content.title data;
     Background.style := Popup.style settings;
     Background.length_ := Popup.length_ settings;
     Background.tone := Popup.tone settings;
     Background.customInstructions := Popup.customInstructions settings |}.

(** The [try] block of handleTransform. *)
Definition transform_try (h : Host) : M Flow unit :=
  modify (set_isProcessing true) ;;
  updateStatus (lit "Extracting content from page...") ;;
  contentData <- lift (received (lit "Failed to extract content") (extraction h)) ;;
  modify (set_currentContent contentData) ;;
  updateStatus (lit "Generating your rhyme...") ;;
  settings <- gets (fun f => Popup.form (popup f)) ;;
  rhyme <- lift (received (lit "Failed to generate rhyme")
                   (generation h (requestData contentData settings))) ;;
  displayRhyme rhyme ;;
  updateStatus (lit "Creating audio...") ;;
  generateAudio h ;;
  save <- gets saveHistory ;;
  (if (save : bool)
   then modify (fun f =>
          with_popup (Popup.saveToHistory rhyme (generationTime h) (popup f)) f)
   else ret tt) ;;
  updateStatus (lit "Ready! Your rhyme is complete.").

(** handleTransform: nothing when a run is in progress; else the [try]
    block, the [catch] block on an exception, and the [finally] block. *)
Definition handleTransform (h : Host) : M Flow unit :=
  fun f =>
    if isProcessing f then (Normal tt, f)
    else
      let (completion, f1) :=
        try_catch (transform_try h)
          (fun error =>
             showError (message error) ;;
             updateStatus (lit "Transform failed. Please try again.")) f in
      (completion, set_isProcessing false f1).

(** loadSettings: [this.settings = result.rhymeTimeSettings || {}], by
    the two settings that are read; [stored] is [None] when the settings
    page has not saved yet. *)
Definition loadSettings (stored : option (bool * option Z)) (f : Flow) : Flow :=
  let p := popup f in
  let (save, maxHistory) :=
    match stored with
    | Some (save, maxHistory) => (save, maxHistory)
    | None => (false, None)
    end in
  {| popup := {| Popup.currentContent := Popup.currentContent p;
                 Popup.form := Popup.form p;
                 Popup.settings_maxHistory := maxHistory;
                 Popup.history := Popup.history p; Popup.stored := Popup.stored p;
                 Popup.dateNow := Popup.dateNow p; Popup.isoNow := Popup.isoNow p |};
     content := content f; isProcessing := isProcessing f;
     saveHistory := save; statuses := statuses f;
     rhymeText := rhymeText f; audioControls := audioControls f |}.

(** *** Vocabulary of the properties, and scenarios *)

(** The last message given to updateStatus. *)
Definition status (f : Flow) : jsstring := last (statuses f) [].

(** The state in which the [try] block throws [error] at the first or at
    the second message, and the one in which it ends. *)
Definition failed_extraction (error : JsError) (f : Flow) : Flow :=
  {| popup := popup f; content := content f; isProcessing := false;
     saveHistory := saveHistory f;
     statuses := statuses f
                 ++ [lit "Extracting content from page..."]
                 ++ [lit "<span style=" ++ Content.quote ++ lit "color: #ff4444;"
                     ++ Content.quote ++ lit ">" ++ [10060%N] ++ lit " "
                     ++ message error ++ lit "</span>"]
                 ++ [lit "Transform failed. Please try again."];
     rhymeText := rhymeText f; audioControls := audioControls f |}.

Definition failed_generation (data : Content.ExtractedContent) (error : JsError)
    (f : Flow) : Flow :=
  {| popup := popup (set_currentContent data f); content := Some data;
     isProcessing := false; saveHistory := saveHistory f;
     statuses := statuses f
                 ++ [lit "Extracting content from page..."]
                 ++ [lit "Generating your rhyme..."]
                 ++ [lit "<span style=" ++ Content.quote ++ lit "color: #ff4444;"
                     ++ Content.quote ++ lit ">" ++ [10060%N] ++ lit " "
                     ++ message error ++ lit "</span>"]
                 ++ [lit "Transform failed. Please try again."];
     rhymeText := rhymeText f; audioControls := audioControls f |}.

Definition completed (data : Content.ExtractedContent) (rhyme : jsstring)
    (h : Host) (f : Flow) : Flow :=
  {| popup := if saveHistory f
              then Popup.saveToHistory rhyme (generationTime h)
                     (popup (set_currentContent data f))
              else popup (set_currentContent data f);
     content := Some data; isProcessing := false; saveHistory := saveHistory f;
     statuses := statuses f
                 ++ [lit "Extracting content from page..."]
                 ++ [lit "Generating your rhyme..."]
                 ++ [lit "Creating audio..."]
                 ++ [lit "Ready! Your rhyme is complete."];
     rhymeText := Some rhyme;
     audioControls := match audio h with
                      | Normal true => true
                      | _ => audioControls f
                      end |}.

(** The popup is in front of a tab whose content script sees [doc], and
    of a background script in the state [w]. *)
Definition wired (doc : Content.Document) (w : Background.World) (h : Host) : Prop :=
  extraction h = background_onExtract (Some (Some doc))
  /\ forall data d, background_onGenerate w data = Some d -> generation h data = d.

End Pipeline.

(* ===================================================================== *)
(** ** gemini.js: class AudioPlayer *)
(* ===================================================================== *)

Module Player.

Local Open Scope js_scope.

(** The element made by [new Audio(audioUrl)], by what the player writes
    to it: volume and rate in hundredths, as in [Audio.VoiceConfig], and
    whether the last of [play()] and [pause()] was a pause. The position in
    the track, which [stop] resets and [seek] sets, is left out. *)
Record AudioElement := {
  src : Audio.Blob;
  el_volume : N;
  el_playbackRate : N;
  el_paused : bool
}.

(** [this.currentAudio]: an utterance or an audio element. *)
Inductive Media : Type :=
| Speech (utterance : Audio.Utterance)
| Sound (element : AudioElement).

(** The calls of [window.speechSynthesis]. *)
Inductive SpeechCall : Type :=
| Speak (utterance : Audio.Utterance)
| PauseSpeech
| Cancel.

(** [this.currentTrack.metadata], by the fields that updateTrackInfo
    prints. *)
Record TrackMetadata := {
  tm_title : jsstring;
  tm_style : jsstring;
  tm_service : jsstring
}.

(** The [metadata] argument of loadTrack: a field is [None] when the
    object has no such key. *)
Record TrackOptions := {
  title : option jsstring;
  style : option jsstring
}.

Record State := {
  container : bool;
    (** [this.container] is an element *)
  currentAudio : option Media;
  isPlaying : bool;
  currentTrack : option TrackMetadata;
  volume : N;
  playbackRate : N;
    (** in hundredths *)
  speech : list SpeechCall;
    (** the calls of speechSynthesis, oldest first *)
  shown : list jsstring
    (** the messages of showError, oldest first *)
}.

(** The constructor. *)
Definition new_AudioPlayer (hasContainer : bool) : State :=
  {| container := hasContainer; currentAudio := None; isPlaying := false;
     currentTrack := None; volume := 80; playbackRate := 100;
     speech := []; shown := [] |}.

Definition with_audio (a : option Media) (playing : bool) (st : State) : State :=
  {| container := container st; currentAudio := a; isPlaying := playing;
     currentTrack := currentTrack st; volume := volume st;
     playbackRate := playbackRate st; speech := speech st; shown := shown st |}.

Definition with_speech (c : SpeechCall) (playing : bool) (st : State) : State :=
  {| container := container st; currentAudio := currentAudio st;
     isPlaying := playing; currentTrack := currentTrack st; volume := volume st;
     playbackRate := playbackRate st; speech := speech st ++ [c];
     shown := shown st |}.

Definition with_track (t : TrackMetadata) (st : State) : State :=
  {| container := container st; currentAudio := currentAudio st;
     isPlaying := isPlaying st; currentTrack := Some t; volume := volume st;
     playbackRate := playbackRate st; speech := speech st; shown := shown st |}.

Definition with_levels (v r : N) (st : State) : State :=
  {| container := container st; currentAudio := currentAudio st;
     isPlaying := isPlaying st; currentTrack := currentTrack st; volume := v;
     playbackRate := r; speech := speech st; shown := shown st |}.

Definition set_paused (b : bool) (e : AudioElement) : AudioElement :=
  {| src := src e; el_volume := el_volume e; el_playbackRate := el_playbackRate e;
     el_paused := b |}.

(** The volume and the rate of what is loaded are set. *)
Definition set_levels (v r : N) (m : Media) : Media :=
  match m with
  | Speech u =>
      Speech {| Audio.u_text := Audio.u_text u;
                Audio.u_config :=
                  {| Audio.rate := r;
                     Audio.pitch := Audio.pitch (Audio.u_config u);
                     Audio.volume := v |} |}
  | Sound e =>
      Sound {| src := src e; el_volume := v; el_playbackRate := r;
               el_paused := el_paused e |}
  end.

(** showError appends to [this.container]. *)
Definition showError (message : jsstring) : M State unit :=
  has <- gets container ;;
  if (has : bool)
  then modify (fun st =>
         {| container := container st; currentAudio := currentAudio st;
            isPlaying := isPlaying st; currentTrack := currentTrack st;
            volume := volume st; playbackRate := playbackRate st;
            speech := speech st; shown := shown st ++ [message] |})
  else throw (TypeError (lit "Cannot read properties of null (reading 'appendChild')")).

(** stop *)
Definition stop : M State unit :=
  audio <- gets currentAudio ;;
  match audio with
  | None => ret tt
  | Some (Speech _) => modify (with_speech Cancel false)
  | Some (Sound e) => modify (with_audio (Some (Sound (set_paused true e))) false)
  end.

(** pause *)
Definition pause : M State unit :=
  audio <- gets currentAudio ;;
  match audio with
  | None => ret tt
  | Some (Speech _) => modify (with_speech PauseSpeech false)
  | Some (Sound e) => modify (with_audio (Some (Sound (set_paused true e))) false)
  end.

(** play; [resolves] tells whether [this.currentAudio.play()] of an audio
    element resolves. *)
Definition play (resolves : bool) : M State unit :=
  audio <- gets currentAudio ;;
  match audio with
  | None => ret tt
  | Some (Speech u) => modify (with_speech (Speak u) true)
  | Some (Sound e) =>
      if resolves
      then modify (with_audio (Some (Sound (set_paused false e))) true)
      else showError (lit "Playback failed")
  end.

(** togglePlayPause *)
Definition togglePlayPause (resolves : bool) : M State unit :=
  audio <- gets currentAudio ;;
  match audio with
  | None => ret tt
  | Some _ =>
      playing <- gets isPlaying ;;
      if (playing : bool) then pause else play resolves
  end.

(** [Math.max(lo, Math.min(hi, x))] on hundredths *)
Definition clamp (lo hi : Z) (x : Z) : N := Z.to_N (Z.max lo (Z.min hi x)).

(** setVolume and setPlaybackRate *)
Definition setVolume (v : Z) : M State unit :=
  modify (fun st =>
    let v' := clamp 0 100 v in
    with_audio (option_map (set_levels v' (playbackRate st)) (currentAudio st))
      (isPlaying st) (with_levels v' (playbackRate st) st)).

Definition setPlaybackRate (r : Z) : M State unit :=
  modify (fun st =>
    let r' := clamp 25 400 r in
    with_audio (option_map (set_levels (volume st) r') (currentAudio st))
      (isPlaying st) (with_levels (volume st) r' st)).

(** The [onstart] of the current utterance, and onTrackEnded. *)
Definition onstart : M State unit :=
  audio <- gets currentAudio ;;
  match audio with
  | Some (Speech _) => modify (fun st => with_audio (currentAudio st) true st)
  | _ => ret tt
  end.

Definition onTrackEnded : M State unit :=
  modify (fun st => with_audio (currentAudio st) false st).

(** The [onerror] of the current utterance and the [error] listener of
    the current element. *)
Definition onerror : M State unit :=
  audio <- gets currentAudio ;;
  match audio with
  | Some (Speech _) => showError (lit "Speech synthesis failed")
  | Some (Sound _) => showError (lit "Audio playback failed")
  | None => ret tt
  end.

(** [this.currentTrack.metadata] in loadTrack: the keys of [metadata]
    replace the defaults, whatever their values. *)
Definition track_of (service : jsstring) (metadata : TrackOptions) : TrackMetadata :=
  {| tm_title := match title metadata with
                 | Some t => t
                 | None => lit "Generated Rhyme"
                 end;
     tm_style := match style metadata with
                 | Some s => s
                 | None => lit "Unknown"
                 end;
     tm_service := or_else (Some service) (lit "browser") |}.

(** loadTrack. [audio] is [None] for a result without utterance and
    without address. The utterance is the object of the result: the player
    writes its volume and its rate into it. *)
Definition loadTrack (audio : option Audio.Playable) (service : jsstring)
    (metadata : TrackOptions) : M State bool :=
  try_catch
    (stop ;;
     modify (with_track (track_of service metadata)) ;;
     match audio with
     | Some (Audio.Direct utterance) =>
         modify (fun st =>
           with_audio
             (Some (set_levels (volume st) (playbackRate st) (Speech utterance)))
             (isPlaying st) st)
     | Some (Audio.AudioUrl audioBlob) =>
         modify (fun st =>
           with_audio
             (Some (Sound {| src := audioBlob; el_volume := volume st;
                             el_playbackRate := playbackRate st;
                             el_paused := true |}))
             (isPlaying st) st)
     | None => throw (Error (lit "No playable audio data provided"))
     end ;;
     ret true)
    (fun error => showError (lit "Failed to load audio track") ;; ret false).

(** destroy *)
Definition destroy : M State unit := stop.

(** loadTrack on a result of the generator; the metadata of the popup has
    the keys [title] and [style]. *)
Definition loadResult (audioResult : Audio.AudioResult) (title style : jsstring)
  : M State bool :=
  loadTrack (Some (Audio.audio audioResult)) (Audio.service audioResult)
    {| title := Some title; style := Some style |}.

(** popup.js, generateAudio, with [window.AudioGenerator] defined: a new
    generator in [host], its generateAudio and, for a player, loadTrack.
    [style] and [voiceGender] are the values of getCurrentSettings, which
    are strings; [currentContent] is the title of [this.currentContent],
    [None] when that is [null]. The result tells whether
    showAudioControls was reached: what is thrown on the way is caught and
    logged. *)
Definition generateAudio (rhyme style voiceGender : jsstring)
    (currentContent : option jsstring) (host : Audio.World)
    (audioPlayer : option State) : bool * Audio.World * option State :=
  let generated :=
    Audio.generateAudio rhyme (Some style) (Some voiceGender)
      (AudioService.new_AudioGenerator host) in
  match fst generated with
  | Throw _ => (false, snd generated, audioPlayer)
  | Normal audioResult =>
      match Audio.success audioResult, audioPlayer with
      | true, Some st =>
          match currentContent with
          | None => (false, snd generated, audioPlayer)
          | Some title =>
              let loaded :=
                loadResult audioResult
                  (or_else (Some title) (lit "Generated Rhyme")) style st in
              match fst loaded with
              | Normal _ => (true, snd generated, Some (snd loaded))
              | Throw _ => (false, snd generated, Some (snd loaded))
              end
          end
      | _, _ => (false, snd generated, audioPlayer)
      end
  end.

(** *** Vocabulary of the properties *)

(** The calls that reach a player. The arguments of setVolume and of
    setPlaybackRate are finite numbers in hundredths, as the slider and the
    select of bindEvents give them. *)
Inductive Call : Type :=
| CallLoadTrack (audio : option Audio.Playable) (service : jsstring)
    (metadata : TrackOptions)
| CallPlay (resolves : bool)
| CallPause
| CallStop
| CallToggle (resolves : bool)
| CallSetVolume (v : Z)
| CallSetPlaybackRate (r : Z)
| EventStart
| EventEnded
| EventError
| CallDestroy.

Definition run (c : Call) (st : State) : State :=
  match c with
  | CallLoadTrack audio service metadata => snd (loadTrack audio service metadata st)
  | CallPlay resolves => snd (play resolves st)
  | CallPause => snd (pause st)
  | CallStop => snd (stop st)
  | CallToggle resolves => snd (togglePlayPause resolves st)
  | CallSetVolume v => snd (setVolume v st)
  | CallSetPlaybackRate r => snd (setPlaybackRate r st)
  | EventStart => snd (onstart st)
  | EventEnded => snd (onTrackEnded st)
  | EventError => snd (onerror st)
  | CallDestroy => snd (destroy st)
  end.

Definition runs (calls : list Call) (st : State) : State :=
  fold_left (fun st c => run c st) calls st.

(** What the player keeps. *)
Definition levels_of (m : Media) : N * N :=
  match m with
  | Speech u => (Audio.volume (Audio.u_config u), Audio.rate (Audio.u_config u))
  | Sound e => (el_volume e, el_playbackRate e)
  end.

Definition consistent (st : State) : Prop :=
  (volume st <= 100)%N
  /\ (25 <= playbackRate st <= 400)%N
  /\ match currentAudio st with
     | Some m => levels_of m = (volume st, playbackRate st)
     | None => isPlaying st = false /\ speech st = []
     end.

End Player.

(* ===================================================================== *)
(** ** Notions used by the properties *)
(* ===================================================================== *)

Module Notions.

(** A matcher that never replaces a match by a longer text, and matches
    inside its argument. *)
Definition shrinking (m : matcher) : Prop :=
  forall s rep n, m s = Some (rep, n) -> 1 <= n <= length s /\ length rep <= n.

(** A text of white space only. *)
Definition blank (s : jsstring) : Prop := Forall (fun c => is_ws c = true) s.

(** One turn of the loop of [Content.densest]. *)
Definition densest_step (best : option Content.Element * nat)
    (entry : Content.Element * nat) : option Content.Element * nat :=
  let '(element, density) := entry in
  if snd best <? density then (Some element, density) else best.

(** The requests and the delays of callGeminiAPI when it is called with
    [attempt] and its first [j] requests fail. *)
Fixpoint retry_trace (key prompt : jsstring) (attempt j : nat) : list Gemini.Event :=
  match j with
  | O => [Gemini.EvFetch key prompt]
  | S j' =>
      Gemini.EvFetch key prompt :: Gemini.EvDelay (Gemini.retryDelay * attempt)
        :: retry_trace key prompt (attempt + 1) j'
  end.

End Notions.
Import Notions.

(* ===================================================================== *)
(** ** Scenarios *)
(* ===================================================================== *)

Module Scenarios.

(** A page without landmarks: two paragraphs of 150 letters in one
    container below the body. *)
Definition dense_page : Content.Document :=
  {| Content.querySelector := fun _ => None;
     Content.querySelectorAll :=
       fun sel => if str_eqb sel Content.sel_textContent then [2; 3] else [];
     Content.matches := fun _ _ => Normal false;
     Content.textContent := fun _ => repeat 97%N 150;
     Content.textWithout := fun _ _ => repeat 97%N 300;
     Content.ancestors := fun e => if (e =? 2) || (e =? 3) then [1; 0] else [];
     Content.body := Some 0;
     Content.scoreAbove50 := fun _ => false;
     Content.scoreBelow := fun _ _ => false;
     Content.documentTitle := lit "Letters";
     Content.locationHref := lit "https://example.org/letters";
     Content.isoNow := lit "2024-01-01T00:00:00.000Z" |}.

(** Three voices of a browser. *)
Definition thomas : AudioService.Voice :=
  {| AudioService.lang := lit "fr-FR"; AudioService.name := lit "Thomas" |}.
Definition english_female : AudioService.Voice :=
  {| AudioService.lang := lit "en-GB";
     AudioService.name := lit "Google UK English Female" |}.
Definition english_male : AudioService.Voice :=
  {| AudioService.lang := lit "en-GB";
     AudioService.name := lit "Google UK English Male" |}.

(** The settings page saved a key for every service and selected
    ElevenLabs; the storage was empty before. *)
Definition all_keys : Settings.FormData :=
  {| Settings.geminiApiKey := Some (lit "AIzaSy-0123456789-abcdefghij");
     Settings.elevenLabsApiKey := Some (lit "el-key");
     Settings.googleApiKey := Some (lit "g-key");
     Settings.azureApiKey := Some (lit "az-key");
     Settings.azureRegion := Some (lit "westeurope");
     Settings.audioService := Some (lit "elevenlabs") |}.

Definition world_configured : Audio.World :=
  AudioService.with_sync (Settings.saveSettings all_keys Audio.no_storage)
    (Audio.world_of "elevenlabs" true).

(** A server with a key, in front of an endpoint that answers. *)
Definition server_up : Server.World :=
  {| Server.GEMINI_API_KEY := Some (lit "AIzaSy-0123456789-abcdefghij");
     Server.gemini := fun _ _ => Server.Text (VStr (lit "  Roses are red  "));
     Server.overLimit := false;
     Server.sent := [] |}.

(** The same server in front of an endpoint that answers with white
    space. *)
Definition server_blank : Server.World :=
  {| Server.GEMINI_API_KEY := Some (lit "AIzaSy-0123456789-abcdefghij");
     Server.gemini := fun _ _ => Server.Text (VStr (lit "   "));
     Server.overLimit := false;
     Server.sent := [] |}.

(** The same server in front of an endpoint that is down. *)
Definition server_down : Server.World :=
  {| Server.GEMINI_API_KEY := Some (lit "AIzaSy-0123456789-abcdefghij");
     Server.gemini := fun _ _ => Server.Status 503;
     Server.overLimit := false;
     Server.sent := [] |}.

Definition now : jsstring := lit "2024-01-01T00:00:00.000Z".

(** A world of GeminiAPI whose service answers with white space. *)
Definition world_blank : Gemini.World :=
  Gemini.world_with (Some (lit "AIzaSy-0123456789-abcdefghij"))
    (fun _ => Gemini.ReplyText (VStr (lit "   "))).

(** A popup whose settings hold a negative limit. *)
Definition popup_negative : Popup.Popup :=
  {| Popup.currentContent := None; Popup.form := Popup.form Popup.popup0;
     Popup.settings_maxHistory := Some (-5)%Z;
     Popup.history := []; Popup.stored := [];
     Popup.dateNow := 0%Z; Popup.isoNow := lit "2024-01-01T00:00:00.000Z" |}.

(** A popup that has just been opened, the settings page having saved
    its defaults. *)
Definition flow0 : Pipeline.Flow :=
  {| Pipeline.popup := Popup.popup0; Pipeline.content := None;
     Pipeline.isProcessing := false; Pipeline.saveHistory := true;
     Pipeline.statuses := []; Pipeline.rhymeText := None;
     Pipeline.audioControls := false |}.

(** The popup in front of the article page and of a background script
    served by [server]; the window has no speech synthesis. *)
Definition host_of (server : Server.World) : Pipeline.Host :=
  {| Pipeline.extraction :=
       Pipeline.background_onExtract (Some (Some Content.article_page));
     Pipeline.generation :=
       fun data =>
         match Pipeline.background_onGenerate (Server.served server now) data with
         | Some d => d
         | None => Pipeline.Undelivered
         end;
     Pipeline.generationTime := 1200;
     Pipeline.audio := Throw (Error (lit "Speech synthesis not supported")) |}.

(** The popup in front of a tab without a content script. *)
Definition host_silent : Pipeline.Host :=
  {| Pipeline.extraction := Pipeline.background_onExtract (Some None);
     Pipeline.generation := fun _ => Pipeline.Undelivered;
     Pipeline.generationTime := 0;
     Pipeline.audio := Normal false |}.

End Scenarios.

(* ===================================================================== *)
(** * Properties *)
(* ===================================================================== *)

(** ** Running the definitions *)

Example split_keeps_empty_ends :
  split_re Gemini.is_sentence_end (lit "..a.b!?c.")
  = [[]; lit "a"; lit "b"; lit "c"; []].
Proof. reflexivity. Qed.

Example split_of_empty : split_re is_ws [] = [[]].
Proof. reflexivity. Qed.

Example trim_both_ends : trim (lit "  a b  ") = lit "a b".
Proof. reflexivity. Qed.

Example countWords_runs : countWords (lit "  a b  c ") = 3.
Proof. reflexivity. Qed.

Example whitespace_collapses :
  replaceAll (m_ws_run (lit " ")) (lit "  a   b  c ") = lit " a b c ".
Proof. reflexivity. Qed.

Example phrase_removed_in_any_case :
  replaceAll (m_phrase_ci (lit "Click here")) (lit "xclick HEREy Click her click here")
  = lit "xy Click her ".
Proof. reflexivity. Qed.

Example cleanResponse_strips :
  Gemini.cleanResponse_str
    (lit "Here's your song: **la** *la* la" ++ newline ++ lit "  " ++ newline
     ++ newline ++ lit "x ***a*** ****")
  = lit "la la la" ++ newline ++ newline ++ lit "x a".
Proof. vm_compute. reflexivity. Qed.

Example cleanResponse_label :
  Gemini.cleanResponse_str (lit "LYRICS:   hi") = lit "hi".
Proof. vm_compute. reflexivity. Qed.

Example hashString_abc : Audio.hashString (lit "abc") = lit "96354".
Proof. vm_compute. reflexivity. Qed.

Example hashString_wraps :
  Audio.hashString (lit "The quick brown fox jumps over the lazy dog")
  = lit "-609428141".
Proof. vm_compute. reflexivity. Qed.

Example createCacheKey_abc :
  Audio.createCacheKey (lit "abc") (lit "pop") None = lit "pop-default-96354".
Proof. vm_compute. reflexivity. Qed.

(** ** Strings *)

Lemma str_eqb_eq a b : str_eqb a b = true <-> a = b.
Proof.
  unfold str_eqb. destruct (list_eq_dec N.eq_dec a b); split; congruence.
Qed.

Lemma str_eqb_refl a : str_eqb a a = true.
Proof. now apply str_eqb_eq. Qed.

Lemma startsWith_app n b : startsWith n (n ++ b) = true.
Proof.
  induction n as [|c n IH]; simpl; [reflexivity|].
  now rewrite N.eqb_refl, IH.
Qed.

Lemma includes_here n b : includes n (n ++ b) = true.
Proof.
  destruct n as [|c n]; destruct b; simpl;
    rewrite ?N.eqb_refl, ?app_nil_r, ?startsWith_app;
    try reflexivity.
  - replace n with (n ++ []) at 2 by apply app_nil_r.
    now rewrite startsWith_app.
Qed.

Lemma includes_app_r n a b : includes n b = true -> includes n (a ++ b) = true.
Proof.
  intros H. induction a as [|c a IH]; simpl; [exact H|].
  rewrite IH. apply orb_true_r.
Qed.

Lemma startsWith_app_l n a b : startsWith n a = true -> startsWith n (a ++ b) = true.
Proof.
  revert a. induction n as [|c n IH]; intros a H; simpl in *; [reflexivity|].
  destruct a as [|d a]; simpl in *; [discriminate|].
  apply andb_true_iff in H as [H1 H2]. now rewrite H1, (IH a H2).
Qed.

Lemma includes_app_l n a b : includes n a = true -> includes n (a ++ b) = true.
Proof.
  induction a as [|c a IH]; intros H.
  - destruct n; simpl in H; [|discriminate].
    destruct b; reflexivity.
  - simpl in H. apply orb_true_iff in H as [H|H].
    + change ((c :: a) ++ b) with (c :: a ++ b).
      simpl. change (c :: a ++ b) with ((c :: a) ++ b).
      destruct n as [|d n]; [reflexivity|].
      simpl in H. simpl. apply andb_true_iff in H as [H1 H2].
      now rewrite H1, (startsWith_app_l _ _ b H2).
    + simpl. rewrite (IH H). apply orb_true_r.
Qed.

Lemma trimStart_length s : length (trimStart s) <= length s.
Proof.
  induction s as [|c s IH]; simpl; [lia|].
  destruct (is_ws c); simpl; lia.
Qed.

Lemma trim_length s : length (trim s) <= length s.
Proof.
  unfold trim, trimEnd. rewrite length_rev.
  etransitivity; [apply trimStart_length|].
  rewrite length_rev. apply trimStart_length.
Qed.

Lemma app_nonempty {A} (a b : list A) : a <> [] -> a ++ b <> [].
Proof. destruct a; [congruence|discriminate]. Qed.

(** Chasing a needle through the pieces of a template. *)
Ltac find_piece :=
  repeat first
    [ apply includes_here
    | apply includes_app_l; vm_compute; reflexivity
    | apply includes_app_r ].

(** ** The hash of the cache key *)

Module AudioFacts.
Import Audio.
Local Open Scope Z_scope.

Lemma to_int32_range z : - 2^31 <= to_int32 z < 2^31.
Proof.
  unfold to_int32.
  pose proof (Z.mod_pos_bound (z + 2^31) (2^32) ltac:(lia)). lia.
Qed.

Lemma to_int32_mod z : to_int32 z mod 2^32 = z mod 2^32.
Proof.
  unfold to_int32.
  rewrite Zminus_mod, Zmod_mod, <- Zminus_mod.
  f_equal. lia.
Qed.

Lemma to_int32_congr a b : a mod 2^32 = b mod 2^32 -> to_int32 a = to_int32 b.
Proof.
  intros H. unfold to_int32.
  rewrite (Zplus_mod a), (Zplus_mod b), H. reflexivity.
Qed.

Lemma to_int32_idem z : to_int32 (to_int32 z) = to_int32 z.
Proof. apply to_int32_congr, to_int32_mod. Qed.

Lemma to_int32_shift z : exists k, to_int32 z = z + k * 2^32.
Proof.
  exists (- ((z + 2^31) / 2^32)). unfold to_int32.
  rewrite Z.mod_eq by discriminate. ring.
Qed.

Lemma band_diag a : band a a = to_int32 a.
Proof. unfold band. rewrite Z.land_diag. apply to_int32_idem. Qed.

Lemma shl_mul a n : 0 <= n -> shl a n = to_int32 (to_int32 a * 2^n).
Proof. intros H. unfold shl. now rewrite Z.shiftl_mul_pow2. Qed.

(** [(hash << 5) - hash + char], masked, is [hash * 31 + char], masked. *)
Lemma hash_step_31 hash char :
  hash_step hash char = to_int32 (hash * 31 + Z.of_N char).
Proof.
  unfold hash_step. cbv zeta. rewrite band_diag, shl_mul by discriminate.
  apply to_int32_congr.
  destruct (to_int32_shift hash) as [k2 ->].
  destruct (to_int32_shift ((hash + k2 * 2^32) * 2^5)) as [k1 ->].
  replace ((hash + k2 * 2^32) * 2^5 + k1 * 2^32 - hash + Z.of_N char)
    with (hash * 31 + Z.of_N char + (32 * k2 + k1) * 2^32) by ring.
  apply Z_mod_plus_full.
Qed.

Lemma fold_left_pointwise {A B} (f g : A -> B -> A) :
  (forall a b, f a b = g a b) ->
  forall l a, fold_left f l a = fold_left g l a.
Proof.
  intros H l. induction l as [|b l IH]; intros a; [reflexivity|].
  cbn [fold_left]. now rewrite H, IH.
Qed.

Lemma hash_fold_trunc str h :
  fold_left hash_step str h
  = fold_left (fun hash char => to_int32 (hash * 31 + Z.of_N char)) str h.
Proof. apply fold_left_pointwise. exact hash_step_31. Qed.

Lemma rolling_congr str h h' :
  h mod 2^32 = h' mod 2^32 ->
  fold_left (fun hash char => to_int32 (hash * 31 + Z.of_N char)) str h mod 2^32
  = fold_left (fun hash char => hash * 31 + Z.of_N char) str h' mod 2^32.
Proof.
  revert h h'. induction str as [|c str IH]; intros h h' H; cbn [fold_left];
    [exact H|].
  apply IH. rewrite to_int32_mod.
  rewrite (Zplus_mod (h * 31)), (Zplus_mod (h' * 31)).
  rewrite (Zmult_mod h), (Zmult_mod h'), H. reflexivity.
Qed.

Lemma hash_value_range str : - 2^31 <= hash_value str < 2^31.
Proof.
  unfold hash_value. rewrite hash_fold_trunc.
  destruct str as [|c str] using rev_ind; [cbn [fold_left]; lia|].
  rewrite fold_left_app. cbn [fold_left]. apply to_int32_range.
Qed.

(** C8. The cache key is the style, the gender and the decimal hash of
    the text, joined by hyphens: a gender that is given and not empty is
    in the key as it is, so that two such genders give the same key for a
    text and a style only when they are equal, and a gender that is missing
    or empty is replaced by [default]. The hash is the recurrence
    [hash * 31 + charCode] truncated to a signed 32-bit integer at each step,
    hence congruent modulo 2^32 to the recurrence without truncation. *)
Theorem createCacheKey_rolling_hash (text style : jsstring) :
  (forall gender : jsstring, gender <> [] ->
     createCacheKey text style (Some gender)
     = style ++ lit "-" ++ gender ++ lit "-" ++ dec (rolling31_trunc text))
  /\ createCacheKey text style None
     = style ++ lit "-" ++ lit "default" ++ lit "-" ++ dec (rolling31_trunc text)
  /\ createCacheKey text style (Some [])
     = style ++ lit "-" ++ lit "default" ++ lit "-" ++ dec (rolling31_trunc text)
  /\ (forall gender1 gender2 : jsstring, gender1 <> [] -> gender2 <> [] ->
       createCacheKey text style (Some gender1)
       = createCacheKey text style (Some gender2) ->
       gender1 = gender2)
  /\ hashString text = dec (rolling31_trunc text)
  /\ hash_value text = rolling31_trunc text
  /\ hash_value text mod 2^32 = rolling31 text mod 2^32
  /\ - 2^31 <= hash_value text < 2^31.
Proof.
  assert (T : hash_value text = rolling31_trunc text) by apply hash_fold_trunc.
  assert (K : forall gender : jsstring, gender <> [] ->
              createCacheKey text style (Some gender)
              = style ++ lit "-" ++ gender ++ lit "-" ++ dec (rolling31_trunc text)).
  { intros gender Hg. unfold createCacheKey, gender_or_default, or_else, hashString.
    rewrite T. destruct gender as [|c gender]; [contradiction|reflexivity]. }
  split; [exact K|].
  split; [unfold createCacheKey, hashString; now rewrite T|].
  split; [unfold createCacheKey, hashString; now rewrite T|].
  split.
  { intros gender1 gender2 H1 H2. rewrite (K _ H1), (K _ H2). intros E.
    apply app_inv_head in E. apply app_inv_head in E.
    now apply app_inv_tail in E. }
  split; [unfold hashString; now rewrite T|].
  split; [exact T|]. split.
  - unfold hash_value, rolling31. rewrite hash_fold_trunc.
    now apply rolling_congr.
  - apply hash_value_range.
Qed.

Lemma createCacheKey_rolling_hash_witness :
  createCacheKey (lit "abc") (lit "pop") (Some (lit "female"))
  = lit "pop-female-96354"
  /\ createCacheKey (lit "abc") (lit "pop") (Some (lit "female"))
     <> createCacheKey (lit "abc") (lit "pop") (Some (lit "male")).
Proof.
  destruct (createCacheKey_rolling_hash (lit "abc") (lit "pop"))
    as (K & _ & _ & I & _).
  split.
  - rewrite (K (lit "female")); [vm_compute; reflexivity|].
    vm_compute. discriminate.
  - intros E. apply I in E; vm_compute in E |- *; discriminate.
Defined.

End AudioFacts.

(** ** The history list *)

Module PopupFacts.
Import Popup.

Lemma slice_to_firstn {A} (m : Z) (l : list A) :
  (0 <= m)%Z -> slice_to m l = firstn (Z.to_nat m) l.
Proof.
  intros Hm. unfold slice_to.
  destruct (Z.ltb_spec m 0); [lia|].
  destruct (Z.min_spec m (Z.of_nat (length l))) as [[Hlt ->]|[Hge ->]];
    [reflexivity|].
  rewrite Nat2Z.id, firstn_all.
  symmetry. apply firstn_all2. lia.
Qed.

(** With a positive bound, one insert keeps the newest [maxHistory]
    entries of the list. *)
Lemma push_capped_firstn (m : Z) item h :
  (0 < m)%Z -> push_capped m item h = firstn (Z.to_nat m) (item :: h).
Proof.
  intros Hm. unfold push_capped.
  destruct (Z.ltb_spec m (Z.of_nat (length (item :: h)))).
  - apply slice_to_firstn. lia.
  - symmetry. apply firstn_all2. lia.
Qed.

Lemma entry_stable p q r :
  currentContent q = currentContent p -> form q = form p -> entry q r = entry p r.
Proof.
  intros Hc Hf. destruct r as [[text t] iso]. unfold entry, historyItem. simpl.
  now rewrite Hc, Hf.
Qed.

Lemma saveAll_history rhymes : forall p,
  (0 < maxHistory p)%Z ->
  history (saveAll rhymes p)
  = firstn (Z.to_nat (maxHistory p)) (rev (map (entry p) rhymes) ++ history p)
    \/ rhymes = [].
Proof.
  induction rhymes as [|[[text t] iso] rest IH]; intros p Hm; [now right|].
  left. simpl saveAll.
  set (q := saveToHistory text 0 (at_time t iso p)).
  assert (Hq : maxHistory q = maxHistory p) by reflexivity.
  assert (Hh : history q
               = firstn (Z.to_nat (maxHistory p)) (entry p (text, t, iso) :: history p)).
  { unfold q. simpl. now apply push_capped_firstn. }
  destruct (IH q ltac:(now rewrite Hq)) as [E| ->].
  - rewrite E, Hq, Hh.
    rewrite (map_ext (entry q) (entry p)) by (intros; now apply entry_stable).
    simpl map. simpl rev. rewrite <- app_assoc. simpl app.
    set (n := Z.to_nat (maxHistory p)).
    set (a := rev (map (entry p) rest)).
    set (l := entry p (text, t, iso) :: history p).
    clearbody a l. clear - n.
    destruct (Nat.le_gt_cases n (length a)).
    + rewrite !firstn_app.
      replace (n - length a) with 0 by lia. now rewrite !firstn_O.
    + rewrite !firstn_app, (firstn_all2 (n:=n) a) by lia.
      f_equal. rewrite firstn_firstn. f_equal. lia.
  - simpl saveAll. rewrite Hh. reflexivity.
Qed.

(** C5, as amended. With a positive [maxHistory], after every insert the
    history holds at most [maxHistory] items, the newest first and the
    oldest dropped; 26 saves into an empty history with [maxHistory = 25]
    leave exactly 25 items: the 26th save at the head, then the 25th down
    to the 2nd, the first save gone. *)
Theorem history_capped_oldest_evicted :
  (forall p text time,
      (0 < maxHistory p)%Z ->
      let p' := saveToHistory text time p in
      (Z.of_nat (length (history p')) <= maxHistory p)%Z
      /\ history p' = firstn (Z.to_nat (maxHistory p)) (historyItem p text time :: history p)
      /\ stored p' = history p')
  /\ (forall p first rest,
      settings_maxHistory p = Some 25%Z ->
      history p = [] ->
      length rest = 25 ->
      let p' := saveAll (first :: rest) p in
      length (history p') = 25
      /\ history p' = rev (map (entry p) rest)
      /\ hd_error (history p') = Some (entry p (last rest first))).
Proof.
  split.
  - intros p text time Hm p'. unfold p'. simpl.
    rewrite push_capped_firstn by exact Hm.
    repeat split.
    pose proof (firstn_le_length (Z.to_nat (maxHistory p))
                  (historyItem p text time :: history p)).
    rewrite length_firstn. lia.
  - intros p first rest Hmax Hh Hlen p'.
    assert (Hm : maxHistory p = 25%Z) by (unfold maxHistory; now rewrite Hmax).
    assert (E : history p' = rev (map (entry p) rest)).
    { destruct (saveAll_history (first :: rest) p ltac:(lia)) as [E|E];
        [|discriminate].
      unfold p'. rewrite E, Hm, Hh, app_nil_r. simpl map. simpl rev.
      rewrite firstn_app.
      replace (length (rev (map (entry p) rest))) with 25
        by now rewrite length_rev, length_map.
      change (Z.to_nat 25) with 25. replace (25 - 25) with 0 by lia.
      rewrite firstn_O, app_nil_r. apply firstn_all2.
      rewrite length_rev, length_map. lia. }
    rewrite E. split; [now rewrite length_rev, length_map|].
    split; [reflexivity|].
    destruct rest as [|r rest] using rev_ind; [discriminate|].
    rewrite map_app, rev_app_distr, last_last. reflexivity.
Qed.

Lemma history_capped_oldest_evicted_witness :
  (Z.of_nat (length (history (saveToHistory (lit "la") 0 popup0))) <= 25)%Z
  /\ length (history (saveAll rhymes26 popup0)) = 25
  /\ map id (history (saveAll rhymes26 popup0)) = map Z.of_nat (rev (seq 2 25)).
Proof.
  split.
  - apply (proj1 history_capped_oldest_evicted popup0 (lit "la") 0%Z).
    reflexivity.
  - destruct (proj2 history_capped_oldest_evicted popup0
                (rhyme_at 1) (map rhyme_at (seq 2 25))
                eq_refl eq_refl eq_refl) as (L & E & _).
    split; [exact L|].
    change (saveAll rhymes26 popup0)
      with (saveAll (rhyme_at 1 :: map rhyme_at (seq 2 25)) popup0).
    rewrite E. reflexivity.
Defined.

(** Counterexample to C5 as stated: the settings page stores the integer
    it parses, whatever its sign, and with [maxHistory = -5] an insert into
    an empty history leaves [slice(0, -5)] of one item, the empty list. Its
    length, 0, is not at most [maxHistory], and the newest item is not
    present. *)
Lemma history_not_capped_below_zero :
  ~ (forall p text time,
        (Z.of_nat (length (history (saveToHistory text time p))) <= maxHistory p)%Z).
Proof.
  intros H.
  specialize (H Scenarios.popup_negative (lit "la") 0%Z).
  vm_compute in H. apply H. reflexivity.
Qed.

Example negative_limit_drops_new_item :
  maxHistory Scenarios.popup_negative = (-5)%Z
  /\ history (saveToHistory (lit "la") 0 Scenarios.popup_negative) = [].
Proof. vm_compute. split; reflexivity. Qed.

End PopupFacts.

(** ** The content extractor *)

Module ContentFacts.
Import Content.

Lemma cleanContent_length c : length (cleanContent c) <= 3003.
Proof.
  unfold cleanContent. destruct c as [|a c]; [simpl; lia|].
  set (c2 := fold_left _ _ _). clearbody c2.
  etransitivity; [apply trim_length|].
  destruct (Nat.ltb_spec 3000 (length c2)) as [H|H].
  - rewrite length_app. unfold substring0.
    pose proof (firstn_le_length 3000 c2).
    rewrite length_firstn. change (length (lit "...")) with 3. lia.
  - lia.
Qed.

Lemma extract_try_content doc r :
  extract_try doc = Normal r ->
  exists content0,
    content r = cleanContent content0 /\ wordCount r = countWords (content r).
Proof.
  unfold extract_try. destruct (or_next (extractByStructure doc) _) as [c|e];
    intros H; inversion H; subst. simpl. eauto.
Qed.

(** The [try] block throws only where the fallback is reached and the
    document has no body. *)
Lemma extract_try_throws doc e :
  extract_try doc = Throw e -> body doc = None.
Proof.
  unfold extract_try, or_next, extractFallback.
  destruct (truthy (extractByStructure doc)); [discriminate|].
  destruct (truthy (extractByReadability doc)); [discriminate|].
  destruct (truthy (extractByTextDensity doc)); [discriminate|].
  destruct (filter _ _); [|discriminate].
  destruct (body doc); [discriminate|reflexivity].
Qed.

(** C1. On every document extractContent returns a record and does not
    throw; the content it returns has at most 3003 code units, being the
    result of cleanContent or the placeholder; when a step of the extraction
    throws, the record is the placeholder text with the title and the
    address of the page and a word count of 0. *)
Theorem extractContent_total_and_bounded (doc : Document) :
  exists r,
    extractContent doc = Normal r
    /\ length (content r) <= 3003
    /\ (forall e, extract_try doc = Throw e ->
          r = extract_catch doc
          /\ content r = lit "Unable to extract content from this page."
          /\ title r = or_else (Some (documentTitle doc)) (lit "Unknown Page")
          /\ url r = locationHref doc
          /\ wordCount r = 0)
    /\ (forall r', extract_try doc = Normal r' ->
          r = r'
          /\ (exists content0, content r = cleanContent content0)
          /\ wordCount r = countWords (content r)).
Proof.
  unfold extractContent. destruct (extract_try doc) as [r|e] eqn:E.
  - exists r. split; [reflexivity|].
    destruct (extract_try_content doc r E) as (c0 & Hc & Hw).
    split; [rewrite Hc; apply cleanContent_length|].
    split; [discriminate|].
    intros r' H. inversion H; subst. eauto.
  - exists (extract_catch doc). split; [reflexivity|].
    split; [vm_compute; lia|].
    split; [|discriminate].
    intros e' _. repeat split.
Qed.

Example extractContent_bare_page :
  extractContent bare_page
  = Normal {| content := lit "Unable to extract content from this page.";
              title := lit "Unknown Page"; url := lit "about:blank";
              wordCount := 0; extractedAt := lit "2024-01-01T00:00:00.000Z" |}.
Proof. reflexivity. Qed.

Example extractContent_article_page :
  extractContent article_page
  = Normal {| content := lit "The quick brown fox.  to  now";
              title := lit "Fox"; url := lit "https://example.org/fox";
              wordCount := 6; extractedAt := lit "2024-01-01T00:00:00.000Z" |}.
Proof. vm_compute. reflexivity. Qed.

(** A long text is cut at 3000 code units and marked with an ellipsis. *)
Example extractContent_long_page :
  exists r, extractContent long_page = Normal r /\ length (content r) = 2000.
Proof. eexists. split; [vm_compute; reflexivity|]. vm_compute. reflexivity. Qed.

Example cleanContent_truncates :
  length (cleanContent (repeat 97%N 4000)) = 3003.
Proof. vm_compute. reflexivity. Qed.

Lemma extractContent_total_and_bounded_witness :
  exists r,
    extractContent bare_page = Normal r
    /\ content r = lit "Unable to extract content from this page.".
Proof.
  destruct (extractContent_total_and_bounded bare_page) as (r & H1 & _ & H3 & _).
  exists r. split; [exact H1|].
  apply (H3 (TypeError (lit "Cannot read properties of null (reading 'textContent')"))).
  reflexivity.
Defined.

End ContentFacts.

(** ** The rhyme generator *)

Module GeminiFacts.
Import Gemini.

Lemma assoc_In {A} (table : list (jsstring * A)) key :
  In key (map fst table) -> exists v, assoc table key = Some v.
Proof.
  induction table as [|[k v] table IH]; simpl; [tauto|].
  intros [->|H].
  - rewrite str_eqb_refl. eauto.
  - destruct (str_eqb k key); eauto.
Qed.

Lemma assoc_Some_In {A} (table : list (jsstring * A)) key v :
  assoc table key = Some v -> In (key, v) table.
Proof.
  induction table as [|[k x] table IH]; simpl; [discriminate|].
  destruct (str_eqb k key) eqn:E.
  - apply str_eqb_eq in E. intros H. inversion H; subst. now left.
  - intros H. right. now apply IH.
Qed.

Lemma get_own {A} (table : list (jsstring * A)) key v :
  assoc table key = Some v -> get table key = Own v.
Proof. unfold get. now intros ->. Qed.

(** C6. For every style, length and tone of the three tables, whatever the
    content, the title and the custom instructions, createPrompt returns a
    non-empty prompt that contains the adjectives of the tone and the example
    artists of the style; for the style pop it contains "catchy, upbeat
    tempo" and "ABAB or AABA". The keys of the tables are the five styles,
    the three lengths and the five tones. *)
Theorem createPrompt_contains
    (content style length tone title customInstructions : jsstring) :
  In style styles -> In length lengths -> In tone tones ->
  exists prompt guide adjectives,
    createPrompt content style length tone title customInstructions = Normal prompt
    /\ prompt <> []
    /\ assoc styleGuides style = Some guide
    /\ assoc toneAdjectives tone = Some adjectives
    /\ includes adjectives prompt = true
    /\ includes (examples guide) prompt = true
    /\ (style = lit "pop" ->
          includes (lit "catchy, upbeat tempo") prompt = true
          /\ includes (lit "ABAB or AABA") prompt = true).
Proof.
  intros Hs Hl Ht.
  destruct (assoc_In styleGuides style Hs) as [guide Hg].
  destruct (assoc_In lengthSpecs length Hl) as [spec Hsp].
  destruct (assoc_In toneAdjectives tone Ht) as [adj Ha].
  exists (basePrompt adj style title content (Own guide) (Own spec) customInstructions),
    guide, adj.
  split.
  { unfold createPrompt, tone_text.
    now rewrite (get_own _ _ _ Hg), (get_own _ _ _ Hsp), (get_own _ _ _ Ha). }
  split; [discriminate|].
  split; [exact Hg|]. split; [exact Ha|].
  unfold basePrompt. simpl field_text.
  split; [find_piece|]. split; [find_piece|].
  intros ->. vm_compute in Hg. inversion Hg; subst guide. clear Hg.
  split; find_piece.
Qed.

Lemma createPrompt_contains_witness :
  exists prompt,
    createPrompt (lit "The quick brown fox jumps over the lazy dog. It was a sunny day.")
      (lit "pop") (lit "medium") (lit "fun") [] [] = Normal prompt
    /\ includes (lit "catchy, upbeat tempo") prompt = true
    /\ includes (lit "ABAB or AABA") prompt = true
    /\ includes (lit "playful, energetic, and entertaining") prompt = true
    /\ includes (lit "like Taylor Swift, Ed Sheeran, or Dua Lipa") prompt = true.
Proof.
  destruct (createPrompt_contains
              (lit "The quick brown fox jumps over the lazy dog. It was a sunny day.")
              (lit "pop") (lit "medium") (lit "fun") [] [])
    as (prompt & guide & adj & H1 & _ & Hg & Ha & H2 & H3 & H4).
  - vm_compute. tauto.
  - vm_compute. tauto.
  - vm_compute. tauto.
  - exists prompt. split; [exact H1|].
    destruct (H4 eq_refl) as [H5 H6].
    split; [exact H5|]. split; [exact H6|].
    vm_compute in Hg, Ha. inversion Hg; subst guide. inversion Ha; subst adj.
    split; [exact H2|exact H3].
Defined.

Lemma extractKeyPoints_first content n :
  extractKeyPoints content n
  = firstLongSentences (split_re is_sentence_end content) n.
Proof.
  unfold extractKeyPoints, slice0.
  generalize (split_re is_sentence_end content) as l.
  intros l. revert n. induction l as [|s l IH]; intros n.
  - simpl. now destruct n.
  - cbn [filter firstLongSentences]. destruct n as [|k].
    + now destruct (10 <? length (trim s)).
    + destruct (10 <? length (trim s)) eqn:E.
      * cbn [firstn map]. now rewrite IH.
      * apply IH.
Qed.

Lemma generateFallbackRhyme_frames content style :
  generateFallbackRhyme content style
  = match assoc frames style with
    | Some frame => VStr (framed frame (extractKeyPoints content 2))
    | None =>
        if is_prototype_key style then VObject
        else VStr (framed (lit "Here's a story that you need to know,",
                           lit "Now you've heard it, now you know!")
                     (extractKeyPoints content 2))
    end.
Proof.
  unfold generateFallbackRhyme, get, templates, frames. simpl assoc.
  repeat match goal with
         | |- context [str_eqb ?a style] => destruct (str_eqb a style); [reflexivity|]
         end.
  destruct (is_prototype_key style); reflexivity.
Qed.

(** *** Running the calls *)

Lemma fails_outcome reply : fails reply = true -> exists e, outcome reply = Throw e.
Proof. destruct reply; simpl; intros H; try discriminate; eauto. Qed.

Lemma request_run prompt key w :
  request prompt key w
  = (outcome (backend w (fetches w) key prompt), record_event (EvFetch key prompt) w).
Proof.
  unfold request, bind, gets, modify, lift. reflexivity.
Qed.

Lemma callGeminiAPI_from_run left prompt key attempt w :
  callGeminiAPI_from left prompt key attempt w
  = let w1 := record_event (EvFetch key prompt) w in
    match outcome (backend w (fetches w) key prompt) with
    | Normal text => (Normal text, w1)
    | Throw e =>
        match left with
        | S left' =>
            callGeminiAPI_from left' prompt key (attempt + 1)
              (record_event (EvDelay (retryDelay * attempt)) w1)
        | O => (Throw e, w1)
        end
    end.
Proof.
  destruct left; simpl; unfold try_catch; rewrite request_run;
    destruct (outcome _); reflexivity.
Qed.

(** The recursion of the source: retry after the delay while
    [attempt < this.maxRetries], else rethrow. *)
Lemma callGeminiAPI_eq prompt key attempt w :
  callGeminiAPI prompt key attempt w
  = try_catch (request prompt key)
      (fun error =>
         if attempt <? maxRetries
         then bind (delay (retryDelay * attempt))
                (fun _ => callGeminiAPI prompt key (attempt + 1))
         else throw error) w.
Proof.
  unfold callGeminiAPI.
  destruct (Nat.ltb_spec attempt maxRetries) as [H|H].
  - replace (maxRetries - attempt) with (S (maxRetries - (attempt + 1))) by lia.
    reflexivity.
  - replace (maxRetries - attempt) with 0 by lia. reflexivity.
Qed.

Lemma getApiKey_run w :
  getApiKey w
  = match truthy (apiKey w) with
    | Some k => (Normal (Some k), w)
    | None => (Normal (truthy (storedKey w)), set_apiKey (truthy (storedKey w)) w)
    end.
Proof.
  unfold getApiKey, bind, gets, modify, ret.
  destruct (truthy (apiKey w)); reflexivity.
Qed.

(** getApiKey touches [this.apiKey] only. *)
Lemma getApiKey_frame w :
  let w0 := snd (getApiKey w) in
  backend w0 = backend w /\ fetches w0 = fetches w /\ log w0 = log w
  /\ clock w0 = clock w /\ exists v, fst (getApiKey w) = Normal v.
Proof.
  rewrite getApiKey_run. destruct (truthy (apiKey w)); simpl; eauto 10.
Qed.

(** transformToRhyme, dispatched on the outcome of each of its steps. *)
Lemma transformToRhyme_run content options w :
  transformToRhyme content options w
  = let style := or_default (opt_style options) (lit "pop") in
    let length := or_default (opt_length options) (lit "medium") in
    let tone := or_default (opt_tone options) (lit "fun") in
    let title := or_default (opt_title options) [] in
    let customInstructions := or_default (opt_customInstructions options) [] in
    let w0 := snd (getApiKey w) in
    match fst (getApiKey w) with
    | Throw e => (Normal (failed content options e), w0)
    | Normal None =>
        (Normal (failed content options (Error (lit "Gemini API key not configured"))), w0)
    | Normal (Some key) =>
        match createPrompt content style length tone title customInstructions with
        | Throw e => (Normal (failed content options e), w0)
        | Normal prompt =>
            let w1 := snd (callGeminiAPI prompt key 1 w0) in
            match fst (callGeminiAPI prompt key 1 w0) with
            | Throw e => (Normal (failed content options e), w1)
            | Normal response =>
                match cleanResponse response, countWords_val response with
                | Normal rhyme, Normal words =>
                    (Normal (Success rhyme
                               {| md_style := style; md_length := length;
                                  md_tone := tone; wordCount := words;
                                  generatedAt := clock w1 |}), w1)
                | Throw e, _ => (Normal (failed content options e), w1)
                | Normal _, Throw e => (Normal (failed content options e), w1)
                end
            end
        end
    end.
Proof.
  unfold transformToRhyme, try_catch, bind, lift, throw, ret, gets, failed.
  cbv zeta.
  destruct (getApiKey w) as [[[key|]|e] w0]; cbn [fst snd]; try reflexivity.
  destruct (createPrompt _ _ _ _ _ _) as [prompt|e]; try reflexivity.
  destruct (callGeminiAPI prompt key 1 w0) as [[response|e] w1]; cbn [fst snd];
    try reflexivity.
  destruct (cleanResponse response); [|reflexivity].
  destruct (countWords_val response); reflexivity.
Qed.

(** transformToRhyme always returns a result. *)
Lemma transformToRhyme_returns content options w :
  exists result, fst (transformToRhyme content options w) = Normal result.
Proof.
  rewrite transformToRhyme_run. cbv zeta.
  destruct (fst (getApiKey w)) as [[key|]|e]; cbn [fst]; eauto.
  destruct (createPrompt _ _ _ _ _ _) as [prompt|e]; cbn [fst]; eauto.
  destruct (fst (callGeminiAPI prompt key 1 _)) as [response|e]; cbn [fst]; eauto.
  destruct (cleanResponse response); cbn [fst]; eauto.
  destruct (countWords_val response); cbn [fst]; eauto.
Qed.

(** One call of callGeminiAPI sends at most [left + 1] requests. *)
Lemma callGeminiAPI_from_bound left : forall prompt key attempt w,
  fetches (snd (callGeminiAPI_from left prompt key attempt w))
  <= fetches w + S left.
Proof.
  induction left as [|left IH]; intros prompt key attempt w;
    rewrite callGeminiAPI_from_run; cbv zeta;
    destruct (outcome _); cbn [snd]; try (simpl; lia).
  etransitivity; [apply IH|]. simpl. lia.
Qed.

Lemma transformToRhyme_bound content options w :
  fetches (snd (transformToRhyme content options w)) <= fetches w + 3.
Proof.
  rewrite transformToRhyme_run. cbv zeta.
  destruct (getApiKey_frame w) as (_ & Hf & _).
  assert (B : forall prompt key,
             fetches (snd (callGeminiAPI prompt key 1 (snd (getApiKey w))))
             <= fetches w + 3).
  { intros. rewrite <- Hf. apply (callGeminiAPI_from_bound 2). }
  destruct (fst (getApiKey w)) as [[key|]|e]; cbn [snd]; try lia.
  destruct (createPrompt _ _ _ _ _ _) as [prompt|e]; cbn [snd]; try lia.
  specialize (B prompt key).
  destruct (fst (callGeminiAPI prompt key 1 _)) as [response|e]; cbn [snd]; try lia.
  destruct (cleanResponse response); cbn [snd]; try lia.
  destruct (countWords_val response); cbn [snd]; lia.
Qed.

(** Two failures, then whatever the third attempt gives. *)
Lemma callGeminiAPI_third prompt key w :
  fails (backend w (0 + fetches w) key prompt) = true ->
  fails (backend w (1 + fetches w) key prompt) = true ->
  let r := callGeminiAPI prompt key 1 w in
  fst r = outcome (backend w (2 + fetches w) key prompt)
  /\ log (snd r) = log w ++ attempts key prompt
  /\ clock (snd r) = clock w.
Proof.
  intros F0 F1.
  destruct (fails_outcome _ F0) as [e0 E0], (fails_outcome _ F1) as [e1 E1].
  simpl in E0, E1. cbv zeta. unfold callGeminiAPI.
  change (maxRetries - 1) with 2.
  rewrite callGeminiAPI_from_run. cbv zeta. rewrite E0.
  rewrite callGeminiAPI_from_run. cbv zeta. cbn [backend fetches record_event].
  rewrite E1.
  rewrite callGeminiAPI_from_run. cbv zeta. cbn [backend fetches record_event].
  destruct (outcome (backend w (S (S (fetches w))) key prompt)) eqn:E2;
    cbn [fst snd log clock record_event]; simpl "+"; rewrite E2;
    (split; [reflexivity|]); (split; [|reflexivity]);
    unfold attempts; repeat rewrite <- app_assoc; reflexivity.
Qed.

Lemma fallback_nonempty content style :
  In style styles ->
  exists fb, generateFallbackRhyme content style = VStr fb /\ fb <> [].
Proof.
  intros H. rewrite generateFallbackRhyme_frames.
  destruct (assoc_In frames style H) as [frame Hf]. rewrite Hf.
  eexists. split; [reflexivity|].
  apply assoc_Some_In in Hf. unfold framed. apply app_nonempty.
  cbn [frames In] in Hf.
  repeat (destruct Hf as [Hf|Hf];
          [inversion Hf; subst; vm_compute; discriminate|]).
  destruct Hf.
Qed.

(** C2. transformToRhyme always returns a result and sends at most three
    requests. With a key configured and a style and a length of the tables:
    when the first two attempts fail and the third yields a text, the result
    has [success: true], the rhyme is the cleaned text, and the run is three
    requests separated by delays of 1000 ms and 2000 ms; when all three
    attempts fail, the result has [success: false] and a non-empty fallback
    string, after the same three requests and two delays. *)
Theorem transformToRhyme_retry_loop :
  (forall content options w,
      (exists result, fst (transformToRhyme content options w) = Normal result)
      /\ fetches (snd (transformToRhyme content options w)) <= fetches w + 3)
  /\ (forall content options w key,
      let style := or_default (opt_style options) (lit "pop") in
      let length := or_default (opt_length options) (lit "medium") in
      let tone := or_default (opt_tone options) (lit "fun") in
      let title := or_default (opt_title options) [] in
      let customInstructions := or_default (opt_customInstructions options) [] in
      fst (getApiKey w) = Normal (Some key) ->
      In style styles ->
      In length lengths ->
      exists prompt,
        createPrompt content style length tone title customInstructions = Normal prompt
        /\ let reply n := backend w (n + fetches w) key prompt in
           let r := transformToRhyme content options w in
           (fails (reply 0) = true -> fails (reply 1) = true ->
            forall text, reply 2 = ReplyText (VStr text) ->
            exists result,
              fst r = Normal result
              /\ success result = true
              /\ result = Success (cleanResponse_str text)
                            {| md_style := style; md_length := length; md_tone := tone;
                               wordCount := countWords text; generatedAt := clock w |}
              /\ log (snd r) = log w ++ attempts key prompt)
           /\ (fails (reply 0) = true -> fails (reply 1) = true ->
               fails (reply 2) = true ->
               exists result error fallback,
                 fst r = Normal result
                 /\ success result = false
                 /\ result = Failure error (VStr fallback)
                 /\ fallback <> []
                 /\ log (snd r) = log w ++ attempts key prompt)).
Proof.
  split.
  { intros. split; [apply transformToRhyme_returns|apply transformToRhyme_bound]. }
  intros content options w key style length tone title customInstructions Hk Hs Hl.
  destruct (assoc_In styleGuides style Hs) as [guide Hg].
  destruct (assoc_In lengthSpecs length Hl) as [spec Hsp].
  assert (Hp : exists prompt,
             createPrompt content style length tone title customInstructions
             = Normal prompt).
  { unfold createPrompt. rewrite (get_own _ _ _ Hg), (get_own _ _ _ Hsp). eauto. }
  destruct Hp as [prompt Hp]. exists prompt. split; [exact Hp|].
  cbv zeta.
  destruct (getApiKey_frame w) as (Hb & Hf & Hlog & Hc & _).
  rewrite transformToRhyme_run. cbv zeta. rewrite Hk.
  fold style length tone title customInstructions. rewrite Hp.
  split.
  - intros F0 F1 text F2.
    rewrite <- Hb, <- Hf in F0, F1, F2.
    destruct (callGeminiAPI_third prompt key _ F0 F1) as (R1 & R2 & R3).
    rewrite R1, F2. cbn [outcome cleanResponse countWords_val fst snd].
    eexists. split; [reflexivity|]. split; [reflexivity|].
    split; [now rewrite R3, Hc|]. now rewrite R2, Hlog.
  - intros F0 F1 F2.
    rewrite <- Hb, <- Hf in F0, F1, F2.
    destruct (callGeminiAPI_third prompt key _ F0 F1) as (R1 & R2 & R3).
    destruct (fails_outcome _ F2) as [e E]. rewrite R1, E. cbn [fst snd].
    destruct (fallback_nonempty content style Hs) as (fb & Hfb & Hne).
    exists (failed content options e), (message e), fb.
    split; [reflexivity|]. split; [reflexivity|].
    split; [unfold failed; fold style; now rewrite Hfb|].
    split; [exact Hne|]. now rewrite R2, Hlog.
Qed.

Lemma transformToRhyme_retry_loop_witness :
  (exists result,
      fst (transformToRhyme fox pop_options world_flaky) = Normal result
      /\ success result = true)
  /\ (exists result,
      fst (transformToRhyme fox pop_options world_down) = Normal result
      /\ success result = false).
Proof.
  split.
  - destruct (proj2 transformToRhyme_retry_loop fox pop_options world_flaky
                (lit "AIzaSy-0123456789-abcdefghij") eq_refl
                ltac:(vm_compute; tauto) ltac:(vm_compute; tauto))
      as (prompt & _ & HA & _).
    destruct (HA eq_refl eq_refl (lit "Here's your song: la la") eq_refl)
      as (result & H1 & H2 & _).
    exists result. split; assumption.
  - destruct (proj2 transformToRhyme_retry_loop fox pop_options world_down
                (lit "AIzaSy-0123456789-abcdefghij") eq_refl
                ltac:(vm_compute; tauto) ltac:(vm_compute; tauto))
      as (prompt & _ & _ & HB).
    destruct (HB eq_refl eq_refl eq_refl) as (result & e & fb & H1 & H2 & _).
    exists result. split; assumption.
Defined.

(** C7. The fallback rhyme is made locally: the key points are the
    first two sentences of the content whose trimmed length exceeds 10,
    trimmed; they are joined by a comma and a line feed and set between the
    first and the last line of the template of the style, the pop template
    standing in for a style without one; for the fox text and the style pop
    the rhyme is the pop template around the two sentences. The fallback of
    a failure result is this function of the content and the style; without
    a key it is returned and no request is sent. *)
Theorem fallback_rhyme_is_local (content style : jsstring) :
  (forall n,
      extractKeyPoints content n
      = firstLongSentences (split_re is_sentence_end content) n)
  /\ generateFallbackRhyme content style
     = match assoc frames style with
       | Some frame => VStr (framed frame (extractKeyPoints content 2))
       | None =>
           if is_prototype_key style then VObject
           else VStr (framed (lit "Here's a story that you need to know,",
                              lit "Now you've heard it, now you know!")
                        (extractKeyPoints content 2))
       end
  /\ map fst frames = styles
  /\ extractKeyPoints fox 2
     = [lit "The quick brown fox jumps over the lazy dog"; lit "It was a sunny day"]
  /\ generateFallbackRhyme fox (lit "pop")
     = VStr (lit "Here's a story that you need to know," ++ newline
             ++ lit "The quick brown fox jumps over the lazy dog" ++ lit "," ++ newline
             ++ lit "It was a sunny day" ++ newline
             ++ lit "Now you've heard it, now you know!")
  /\ (forall options w error fallback,
        fst (transformToRhyme content options w) = Normal (Failure error fallback) ->
        fallback
        = generateFallbackRhyme content (or_default (opt_style options) (lit "pop")))
  /\ (forall options w,
        fst (getApiKey w) = Normal None ->
        fst (transformToRhyme content options w)
        = Normal (Failure (lit "Gemini API key not configured")
                    (generateFallbackRhyme content
                       (or_default (opt_style options) (lit "pop"))))
        /\ log (snd (transformToRhyme content options w)) = log w
        /\ fetches (snd (transformToRhyme content options w)) = fetches w).
Proof.
  split; [intros; apply extractKeyPoints_first|].
  split; [apply generateFallbackRhyme_frames|].
  split; [reflexivity|].
  split; [vm_compute; reflexivity|].
  split; [vm_compute; reflexivity|].
  split.
  - intros options w error fallback. rewrite transformToRhyme_run. cbv zeta.
    unfold failed.
    destruct (fst (getApiKey w)) as [[key|]|e]; cbn [fst];
      try (intros H; inversion H; reflexivity).
    destruct (createPrompt _ _ _ _ _ _) as [prompt|e]; cbn [fst];
      try (intros H; inversion H; reflexivity).
    destruct (fst (callGeminiAPI prompt key 1 _)) as [response|e]; cbn [fst];
      try (intros H; inversion H; reflexivity).
    destruct (cleanResponse response); cbn [fst];
      try (intros H; inversion H; reflexivity).
    destruct (countWords_val response); cbn [fst];
      intros H; inversion H; reflexivity.
  - intros options w Hk.
    destruct (getApiKey_frame w) as (_ & Hf & Hl & _).
    rewrite transformToRhyme_run. cbv zeta. rewrite Hk. cbn [fst snd].
    repeat split; assumption.
Qed.

Lemma fallback_rhyme_is_local_witness :
  fst (transformToRhyme fox pop_options world_no_key)
  = Normal (Failure (lit "Gemini API key not configured")
              (VStr (lit "Here's a story that you need to know," ++ newline
                     ++ lit "The quick brown fox jumps over the lazy dog,"
                     ++ newline ++ lit "It was a sunny day" ++ newline
                     ++ lit "Now you've heard it, now you know!")))
  /\ log (snd (transformToRhyme fox pop_options world_no_key)) = [].
Proof.
  destruct (fallback_rhyme_is_local fox (lit "pop"))
    as (_ & _ & _ & _ & Hpop & _ & Hno).
  destruct (Hno pop_options world_no_key eq_refl) as (H1 & H2 & _).
  split; [|exact H2].
  rewrite H1. simpl or_default. rewrite Hpop. vm_compute. reflexivity.
Defined.

(** A successful call returns the text of its last request. *)
Lemma callGeminiAPI_from_text left : forall prompt key attempt w text,
  fst (callGeminiAPI_from left prompt key attempt w) = Normal text ->
  let w' := snd (callGeminiAPI_from left prompt key attempt w) in
  fetches w < fetches w'
  /\ backend w (pred (fetches w')) key prompt = ReplyText text.
Proof.
  induction left as [|left IH]; intros prompt key attempt w text;
    rewrite callGeminiAPI_from_run; cbv zeta;
    destruct (outcome (backend w (fetches w) key prompt)) as [t|e] eqn:E;
    cbn [fst snd]; intros H; try discriminate.
  - inversion H; subst. simpl. split; [lia|].
    destruct (backend w (fetches w) key prompt); simpl in E; congruence.
  - inversion H; subst. simpl. split; [lia|].
    destruct (backend w (fetches w) key prompt); simpl in E; congruence.
  - destruct (IH _ _ _ _ _ H) as [H1 H2].
    cbn [fetches record_event] in H1. split; [lia|exact H2].
Qed.

(** C10. When transformToRhyme succeeds, the rhyme is the cleaned text of
    the reply to its last request and [metadata.wordCount] is the word count
    of that text as received, not of the rhyme; for the reply "Here's your
    song: la la" the rhyme is "la la", of two words, and the count is 5. *)
Theorem wordCount_counts_raw_response :
  (forall content options w rhyme md,
      fst (transformToRhyme content options w) = Normal (Success rhyme md) ->
      exists raw key prompt,
        let w' := snd (transformToRhyme content options w) in
        fetches w < fetches w'
        /\ backend w (pred (fetches w')) key prompt = ReplyText raw
        /\ cleanResponse raw = Normal rhyme
        /\ countWords_val raw = Normal (wordCount md))
  /\ (exists rhyme md,
        fst (transformToRhyme fox pop_options world_up) = Normal (Success rhyme md)
        /\ rhyme = lit "la la"
        /\ countWords rhyme = 2
        /\ wordCount md = 5
        /\ wordCount md = countWords (lit "Here's your song: la la")).
Proof.
  split.
  - intros content options w rhyme md. rewrite transformToRhyme_run. cbv zeta.
    destruct (getApiKey_frame w) as (Hb & Hf & _).
    destruct (fst (getApiKey w)) as [[key|]|e]; cbn [fst]; try discriminate.
    destruct (createPrompt _ _ _ _ _ _) as [prompt|e]; cbn [fst]; try discriminate.
    destruct (fst (callGeminiAPI prompt key 1 _)) as [response|e] eqn:E;
      cbn [fst snd]; try discriminate.
    destruct (callGeminiAPI_from_text _ _ _ _ _ _ E) as [H1 H2].
    fold (callGeminiAPI prompt key 1 (snd (getApiKey w))) in H1, H2.
    rewrite Hb in H2. rewrite Hf in H1.
    destruct (cleanResponse response) as [r|e] eqn:Ec; cbn [fst snd];
      try discriminate.
    destruct (countWords_val response) as [n|e] eqn:En; cbn [fst snd];
      intros H; inversion H; subst.
    exists response, key, prompt. cbn [wordCount]. auto.
  - eexists _, _. split; [vm_compute; reflexivity|].
    repeat split; vm_compute; reflexivity.
Qed.

Lemma wordCount_counts_raw_response_witness :
  exists raw,
    cleanResponse raw = Normal (lit "la la")
    /\ countWords_val raw = Normal 5.
Proof.
  destruct (proj2 wordCount_counts_raw_response) as (rhyme & md & H & Hr & _ & Hw & _).
  destruct (proj1 wordCount_counts_raw_response fox pop_options world_up rhyme md H)
    as (raw & key & prompt & _ & _ & H1 & H2).
  exists raw. rewrite Hr in H1. rewrite Hw in H2. split; assumption.
Defined.

End GeminiFacts.

(** ** The audio generator *)

Module AudioCacheFacts.
Import Audio.

Lemma generateWithBrowser_run text style gender w :
  exists w',
    extends CallBrowser w w'
    /\ generateWithBrowser text style gender w
       = (if speechSynthesis w then
            match getVoiceConfig style with
            | None =>
                Throw (TypeError (lit "Failed to set the 'rate' property on 'SpeechSynthesisUtterance': The provided float value is non-finite."))
            | Some voiceConfig =>
                Normal {| success := true; service := lit "browser";
                          audio := match recording w (recordings w) with
                                   | Some audioBlob => AudioUrl audioBlob
                                   | None => Direct {| u_text := text;
                                                       u_config := voiceConfig |}
                                   end |}
            end
          else Throw (Error (lit "Speech synthesis not supported")), w').
Proof.
  unfold generateWithBrowser, extends, bind, gets, modify, throw, ret, enter,
    recordSpeech.
  cbn -[getVoiceConfig].
  destruct (speechSynthesis w) eqn:E; cbn -[getVoiceConfig].
  - destruct (getVoiceConfig style); cbn.
    + destruct (recording w (recordings w)); eexists; (split; [|reflexivity]);
        cbn; auto.
    + eexists; (split; [|reflexivity]); cbn; auto.
  - eexists; (split; [|reflexivity]); cbn; auto.
Qed.

Lemma post_extends svc provider w w0 c :
  extends c w0 w -> extends c w0 (snd (post svc provider w)).
Proof.
  unfold post, fetch, bind, gets, modify, throw, ret.
  intros H. destruct (remote w (requests w)); cbn [snd]; exact H.
Qed.

Lemma generateWithElevenLabs_extends text style gender w :
  extends CallElevenLabs w (snd (generateWithElevenLabs text style gender w)).
Proof.
  unfold generateWithElevenLabs, getApiKey, enter, bind, gets, modify, throw.
  cbn [sync with_counts].
  set (w1 := with_counts _ _ _ w).
  assert (H : extends CallElevenLabs w w1) by (unfold extends; cbn; auto).
  destruct (truthy _); cbn [snd]; [now apply post_extends|exact H].
Qed.

Lemma generateWithGoogle_extends text style gender w :
  extends CallGoogle w (snd (generateWithGoogle text style gender w)).
Proof.
  unfold generateWithGoogle, getApiKey, enter, bind, gets, modify, throw.
  cbn [sync with_counts getGoogleVoiceConfig].
  set (w1 := with_counts _ _ _ w).
  assert (H : extends CallGoogle w w1) by (unfold extends; cbn; auto).
  destruct (truthy _); cbn [snd]; [|exact H].
  destruct (getGoogleVoiceConfig w1 style gender); cbn [snd];
    [exact H|now apply post_extends].
Qed.

Lemma generateWithAzure_extends text style gender w :
  extends CallAzure w (snd (generateWithAzure text style gender w)).
Proof.
  unfold generateWithAzure, enter, bind, gets, modify, throw.
  cbn [sync with_counts getAzureVoiceConfig].
  set (w1 := with_counts _ _ _ w).
  assert (H : extends CallAzure w w1) by (unfold extends; cbn; auto).
  destruct (truthy (sync w (lit "azureKey")));
    destruct (truthy (sync w (lit "azureRegion")));
    cbv beta; cbn [snd]; try exact H.
  destruct (getAzureVoiceConfig w1 style gender); cbn [snd];
    [exact H|now apply post_extends].
Qed.

Lemma generateWithBrowser_extends text style gender w :
  extends CallBrowser w (snd (generateWithBrowser text style gender w)).
Proof.
  destruct (generateWithBrowser_run text style gender w) as (w' & H & ->).
  exact H.
Qed.

Lemma dispatch_extends svc text style gender w :
  extends (service_call svc) w (snd (dispatch svc text style gender w)).
Proof.
  unfold dispatch, service_call.
  destruct (str_eqb svc (lit "elevenlabs"));
    [apply generateWithElevenLabs_extends|].
  destruct (str_eqb svc (lit "google")); [apply generateWithGoogle_extends|].
  destruct (str_eqb svc (lit "azure")); [apply generateWithAzure_extends|].
  apply generateWithBrowser_extends.
Qed.

(** generateAudio, dispatched on the cache and on the outcome of the
    selected backend. *)
Lemma generateAudio_run text style0 gender w :
  generateAudio text style0 gender w
  = let style := match style0 with Some s => s | None => lit "pop" end in
    let cacheKey := createCacheKey text style gender in
    match cache_get cacheKey (audioCache w) with
    | Some audioResult => (Normal audioResult, w)
    | None =>
        let w1 := snd (dispatch (currentService w) text style gender w) in
        match fst (dispatch (currentService w) text style gender w) with
        | Normal audioResult =>
            (Normal audioResult,
             with_cache (cacheAudio_on cacheKey audioResult (audioCache w1)) w1)
        | Throw _ => generateWithBrowser text style gender w1
        end
    end.
Proof.
  unfold generateAudio, try_catch, bind, gets, ret, cacheAudio, modify. cbv zeta.
  destruct (cache_get _ (audioCache w)); [reflexivity|].
  destruct (dispatch _ _ _ _ w) as [[r|e] w1]; reflexivity.
Qed.

(** *** The Map *)

Lemma cache_get_set key v c : cache_get key (cache_set key v c) = Some v.
Proof.
  unfold cache_get. induction c as [|[k x] c IH]; simpl.
  - now rewrite str_eqb_refl.
  - destruct (str_eqb k key) eqn:E; simpl; now rewrite E.
Qed.

Lemma cache_get_set_other key key' v c :
  key' <> key -> cache_get key' (cache_set key v c) = cache_get key' c.
Proof.
  intros Hne. unfold cache_get. induction c as [|[k x] c IH]; simpl.
  - destruct (str_eqb key key') eqn:E; [|reflexivity].
    apply str_eqb_eq in E. congruence.
  - destruct (str_eqb k key) eqn:E; simpl.
    + apply str_eqb_eq in E. subst k.
      destruct (str_eqb key key') eqn:E'; [|reflexivity].
      apply str_eqb_eq in E'. congruence.
    + destruct (str_eqb k key'); [reflexivity|exact IH].
Qed.

Lemma cache_set_absent key v c :
  cache_get key c = None -> cache_set key v c = c ++ [(key, v)].
Proof.
  unfold cache_get. induction c as [|[k x] c IH]; simpl; [reflexivity|].
  destruct (str_eqb k key); [discriminate|]. intros H. now rewrite IH.
Qed.

Lemma cache_set_length key v c : length (cache_set key v c) <= S (length c).
Proof.
  induction c as [|[k x] c IH]; simpl; [lia|].
  destruct (str_eqb k key); simpl; lia.
Qed.

Lemma cache_get_tl key c : cache_get key c = None -> cache_get key (tl c) = None.
Proof.
  unfold cache_get. destruct c as [|[k x] c]; simpl; [auto|].
  destruct (str_eqb k key); [discriminate|auto].
Qed.

Lemma cacheAudio_on_length key v c :
  length c <= maxCacheSize -> length (cacheAudio_on key v c) <= maxCacheSize.
Proof.
  intros H. unfold cacheAudio_on, cache_delete_first.
  destruct (Nat.leb_spec maxCacheSize (length c)).
  - etransitivity; [apply cache_set_length|].
    destruct c; simpl in *; [unfold maxCacheSize; lia|lia].
  - etransitivity; [apply cache_set_length|]. lia.
Qed.

Lemma cache_get_cacheAudio key v c : cache_get key (cacheAudio_on key v c) = Some v.
Proof. unfold cacheAudio_on. destruct (_ <=? _); apply cache_get_set. Qed.

Lemma cache_set_keys key v c :
  map fst (cache_set key v c)
  = match cache_get key c with
    | Some _ => map fst c
    | None => map fst c ++ [key]
    end.
Proof.
  unfold cache_get. induction c as [|[k x] c IH]; simpl; [reflexivity|].
  destruct (str_eqb k key) eqn:E; simpl; [reflexivity|].
  rewrite IH. now destruct (assoc c key).
Qed.

Lemma cache_get_In key c v : cache_get key c = Some v -> In key (map fst c).
Proof.
  unfold cache_get. induction c as [|[k x] c IH]; simpl; [discriminate|].
  destruct (str_eqb k key) eqn:E; [|auto].
  apply str_eqb_eq in E. auto.
Qed.

Lemma cache_get_None key c : cache_get key c = None -> ~ In key (map fst c).
Proof.
  unfold cache_get. induction c as [|[k x] c IH]; simpl; [tauto|].
  destruct (str_eqb k key) eqn:E; [discriminate|].
  intros H [->|Hin]; [now rewrite str_eqb_refl in E|now apply IH].
Qed.

(** The keys of the Map stay distinct. *)
Lemma cacheAudio_on_NoDup key v c :
  NoDup (map fst c) -> NoDup (map fst (cacheAudio_on key v c)).
Proof.
  intros H.
  assert (S : forall c', NoDup (map fst c') -> NoDup (map fst (cache_set key v c'))).
  { intros c' H'. rewrite cache_set_keys.
    destruct (cache_get key c') eqn:E; [exact H'|].
    apply NoDup_app; [exact H'|repeat constructor; simpl; tauto|].
    intros k Hk [<-|[]]. now apply (cache_get_None _ _ E). }
  unfold cacheAudio_on, cache_delete_first.
  destruct (_ <=? _); apply S; [|exact H].
  destruct c; [exact H|]. simpl in H. now inversion H.
Qed.

Lemma cache_get_absent key c :
  ~ In key (map fst c) -> cache_get key c = None.
Proof.
  unfold cache_get. induction c as [|[k x] c IH]; simpl; [reflexivity|].
  intros H. destruct (str_eqb k key) eqn:E.
  - apply str_eqb_eq in E. tauto.
  - apply IH. tauto.
Qed.

(** C3, as amended. generateAudio rejects only with the rejection of the
    local-synthesis backend: an exception of the selected backend is caught
    and the call is retried once through generateWithBrowser, whose failure
    (no speech synthesis in the window, or no voice configuration for the
    style) is the only one that reaches the caller. Where speech synthesis is
    available and the style has a voice configuration, generateAudio returns
    a result. At most two backends are called. *)
Theorem generateAudio_rejects_only_if_local_fails
    (text : jsstring) (style0 gender : option jsstring) (w : World) :
  let style := match style0 with Some s => s | None => lit "pop" end in
  let r := generateAudio text style0 gender w in
  (forall e, fst r = Throw e ->
      (speechSynthesis w = false /\ e = Error (lit "Speech synthesis not supported")
       \/ speechSynthesis w = true /\ getVoiceConfig style = None /\ e = not_finite)
      /\ calls (snd r) = calls w ++ [service_call (currentService w); CallBrowser])
  /\ (speechSynthesis w = true -> getVoiceConfig style <> None ->
      exists result, fst r = Normal result)
  /\ (forall e,
        cache_get (createCacheKey text style gender) (audioCache w) = None ->
        fst (dispatch (currentService w) text style gender w) = Throw e ->
        r = generateWithBrowser text style gender
              (snd (dispatch (currentService w) text style gender w))
        /\ calls (snd r) = calls w ++ [service_call (currentService w); CallBrowser])
  /\ length (calls (snd r)) <= length (calls w) + 2.
Proof.
  cbv zeta. rewrite generateAudio_run. cbv zeta.
  set (style := match style0 with Some s => s | None => lit "pop" end).
  set (key := createCacheKey text style gender).
  destruct (dispatch_extends (currentService w) text style gender w)
    as (D1 & D2 & D3 & D4).
  set (w1 := snd (dispatch (currentService w) text style gender w)) in *.
  destruct (generateWithBrowser_run text style gender w1)
    as (w2 & (B1 & B2 & B3 & B4) & B).
  assert (C2 : calls w2 = calls w ++ [service_call (currentService w); CallBrowser]).
  { rewrite B4, D4, <- app_assoc. reflexivity. }
  destruct (cache_get key (audioCache w)) as [cached|].
  { cbn [fst snd]. repeat split; try discriminate; eauto; lia. }
  destruct (fst (dispatch (currentService w) text style gender w)) as [result|e0].
  { cbn [fst snd calls with_cache]. repeat split; try discriminate; eauto.
    rewrite D4, length_app. simpl. lia. }
  rewrite B, D3. cbn [fst snd]. repeat split.
  - destruct (speechSynthesis w); [|left; split; congruence].
    destruct (getVoiceConfig style); [discriminate|].
    right. repeat split. unfold not_finite. congruence.
  - exact C2.
  - intros Hs Hv. rewrite Hs.
    destruct (getVoiceConfig style); [eauto|congruence].
  - exact C2.
  - rewrite C2, length_app. simpl. lia.
Qed.

Lemma generateAudio_rejects_only_if_local_fails_witness :
  (exists result,
      fst (generateAudio (lit "la la") (Some (lit "pop")) None world_unconfigured)
      = Normal result)
  /\ calls (snd (generateAudio (lit "la la") (Some (lit "pop")) None world_mute))
     = [CallBrowser; CallBrowser].
Proof.
  split.
  - apply (generateAudio_rejects_only_if_local_fails
             (lit "la la") (Some (lit "pop")) None world_unconfigured).
    + reflexivity.
    + vm_compute. discriminate.
  - apply (proj1 (generateAudio_rejects_only_if_local_fails
                    (lit "la la") (Some (lit "pop")) None world_mute)
             (Error (lit "Speech synthesis not supported"))).
    vm_compute. reflexivity.
Defined.

(** Counterexample to C3 as stated: with the default service and no speech
    synthesis in the window, generateAudio rejects. *)
Lemma generateAudio_can_reject :
  ~ (forall text style gender w,
        exists result, fst (generateAudio text style gender w) = Normal result).
Proof.
  intros H.
  destruct (H (lit "la la") (Some (lit "pop")) None world_mute) as [result Hr].
  vm_compute in Hr. discriminate.
Qed.

Example generateAudio_mute :
  fst (generateAudio (lit "la la") (Some (lit "pop")) None world_mute)
  = Throw (Error (lit "Speech synthesis not supported")).
Proof. vm_compute. reflexivity. Qed.

(** When the selected backend throws, the [catch] block returns the result
    of generateWithBrowser and the cache stays as it was. *)
Lemma generateAudio_fallback_leaves_cache text style0 gender w e :
  let style := match style0 with Some s => s | None => lit "pop" end in
  cache_get (createCacheKey text style gender) (audioCache w) = None ->
  fst (dispatch (currentService w) text style gender w) = Throw e ->
  audioCache (snd (generateAudio text style0 gender w)) = audioCache w.
Proof.
  intros style Hmiss Hd.
  rewrite generateAudio_run. cbv zeta. fold style. rewrite Hmiss, Hd.
  destruct (dispatch_extends (currentService w) text style gender w)
    as (D1 & _).
  destruct (generateWithBrowser_extends text style gender
              (snd (dispatch (currentService w) text style gender w)))
    as (B1 & _).
  now rewrite B1, D1.
Qed.

(** C4, as amended. The cache never holds more than [maxCacheSize] = 50
    entries after an insert, and its keys stay distinct. When a request
    misses the cache and the selected backend returns, the result is cached:
    the same request again returns it from the cache with the state
    untouched, so that the two requests call one backend. Inserting a new
    key into a full cache drops the entry inserted first and keeps the others
    in order, the new one last. *)
Theorem audioCache_bounded_fifo :
  (forall key result c,
      (length c <= maxCacheSize ->
       length (cacheAudio_on key result c) <= maxCacheSize)
      /\ (NoDup (map fst c) -> NoDup (map fst (cacheAudio_on key result c)))
      /\ cache_get key (cacheAudio_on key result c) = Some result)
  /\ (forall text style0 gender w,
        length (audioCache w) <= maxCacheSize ->
        length (audioCache (snd (generateAudio text style0 gender w))) <= maxCacheSize)
  /\ (forall text style0 gender w result,
        let style := match style0 with Some s => s | None => lit "pop" end in
        cache_get (createCacheKey text style gender) (audioCache w) = None ->
        fst (dispatch (currentService w) text style gender w) = Normal result ->
        let w1 := snd (generateAudio text style0 gender w) in
        fst (generateAudio text style0 gender w) = Normal result
        /\ generateAudio text style0 gender w1 = (Normal result, w1)
        /\ calls w1 = calls w ++ [service_call (currentService w)])
  /\ (forall key result first rest,
        length (first :: rest) = maxCacheSize ->
        cache_get key (first :: rest) = None ->
        NoDup (map fst (first :: rest)) ->
        cacheAudio_on key result (first :: rest) = rest ++ [(key, result)]
        /\ cache_get (fst first) (cacheAudio_on key result (first :: rest)) = None
        /\ length (cacheAudio_on key result (first :: rest)) = maxCacheSize).
Proof.
  split.
  { intros key result c.
    split; [apply cacheAudio_on_length|].
    split; [apply cacheAudio_on_NoDup|apply cache_get_cacheAudio]. }
  split.
  { intros text style0 gender w H. rewrite generateAudio_run. cbv zeta.
    set (style := match style0 with Some s => s | None => lit "pop" end).
    destruct (dispatch_extends (currentService w) text style gender w)
      as (D1 & _).
    destruct (cache_get _ (audioCache w)); [exact H|].
    destruct (fst (dispatch _ _ _ _ w)).
    - cbn [snd audioCache with_cache]. apply cacheAudio_on_length. now rewrite D1.
    - destruct (generateWithBrowser_extends text style gender
                  (snd (dispatch (currentService w) text style gender w)))
        as (B1 & _).
      now rewrite B1, D1. }
  split.
  { intros text style0 gender w result style Hmiss Hd w1. unfold w1.
    rewrite generateAudio_run. cbv zeta. fold style. rewrite Hmiss, Hd.
    cbn [fst snd].
    destruct (dispatch_extends (currentService w) text style gender w)
      as (D1 & D2 & D3 & D4).
    split; [reflexivity|]. split; [|exact D4].
    rewrite generateAudio_run. cbv zeta. fold style.
    cbn [audioCache with_cache]. now rewrite cache_get_cacheAudio. }
  intros key result first rest Hlen Hmiss Hnd.
  assert (E : cacheAudio_on key result (first :: rest) = rest ++ [(key, result)]).
  { unfold cacheAudio_on. rewrite Hlen, Nat.leb_refl.
    apply cache_set_absent. apply (cache_get_tl _ _ Hmiss). }
  rewrite E. split; [reflexivity|]. split.
  - destruct first as [k0 v0]. cbn [fst].
    inversion Hnd as [|? ? Hnotin _]; subst.
    unfold cache_get in *. simpl in Hmiss.
    destruct (str_eqb k0 key) eqn:Ek; [discriminate|].
    apply cache_get_absent. rewrite map_app. simpl.
    intros Hin. apply in_app_or in Hin as [Hin|[Hin|[]]]; [tauto|].
    subst. now rewrite str_eqb_refl in Ek.
  - rewrite length_app. simpl in *. lia.
Qed.

Lemma audioCache_bounded_fifo_witness :
  generateAudio (lit "la la") (Some (lit "pop")) None
    (snd (generateAudio (lit "la la") (Some (lit "pop")) None world_speaking))
  = (Normal {| success := true; service := lit "browser";
               audio := Direct {| u_text := lit "la la";
                                  u_config := {| rate := 100; pitch := 100;
                                                 volume := 80 |} |} |},
     snd (generateAudio (lit "la la") (Some (lit "pop")) None world_speaking))
  /\ length (cacheAudio_on (lit "k") {| success := true; service := lit "browser";
                                        audio := AudioUrl [] |} []) <= maxCacheSize.
Proof.
  destruct audioCache_bounded_fifo as (H1 & _ & H3 & _).
  split.
  - apply (H3 (lit "la la") (Some (lit "pop")) None world_speaking).
    + reflexivity.
    + vm_compute. reflexivity.
  - apply (H1 (lit "k")). simpl. unfold maxCacheSize. lia.
Defined.

(** Counterexample to C4 as stated: with a remote service selected and no
    key stored, the same request made twice calls four backends and leaves
    the cache empty. *)
Lemma same_request_twice_not_one_call :
  ~ (forall text style gender w,
        let w1 := snd (generateAudio text style gender w) in
        let w2 := snd (generateAudio text style gender w1) in
        length (calls w2) = length (calls w) + 1).
Proof.
  intros H.
  specialize (H (lit "la la") (Some (lit "pop")) None world_unconfigured).
  vm_compute in H. discriminate.
Qed.

Example same_request_twice_unconfigured :
  let w1 := snd (generateAudio (lit "la la") (Some (lit "pop")) None world_unconfigured) in
  let w2 := snd (generateAudio (lit "la la") (Some (lit "pop")) None w1) in
  calls w2 = [CallElevenLabs; CallBrowser; CallElevenLabs; CallBrowser]
  /\ audioCache w2 = [].
Proof. vm_compute. split; reflexivity. Qed.

End AudioCacheFacts.

(** ** The proxy-relay client *)

Module BackgroundFacts.
Import Background.








Example handleRhymeGeneration_no_rhyme :
  fst (handleRhymeGeneration fox_request world_no_rhyme)
  = Normal {| rhyme := VFalsy;
              metadata := {| md_style := lit "pop"; md_length := lit "medium";
                             md_tone := lit "fun"; wordCount := 0;
                             generatedAt := lit "2024-01-01T00:00:00.000Z";
                             fallback := false |};
              audioUrl := None |}.
Proof. vm_compute. reflexivity. Qed.

(** Behind the proxy server of the repository: the generative endpoint
    answers with white space, the server sends the empty rhyme as a
    success, and the result holds it, not the fallback. *)
Example handleRhymeGeneration_empty_rhyme :
  fst (handleRhymeGeneration fox_request
         (Server.served Scenarios.server_blank Scenarios.now))
  = Normal {| rhyme := VStr [];
              metadata := {| md_style := lit "pop"; md_length := lit "medium";
                             md_tone := lit "fun"; wordCount := 0;
                             generatedAt := lit "2024-01-01T00:00:00.000Z";
                             fallback := false |};
              audioUrl := None |}.
Proof. vm_compute. reflexivity. Qed.

End BackgroundFacts.

(** ** More on strings *)

Lemma includes_iff n s : includes n s = true <-> exists a b, s = a ++ n ++ b.
Proof.
  split.
  - induction s as [|c t IH]; simpl; intros H.
    + rewrite orb_false_r in H. destruct n; [|discriminate]. exists [], []. reflexivity.
    + apply orb_true_iff in H. destruct H as [H|H].
      * exists []. simpl.
        clear IH. revert H. generalize (c :: t) as s. clear c t.
        induction n as [|a n IH]; intros s H.
        -- exists s. reflexivity.
        -- destruct s as [|b s]; [discriminate|]. simpl in H.
           apply andb_true_iff in H. destruct H as [E H].
           apply N.eqb_eq in E. subst b.
           destruct (IH s H) as [r ->]. exists r. reflexivity.
      * destruct (IH H) as (a & b & ->). exists (c :: a), b. reflexivity.
  - intros (a & b & ->). apply includes_app_r, includes_here.
Qed.

Lemma includes_trans a b c :
  includes a b = true -> includes b c = true -> includes a c = true.
Proof.
  rewrite !includes_iff. intros (x & y & ->) (u & v & ->).
  exists (u ++ x), (y ++ v). now rewrite <- !app_assoc.
Qed.

Lemma includes_refl a : includes a a = true.
Proof. apply includes_iff. exists [], []. now rewrite app_nil_r. Qed.

(** trimStart *)
Lemma trimStart_split s :
  exists a, s = a ++ trimStart s /\ Forall (fun c => is_ws c = true) a.
Proof.
  induction s as [|c t (a & E & F)]; simpl.
  - exists []. split; [reflexivity|constructor].
  - destruct (is_ws c) eqn:W.
    + exists (c :: a). split; [simpl; congruence|now constructor].
    + exists []. split; [reflexivity|constructor].
Qed.

Lemma trimStart_head s c t : trimStart s = c :: t -> is_ws c = false.
Proof.
  induction s as [|d u IH]; simpl; [discriminate|].
  destruct (is_ws d) eqn:W; [exact IH|]. intros H. inversion H; subst. exact W.
Qed.

Lemma trimStart_fix c t : is_ws c = false -> trimStart (c :: t) = c :: t.
Proof. intros W. simpl. now rewrite W. Qed.

Lemma trimStart_idem s : trimStart (trimStart s) = trimStart s.
Proof.
  destruct (trimStart s) as [|c t] eqn:E; [reflexivity|].
  apply trimStart_fix. eapply trimStart_head; eauto.
Qed.

Lemma trimStart_app_keep a c : is_ws c = false ->
  exists x, trimStart (a ++ [c]) = x ++ [c].
Proof.
  intros W. induction a as [|d a IH]; simpl.
  - rewrite W. exists []. reflexivity.
  - destruct (is_ws d); [exact IH|]. exists (d :: a). reflexivity.
Qed.

Lemma trimEnd_split s :
  exists b, s = trimEnd s ++ b /\ Forall (fun c => is_ws c = true) b.
Proof.
  unfold trimEnd. destruct (trimStart_split (rev s)) as (a & E & F).
  exists (rev a). split.
  - rewrite <- rev_app_distr, <- E. now rewrite rev_involutive.
  - now apply Forall_rev.
Qed.

Lemma trim_split s :
  exists a b, s = a ++ trim s ++ b
              /\ Forall (fun c => is_ws c = true) a
              /\ Forall (fun c => is_ws c = true) b.
Proof.
  unfold trim. destruct (trimStart_split s) as (a & E & F).
  destruct (trimEnd_split (trimStart s)) as (b & E' & F').
  exists a, b. rewrite <- E'. auto.
Qed.

Lemma includes_trim s : includes (trim s) s = true.
Proof.
  apply includes_iff. destruct (trim_split s) as (a & b & E & _). eauto.
Qed.

Lemma trim_fix s :
  (forall c t, s = c :: t -> is_ws c = false) ->
  (forall c t, rev s = c :: t -> is_ws c = false) ->
  trim s = s.
Proof.
  intros H1 H2. unfold trim, trimEnd.
  assert (E : trimStart s = s).
  { destruct s as [|c t]; [reflexivity|]. apply trimStart_fix. eapply H1; eauto. }
  rewrite E.
  assert (E' : trimStart (rev s) = rev s).
  { destruct (rev s) as [|c t] eqn:R; [reflexivity|]. apply trimStart_fix. eapply H2; eauto. }
  rewrite E'. apply rev_involutive.
Qed.

Lemma trim_ends s :
  (forall c t, trim s = c :: t -> is_ws c = false)
  /\ (forall c t, rev (trim s) = c :: t -> is_ws c = false).
Proof.
  unfold trim, trimEnd. split.
  - intros c t H.
    destruct (trimStart s) as [|d u] eqn:E; [discriminate|].
    pose proof (trimStart_head _ _ _ E) as W.
    simpl rev in H.
    destruct (trimStart_app_keep (rev u) d W) as [x Hx]. rewrite Hx in H.
    rewrite rev_app_distr in H. simpl in H. inversion H; subst. exact W.
  - intros c t. rewrite rev_involutive. apply trimStart_head.
Qed.

Lemma trim_idem s : trim (trim s) = trim s.
Proof. apply trim_fix; apply trim_ends. Qed.

Lemma Forall_trimStart {P : N -> Prop} s : Forall P s -> Forall P (trimStart s).
Proof.
  induction 1 as [|c t H F IH]; simpl; [constructor|].
  destruct (is_ws c); [exact IH|now constructor].
Qed.

Lemma Forall_trim {P : N -> Prop} s : Forall P s -> Forall P (trim s).
Proof.
  intros F. unfold trim, trimEnd.
  apply Forall_rev, Forall_trimStart, Forall_rev, Forall_trimStart, F.
Qed.

(** replaceAll *)
Lemma replace_go_Forall_rep {P : N -> Prop} (m : matcher) :
  (forall s rep n, m s = Some (rep, n) -> Forall P rep) ->
  (forall c t, m (c :: t) = None -> P c) ->
  forall s k, Forall P (replace_go m k s).
Proof.
  intros Hrep Hnone. induction s as [|c t IH]; intros k; simpl; [constructor|].
  destruct k; [|apply IH].
  destruct (m (c :: t)) as [[rep n]|] eqn:E.
  - apply Forall_app. split; [eapply Hrep; eauto|apply IH].
  - constructor; [eapply Hnone; eauto|apply IH].
Qed.

Lemma replace_go_Forall {P : N -> Prop} (m : matcher) :
  (forall s rep n, m s = Some (rep, n) -> Forall P rep) ->
  forall s k, Forall P s -> Forall P (replace_go m k s).
Proof.
  intros Hrep. induction s as [|c t IH]; intros k F; simpl; [constructor|].
  inversion F; subst.
  destruct k; [|now apply IH].
  destruct (m (c :: t)) as [[rep n]|] eqn:E.
  - apply Forall_app. split; [eapply Hrep; eauto|now apply IH].
  - constructor; [assumption|now apply IH].
Qed.

Lemma replace_go_length (m : matcher) :
  shrinking m ->
  forall s k, length (replace_go m k s) <= length s - k.
Proof.
  intros Hm. induction s as [|c t IH]; intros k; simpl; [lia|].
  destruct k.
  - destruct (m (c :: t)) as [[rep n]|] eqn:E.
    + destruct (Hm _ _ _ E) as [[H1 H2] H3]. simpl in H2.
      rewrite length_app. specialize (IH (pred n)). lia.
    + simpl. specialize (IH 0). lia.
  - specialize (IH k). lia.
Qed.

Lemma replaceAll_length (m : matcher) s :
  shrinking m -> length (replaceAll m s) <= length s.
Proof. intros Hm. unfold replaceAll. pose proof (replace_go_length m Hm s 0). lia. Qed.

Lemma replace_go_none (m : matcher) :
  forall s, (forall a b, s = a ++ b -> b <> [] -> m b = None) ->
  replace_go m 0 s = s.
Proof.
  induction s as [|c t IH]; intros H; simpl; [reflexivity|].
  rewrite (H [] (c :: t)) by (reflexivity || discriminate).
  f_equal. apply IH. intros a b -> Hb. apply (H (c :: a) b); auto.
Qed.

(** split *)
Lemma split_go_pieces sep s :
  Forall (fun c => sep c = false) (fst (split_go sep s))
  /\ Forall (Forall (fun c => sep c = false)) (snd (split_go sep s)).
Proof.
  induction s as [|c t [IH1 IH2]]; simpl; [split; constructor|].
  destruct (split_go sep t) as [p ps]. simpl in *.
  destruct (sep c) eqn:S.
  - destruct t as [|d t'].
    + simpl. split; [constructor|now constructor].
    + destruct (sep d); simpl; split; try constructor; auto.
  - simpl. split; [now constructor|assumption].
Qed.

Lemma split_re_pieces sep s :
  Forall (Forall (fun c => sep c = false)) (split_re sep s).
Proof.
  unfold split_re. pose proof (split_go_pieces sep s) as [H1 H2].
  destruct (split_go sep s). now constructor.
Qed.

Lemma split_go_infix sep s :
  (exists b, s = fst (split_go sep s) ++ b)
  /\ Forall (fun p => includes p s = true) (snd (split_go sep s)).
Proof.
  induction s as [|c t [[b IH1] IH2]]; simpl.
  - split; [exists []; reflexivity|constructor].
  - destruct (split_go sep t) as [p ps]. simpl in *.
    assert (T : Forall (fun p0 => includes p0 (c :: t) = true) ps).
    { eapply Forall_impl; [|exact IH2]. intros a Ha. simpl. rewrite Ha. apply orb_true_r. }
    assert (Hp : includes p (c :: t) = true).
    { apply includes_iff. exists [c], b. simpl. congruence. }
    destruct (sep c).
    + destruct t as [|d t'].
      * split; [exists [c]; reflexivity|now constructor].
      * destruct (sep d); (split; [exists (c :: d :: t'); reflexivity|]);
          [assumption|now constructor].
    + simpl. split; [exists b; congruence|assumption].
Qed.

Lemma split_re_infix sep s :
  Forall (fun p => includes p s = true) (split_re sep s).
Proof.
  unfold split_re. pose proof (split_go_infix sep s) as [[b H1] H2].
  destruct (split_go sep s) as [p ps]. simpl in *. constructor; [|assumption].
  apply includes_iff. exists [], b. exact H1.
Qed.

Lemma Forall_firstn {A} {P : A -> Prop} n (l : list A) :
  Forall P l -> Forall P (firstn n l).
Proof.
  intros F. revert n. induction F as [|a l H F IH]; intros [|n]; simpl;
    constructor; auto.
Qed.

Lemma includes_Forall {P : N -> Prop} p s :
  includes p s = true -> Forall P s -> Forall P p.
Proof.
  intros H F. apply includes_iff in H. destruct H as (a & b & ->).
  apply Forall_app in F. destruct F as [_ F].
  apply Forall_app in F. tauto.
Qed.

Lemma trimStart_blank s : blank s -> trimStart s = [].
Proof.
  induction 1 as [|c t H F IH]; simpl; [reflexivity|]. now rewrite H.
Qed.

Lemma trim_blank s : blank s -> trim s = [].
Proof. intros H. unfold trim. now rewrite trimStart_blank. Qed.

Lemma countWords_blank s : blank s -> countWords s = 0.
Proof.
  intros B. unfold countWords. destruct s as [|c t]; [reflexivity|].
  pose proof (split_re_pieces is_ws (c :: t)) as P.
  pose proof (split_re_infix is_ws (c :: t)) as I.
  induction (split_re is_ws (c :: t)) as [|p ps IH]; [reflexivity|].
  inversion P; subst. inversion I; subst.
  assert (p = []).
  { destruct p as [|a p]; [reflexivity|].
    pose proof (includes_Forall _ _ H3 B) as F.
    inversion F; subst. inversion H1; subst. congruence. }
  subst p. simpl. auto.
Qed.

Lemma canon_ws c : is_ws c = true -> canon c = c.
Proof.
  intros W. unfold canon.
  destruct ((97 <=? c)%N && (c <=? 122)%N) eqn:E; [|reflexivity].
  exfalso. apply andb_true_iff in E. destruct E as [E1 E2].
  apply N.leb_le in E1, E2. unfold is_ws in W.
  rewrite !orb_true_iff, !andb_true_iff, !N.leb_le, !N.eqb_eq in W. lia.
Qed.

Lemma startsWith_ci_ws a p c t :
  is_ws (canon a) = false -> is_ws c = true -> startsWith_ci (a :: p) (c :: t) = false.
Proof.
  intros Ha Hc. simpl. rewrite (canon_ws c Hc).
  destruct (N.eqb_spec (canon a) c); [congruence|reflexivity].
Qed.

(** ** The text that the extractor returns *)

Module ContentTextFacts.
Import Content.

Lemma m_ws_run_none c t rep : m_ws_run rep (c :: t) = None -> is_ws c = false.
Proof.
  unfold m_ws_run. simpl. destruct (is_ws c); [discriminate|reflexivity].
Qed.

Lemma m_ws_run_some rep s r n : m_ws_run rep s = Some (r, n) -> r = rep.
Proof.
  unfold m_ws_run. destruct (takeWhile is_ws s); [discriminate|].
  intros H. now inversion H.
Qed.

Lemma m_phrase_ci_some phrase s r n : m_phrase_ci phrase s = Some (r, n) -> r = [].
Proof.
  unfold m_phrase_ci. destruct phrase; [discriminate|].
  destruct (startsWith_ci _ _); [|discriminate]. intros H. now inversion H.
Qed.

Lemma cleanContent_only_spaces c :
  Forall (fun ch => is_ws ch = true -> ch = 32%N) (cleanContent c).
Proof.
  unfold cleanContent. destruct c as [|c0 c]; [constructor|].
  apply Forall_trim.
  assert (F : Forall (fun ch => is_ws ch = true -> ch = 32%N)
                (fold_left (fun content phrase => replaceAll (m_phrase_ci phrase) content)
                   unwantedPhrases (replaceAll (m_ws_run (lit " ")) (c0 :: c)))).
  { generalize unwantedPhrases as phrases.
    assert (F0 : Forall (fun ch => is_ws ch = true -> ch = 32%N)
                   (replaceAll (m_ws_run (lit " ")) (c0 :: c))).
    { apply replace_go_Forall_rep.
      - intros s rep n H. apply m_ws_run_some in H. subst rep.
        repeat constructor.
      - intros ch t H. apply m_ws_run_none in H. congruence. }
    revert F0. generalize (replaceAll (m_ws_run (lit " ")) (c0 :: c)) as text.
    intros text F0 phrases. revert text F0.
    induction phrases as [|p ps IH]; intros text F0; simpl; [exact F0|].
    apply IH. apply replace_go_Forall; [|exact F0].
    intros s rep n H. apply m_phrase_ci_some in H. subst. constructor. }
  destruct (3000 <? _); [|exact F].
  apply Forall_app. split; [now apply Forall_firstn|].
  repeat constructor; discriminate.
Qed.

Lemma cleanContent_trimmed c : trim (cleanContent c) = cleanContent c.
Proof.
  unfold cleanContent. destruct c; [reflexivity|]. apply trim_idem.
Qed.

(** X1. The content that extractContent returns is a single line of
    trimmed text: its only white-space character is the space U+0020, it
    holds no line terminator, and it neither starts nor ends with white
    space. This holds for the cleaned text of every strategy and for the
    placeholder of the [catch] block. *)
Theorem extractContent_single_line (doc : Document) (r : ExtractedContent) :
  extractContent doc = Normal r ->
  Forall (fun ch => is_ws ch = true -> ch = 32%N) (content r)
  /\ Forall (fun ch => is_line_terminator ch = false) (content r)
  /\ trim (content r) = content r.
Proof.
  intros H.
  assert (A : Forall (fun ch => is_ws ch = true -> ch = 32%N) (content r)
              /\ trim (content r) = content r).
  { unfold extractContent in H. destruct (extract_try doc) as [r'|e] eqn:E.
    - inversion H; subst r'.
      destruct (ContentFacts.extract_try_content doc r E) as (c0 & Hc & _).
      rewrite Hc. split; [apply cleanContent_only_spaces|apply cleanContent_trimmed].
    - inversion H; subst r. split.
      + apply Forall_forall. intros ch Hin Hws.
        assert (F : forallb (fun c => negb (is_ws c) || N.eqb c 32)
                      (content (extract_catch doc)) = true)
          by (vm_compute; reflexivity).
        rewrite forallb_forall in F. specialize (F ch Hin).
        rewrite Hws in F. now apply N.eqb_eq.
      + vm_compute. reflexivity. }
  destruct A as [A1 A2]. split; [exact A1|]. split; [|exact A2].
  eapply Forall_impl; [|exact A1]. intros ch Hch. cbv beta in Hch.
  destruct (is_line_terminator ch) eqn:L; [|reflexivity].
  assert (W : is_ws ch = true).
  { unfold is_line_terminator in L. unfold is_ws.
    rewrite !orb_true_iff in L. rewrite !N.eqb_eq in L.
    destruct L as [[[->| ->]| ->]| ->]; reflexivity. }
  specialize (Hch W). subst ch. discriminate.
Qed.

Lemma extractContent_single_line_witness :
  Forall (fun ch => is_line_terminator ch = false) (lit "The quick brown fox.  to  now")
  /\ trim (lit "The quick brown fox.  to  now") = lit "The quick brown fox.  to  now".
Proof.
  destruct (extractContent_single_line article_page
              {| content := lit "The quick brown fox.  to  now";
                 title := lit "Fox"; url := lit "https://example.org/fox";
                 wordCount := 6; extractedAt := lit "2024-01-01T00:00:00.000Z" |})
    as (_ & H2 & H3).
  - vm_compute. reflexivity.
  - split; assumption.
Defined.

End ContentTextFacts.

(** ** The text-density strategy *)

Module DensityFacts.
Import Content.

(** The loop of [densest], from any candidate it starts with. *)
Lemma densest_from m : forall best,
  snd best <= snd (fold_left densest_step m best)
  /\ (forall e d, In (e, d) m -> d <= snd (fold_left densest_step m best))
  /\ (fold_left densest_step m best = best
      \/ exists e, fst (fold_left densest_step m best) = Some e
                   /\ In (e, snd (fold_left densest_step m best)) m
                   /\ snd best < snd (fold_left densest_step m best)).
Proof.
  induction m as [|[k v] m IH]; intros best; cbn [fold_left].
  - split; [lia|]. split; [intros e d []|now left].
  - change (densest_step best (k, v))
      with (if snd best <? v then (Some k, v) else best).
    destruct (Nat.ltb_spec (snd best) v) as [Hlt|Hge].
    + destruct (IH (Some k, v)) as (H1 & H2 & H3). cbn [snd] in *.
      split; [lia|]. split.
      * intros e d [H|H]; [inversion H; subst; exact H1|now apply (H2 e)].
      * right. destruct H3 as [->|(e & He & Hin & Hs)].
        -- exists k. cbn. split; [reflexivity|]. split; [now left|lia].
        -- exists e. split; [exact He|]. split; [now right|lia].
    + destruct (IH best) as (H1 & H2 & H3).
      split; [exact H1|]. split.
      * intros e d [H|H]; [inversion H; subst; lia|now apply (H2 e)].
      * destruct H3 as [H3|(e & He & Hin & Hs)]; [now left|].
        right. exists e. split; [exact He|]. split; [now right|exact Hs].
Qed.

Lemma densest_spec m :
  (forall e d, In (e, d) m -> d <= snd (densest m))
  /\ (forall e, fst (densest m) = Some e ->
        In (e, snd (densest m)) m /\ 0 < snd (densest m))
  /\ (fst (densest m) = None -> forall e d, In (e, d) m -> d = 0).
Proof.
  destruct (densest_from m (None, 0)) as (_ & H2 & H3).
  change (fold_left densest_step m (None, 0)) with (densest m) in H2, H3.
  cbn [snd] in H3.
  split; [exact H2|]. split.
  - intros e He. destruct H3 as [H3|(e' & He' & Hin & Hs)].
    + rewrite H3 in He. discriminate.
    + rewrite He in He'. inversion He'; subst. auto.
  - intros Hn e d Hin. destruct H3 as [H3|(e' & He' & _)].
    + specialize (H2 e d Hin). rewrite H3 in H2. cbn in H2. lia.
    + rewrite Hn in He'. discriminate.
Qed.

(** The keys of the Map are elements below the body. *)
Lemma density_set_keys e v m k :
  In k (map fst (density_set e v m)) -> k = e \/ In k (map fst m).
Proof.
  induction m as [|[k0 v0] m IH]; cbn.
  - intros [H|[]]. now left.
  - destruct (Nat.eqb_spec k0 e); cbn.
    + intros [H|H]; [right; left; congruence|right; now right].
    + intros [H|H]; [right; now left|].
      destruct (IH H); [now left|right; now right].
Qed.

Lemma below_body_not_body doc element parent b :
  In parent (below_body doc element) -> body doc = Some b -> parent <> b.
Proof.
  unfold below_body. intros Hin Hb. rewrite Hb in Hin.
  induction (ancestors doc element) as [|a l IH]; [contradiction|].
  cbn in Hin. destruct (Nat.eqb_spec a b); cbn in Hin; [contradiction|].
  destruct Hin as [<-|Hin]; [assumption|now apply IH].
Qed.

Lemma densityMap_keys doc k b :
  In k (map fst (densityMap doc)) -> body doc = Some b -> k <> b.
Proof.
  unfold densityMap. intros Hin Hb.
  assert (G : forall elements m,
             (forall k, In k (map fst m) -> k <> b) ->
             forall k,
               In k (map fst
                       (fold_left
                          (fun m element =>
                             if isExcludedElement doc element then m
                             else fold_left (add_density doc element)
                                    (below_body doc element) m)
                          elements m)) -> k <> b).
  { induction elements as [|element elements IH]; intros m Hm; [exact Hm|].
    cbn [fold_left]. apply IH.
    destruct (isExcludedElement doc element); [exact Hm|].
    assert (P : forall parents m0,
               (forall p, In p parents -> p <> b) ->
               (forall k, In k (map fst m0) -> k <> b) ->
               forall k,
                 In k (map fst (fold_left (add_density doc element) parents m0)) ->
                 k <> b).
    { induction parents as [|p parents IHp]; intros m0 Hp Hm0; [exact Hm0|].
      cbn [fold_left]. apply IHp; [intros q Hq; apply Hp; now right|].
      intros k0 Hk0. unfold add_density in Hk0.
      apply density_set_keys in Hk0. destruct Hk0 as [->|Hk0];
        [apply Hp; now left|now apply Hm0]. }
    apply P; [|exact Hm].
    intros p Hp. eapply below_body_not_body; eauto. }
  eapply (G _ []); [intros k0 []|exact Hin].
Qed.

(** X2. When extractByTextDensity returns a text, it is the text of an
    element of the density map whose density exceeds 200 and is the largest
    of the map, and that element is not [document.body]; the strategy gives
    [null] exactly when no density exceeds 200. *)
Theorem extractByTextDensity_picks_densest (doc : Document) :
  (forall text,
      extractByTextDensity doc = Some text ->
      exists element density,
        In (element, density) (densityMap doc)
        /\ 200 < density
        /\ (forall e d, In (e, d) (densityMap doc) -> d <= density)
        /\ body doc <> Some element
        /\ text = extractTextFromElement doc element)
  /\ (extractByTextDensity doc = None <->
      forall e d, In (e, d) (densityMap doc) -> d <= 200).
Proof.
  unfold extractByTextDensity.
  destruct (densest_spec (densityMap doc)) as (Hmax & Hsome & Hnone).
  destruct (densest (densityMap doc)) as [[best|] maxDensity] eqn:E; cbn [fst snd] in *.
  - destruct (Hsome best eq_refl) as [Hin Hpos].
    destruct (Nat.ltb_spec 200 maxDensity) as [Hlt|Hge].
    + split.
      * intros text H. inversion H; subst text.
        exists best, maxDensity. repeat split; auto.
        intros Hb. eapply (densityMap_keys doc best best); eauto.
        apply in_map_iff. exists (best, maxDensity). auto.
      * split; [discriminate|]. intros H. specialize (H _ _ Hin). lia.
    + split; [discriminate|]. split; [|reflexivity].
      intros _ e d Hd. specialize (Hmax _ _ Hd). lia.
  - split; [discriminate|]. split; [|reflexivity].
    intros _ e d Hd. rewrite (Hnone eq_refl _ _ Hd). lia.
Qed.

Lemma extractByTextDensity_picks_densest_witness :
  exists element density,
    In (element, density) (densityMap Scenarios.dense_page) /\ 200 < density.
Proof.
  destruct (proj1 (extractByTextDensity_picks_densest Scenarios.dense_page)
              (repeat 97%N 300))
    as (element & density & H1 & H2 & _).
  - vm_compute. reflexivity.
  - exists element, density. split; assumption.
Defined.

End DensityFacts.

(** ** More on the rhyme generator *)

Module GeminiMoreFacts.
Import Gemini GeminiKey.
Import GeminiFacts.

(** *** Key points *)

(** X3. extractKeyPoints returns at most [maxPoints] key points; each one
    is longer than 10 code units, has no white space at its ends, holds
    none of the characters [.], [!] and [?], and occurs in the content. *)
Theorem extractKeyPoints_sound (content : jsstring) (maxPoints : nat) :
  length (extractKeyPoints content maxPoints) <= maxPoints
  /\ Forall (fun point =>
               10 < length point
               /\ trim point = point
               /\ Forall (fun c => is_sentence_end c = false) point
               /\ includes point content = true)
       (extractKeyPoints content maxPoints).
Proof.
  unfold extractKeyPoints, slice0. split.
  - rewrite length_map, length_firstn. lia.
  - apply Forall_map. apply Forall_firstn.
    apply Forall_forall. intros s Hs. apply filter_In in Hs. destruct Hs as [Hin Hlen].
    apply Nat.ltb_lt in Hlen.
    pose proof (split_re_pieces is_sentence_end content) as P.
    pose proof (split_re_infix is_sentence_end content) as I.
    rewrite Forall_forall in P, I.
    split; [exact Hlen|]. split; [apply trim_idem|].
    split; [apply Forall_trim, P, Hin|].
    eapply includes_trans; [apply includes_trim|apply I, Hin].
Qed.

(** *** The retry loop in general *)

Lemma record_event_frame e w :
  backend (record_event e w) = backend w
  /\ log (record_event e w) = log w ++ [e]
  /\ storedKey (record_event e w) = storedKey w
  /\ apiKey (record_event e w) = apiKey w
  /\ clock (record_event e w) = clock w.
Proof. repeat split. Qed.

Lemma callGeminiAPI_from_trace j : forall left prompt key attempt w,
  j <= left ->
  (forall i, i < j -> fails (backend w (fetches w + i) key prompt) = true) ->
  (j < left -> fails (backend w (fetches w + j) key prompt) = false) ->
  let r := callGeminiAPI_from left prompt key attempt w in
  fst r = outcome (backend w (fetches w + j) key prompt)
  /\ log (snd r) = log w ++ retry_trace key prompt attempt j
  /\ fetches (snd r) = fetches w + S j
  /\ backend (snd r) = backend w
  /\ apiKey (snd r) = apiKey w.
Proof.
  induction j as [|j IH]; intros left prompt key attempt w Hj Hfail Hlast;
    cbv zeta; rewrite callGeminiAPI_from_run; cbv zeta.
  - rewrite Nat.add_0_r in *.
    destruct (backend w (fetches w) key prompt) eqn:E; simpl outcome;
      try (destruct left as [|left];
           [cbn; repeat split; lia
           |specialize (Hlast ltac:(lia)); discriminate]).
    cbn. repeat split; lia.
  - destruct left as [|left]; [lia|].
    destruct (fails_outcome (backend w (fetches w) key prompt)) as [e He].
    { specialize (Hfail 0 ltac:(lia)). now rewrite Nat.add_0_r in Hfail. }
    rewrite He.
    set (w1 := record_event (EvDelay (retryDelay * attempt))
                 (record_event (EvFetch key prompt) w)).
    assert (Hb : backend w1 = backend w) by reflexivity.
    assert (Hf : fetches w1 = S (fetches w)) by reflexivity.
    destruct (IH left prompt key (attempt + 1) w1) as (H1 & H2 & H3 & H4 & H5).
    + lia.
    + intros i Hi. rewrite Hb, Hf.
      replace (S (fetches w) + i) with (fetches w + S i) by lia.
      apply Hfail. lia.
    + intros Hlt. rewrite Hb, Hf.
      replace (S (fetches w) + j) with (fetches w + S j) by lia.
      apply Hlast. lia.
    + rewrite Hb, Hf in *.
      replace (S (fetches w) + j) with (fetches w + S j) in H1 by lia.
      split; [exact H1|]. split.
      { rewrite H2. unfold w1. cbn [log record_event retry_trace].
        rewrite <- !app_assoc. reflexivity. }
      split; [lia|]. split; [exact H4|exact H5].
Qed.

(** X4. callGeminiAPI called with [attempt] allows [maxRetries - attempt]
    retries. If the first [j] requests fail and the next one answers, with
    [j] within the allowance, the call returns that answer after [j + 1]
    requests, having waited [retryDelay * attempt], then
    [retryDelay * (attempt + 1)], and so on between them. If all the requests
    fail, the call sends one more request than the allowance and throws the
    error of the last attempt; with [attempt >= maxRetries] this is a
    single request and no delay. *)
Theorem callGeminiAPI_retries (prompt key : jsstring) (attempt : nat) (w : World) :
  let reply i := backend w (fetches w + i) key prompt in
  let left := maxRetries - attempt in
  (forall j text,
      j <= left ->
      (forall i, i < j -> fails (reply i) = true) ->
      reply j = ReplyText text ->
      let r := callGeminiAPI prompt key attempt w in
      fst r = Normal text
      /\ log (snd r) = log w ++ retry_trace key prompt attempt j
      /\ fetches (snd r) = fetches w + S j)
  /\ ((forall i, i <= left -> fails (reply i) = true) ->
      let r := callGeminiAPI prompt key attempt w in
      fst r = outcome (reply left)
      /\ (exists e, fst r = Throw e)
      /\ log (snd r) = log w ++ retry_trace key prompt attempt left
      /\ fetches (snd r) = fetches w + S left).
Proof.
  cbv zeta. split.
  - intros j text Hj Hfail Hreply. unfold callGeminiAPI.
    destruct (callGeminiAPI_from_trace j (maxRetries - attempt) prompt key attempt w)
      as (H1 & H2 & H3 & _); auto.
    { intros _. now rewrite Hreply. }
    rewrite Hreply in H1. auto.
  - intros Hfail. unfold callGeminiAPI.
    destruct (callGeminiAPI_from_trace (maxRetries - attempt) (maxRetries - attempt)
                prompt key attempt w)
      as (H1 & H2 & H3 & _); auto.
    { intros i Hi. apply Hfail. lia. }
    { lia. }
    split; [exact H1|]. split; [|auto].
    rewrite H1. apply fails_outcome, Hfail. lia.
Qed.

Lemma callGeminiAPI_retries_witness :
  fst (callGeminiAPI (lit "p") (lit "k") 1 world_flaky) = Normal (VStr (lit "Here's your song: la la"))
  /\ fetches (snd (callGeminiAPI (lit "p") (lit "k") 1 world_flaky)) = 3
  /\ fetches (snd (callGeminiAPI (lit "p") (lit "k") 3 world_down)) = 1.
Proof.
  pose proof (callGeminiAPI_retries (lit "p") (lit "k") 1 world_flaky) as [H _].
  specialize (H 2 (VStr (lit "Here's your song: la la"))).
  destruct H as (H1 & _ & H3).
  - vm_compute. lia.
  - intros i Hi. destruct i as [|[|i]]; [reflexivity|reflexivity|lia].
  - reflexivity.
  - pose proof (callGeminiAPI_retries (lit "p") (lit "k") 3 world_down) as [_ H].
    destruct H as (_ & _ & _ & H4).
    + intros i _. reflexivity.
    + split; [exact H1|]. split; [exact H3|exact H4].
Defined.

Lemma assoc_not_In {A} (table : list (jsstring * A)) key :
  ~ In key (map fst table) -> assoc table key = None.
Proof.
  induction table as [|[k v] rest IH]; simpl; intros H; [reflexivity|].
  destruct (str_eqb k key) eqn:E.
  - apply str_eqb_eq in E. tauto.
  - apply IH. tauto.
Qed.

Lemma get_absent {A} (table : list (jsstring * A)) key :
  ~ In key (map fst table) -> is_prototype_key key = false -> get table key = Absent.
Proof.
  intros H P. unfold get. now rewrite (assoc_not_In _ _ H), P.
Qed.

Lemma includes_here2 x y b : includes (x ++ y) (x ++ y ++ b) = true.
Proof. rewrite app_assoc. apply includes_here. Qed.

(** X5. Keys missing from the tables of createPrompt. A style outside
    the table makes createPrompt throw the TypeError of reading [examples]
    of [undefined]; a length outside the table, that of reading [lines]; a
    tone outside the table does not throw and is printed as [undefined],
    three times. When createPrompt throws, transformToRhyme returns the
    failure result with the message of the exception and the local fallback,
    and sends no request. (The style, length or tone is not the name of a
    member of [Object.prototype].) *)
Theorem createPrompt_missing_keys :
  (forall content style length tone title customInstructions,
      ~ In style styles -> is_prototype_key style = false ->
      createPrompt content style length tone title customInstructions
      = Throw (TypeError (lit "Cannot read properties of undefined (reading 'examples')")))
  /\ (forall content style length tone title customInstructions,
      In style styles ->
      ~ In length lengths -> is_prototype_key length = false ->
      createPrompt content style length tone title customInstructions
      = Throw (TypeError (lit "Cannot read properties of undefined (reading 'lines')")))
  /\ (forall content style length tone title customInstructions,
      In style styles -> In length lengths ->
      ~ In tone tones -> is_prototype_key tone = false ->
      exists prompt,
        createPrompt content style length tone title customInstructions = Normal prompt
        /\ startsWith (lit "Transform the following content into a undefined ") prompt = true
        /\ includes (lit "- Tone: undefined") prompt = true
        /\ includes (lit "6. Make it undefined") prompt = true)
  /\ (forall content options w key e,
      let style := or_default (opt_style options) (lit "pop") in
      let length := or_default (opt_length options) (lit "medium") in
      let tone := or_default (opt_tone options) (lit "fun") in
      let title := or_default (opt_title options) [] in
      let customInstructions := or_default (opt_customInstructions options) [] in
      fst (getApiKey w) = Normal (Some key) ->
      createPrompt content style length tone title customInstructions = Throw e ->
      let r := transformToRhyme content options w in
      fst r = Normal (Failure (message e) (generateFallbackRhyme content style))
      /\ fetches (snd r) = fetches w
      /\ log (snd r) = log w).
Proof.
  split; [|split; [|split]].
  - intros content style length tone title customInstructions Hs Hp.
    unfold createPrompt. rewrite (get_absent styleGuides style Hs Hp). reflexivity.
  - intros content style length tone title customInstructions Hs Hl Hp.
    destruct (assoc_In styleGuides style Hs) as [guide Hg].
    unfold createPrompt.
    rewrite (get_own _ _ _ Hg), (get_absent lengthSpecs length Hl Hp). reflexivity.
  - intros content style length tone title customInstructions Hs Hl Ht Hp.
    destruct (assoc_In styleGuides style Hs) as [guide Hg].
    destruct (assoc_In lengthSpecs length Hl) as [spec Hsp].
    unfold createPrompt, tone_text.
    rewrite (get_own _ _ _ Hg), (get_own _ _ _ Hsp), (get_absent toneAdjectives tone Ht Hp).
    eexists. split; [reflexivity|]. unfold basePrompt.
    split; [|split].
    + reflexivity.
    + change (lit "- Tone: undefined") with (lit "- Tone: " ++ lit "undefined").
      repeat first [apply includes_here2 | apply includes_app_r].
    + change (lit "6. Make it undefined") with (lit "6. Make it " ++ lit "undefined").
      repeat first [apply includes_here2 | apply includes_app_r].
  - intros content options w key e style length tone title customInstructions Hk Hc r.
    unfold r. rewrite transformToRhyme_run. cbv zeta.
    destruct (getApiKey_frame w) as (_ & Hf & Hlog & _).
    rewrite Hk. fold style length tone title customInstructions. rewrite Hc.
    cbn [fst snd]. unfold failed. fold style. auto.
Qed.

Lemma createPrompt_missing_keys_witness :
  createPrompt fox (lit "jazz") (lit "medium") (lit "fun") [] []
  = Throw (TypeError (lit "Cannot read properties of undefined (reading 'examples')"))
  /\ createPrompt fox (lit "pop") (lit "tiny") (lit "fun") [] []
     = Throw (TypeError (lit "Cannot read properties of undefined (reading 'lines')"))
  /\ exists prompt,
       createPrompt fox (lit "pop") (lit "medium") (lit "funny") [] [] = Normal prompt
       /\ includes (lit "- Tone: undefined") prompt = true.
Proof.
  destruct createPrompt_missing_keys as (H1 & H2 & H3 & _).
  split; [|split].
  - apply H1; [|reflexivity]. vm_compute. intuition discriminate.
  - apply H2; [vm_compute; tauto| |reflexivity]. vm_compute. intuition discriminate.
  - destruct (H3 fox (lit "pop") (lit "medium") (lit "funny") [] [])
      as (prompt & Hp & _ & Ht & _).
    + vm_compute. tauto.
    + vm_compute. tauto.
    + vm_compute. intuition discriminate.
    + reflexivity.
    + exists prompt. split; assumption.
Defined.

Lemma strip_here_blank s : blank s -> strip_here s = s.
Proof.
  intros B. destruct B as [|c t W B]; [reflexivity|].
  unfold strip_here.
  change (lit "Here's") with (72%N :: lit "ere's").
  change (lit "Here is") with (72%N :: lit "ere is").
  rewrite !startsWith_ci_ws by (assumption || reflexivity). reflexivity.
Qed.

Lemma strip_label_blank s : blank s -> strip_label s = s.
Proof.
  intros B. destruct B as [|c t W B]; [reflexivity|].
  unfold strip_label.
  change (lit "Song:") with (83%N :: lit "ong:").
  change (lit "Rhyme:") with (82%N :: lit "hyme:").
  change (lit "Lyrics:") with (76%N :: lit "yrics:").
  rewrite !startsWith_ci_ws by (assumption || reflexivity). reflexivity.
Qed.

Lemma blank_suffix a b : blank (a ++ b) -> blank b.
Proof. intros H. apply Forall_app in H. tauto. Qed.

Lemma m_emphasis_blank delim s :
  (exists d rest, delim = d :: rest /\ is_ws d = false) ->
  blank s -> replaceAll (m_emphasis delim) s = s.
Proof.
  intros (d & rest & -> & Hd) B. apply replace_go_none.
  intros a b -> Hb. apply blank_suffix in B.
  destruct B as [|c t W B]; [congruence|].
  unfold m_emphasis. simpl.
  destruct (N.eqb_spec d c); [congruence|reflexivity].
Qed.

Lemma cleanResponse_blank s : blank s -> cleanResponse_str s = [].
Proof.
  intros B. unfold cleanResponse_str. destruct s as [|c t]; [reflexivity|].
  rewrite (strip_here_blank _ B), (strip_label_blank _ B).
  rewrite (m_emphasis_blank (lit "**") _) by (eauto || (exists 42%N, [42%N]; split; reflexivity)).
  rewrite (m_emphasis_blank (lit "*") _) by (eauto || (exists 42%N, []; split; reflexivity)).
  rewrite (trim_blank _ B). reflexivity.
Qed.

(** X6. When the service answers the first request with a text of white
    space only, or with a falsy value in place of the text, transformToRhyme
    reports a success whose rhyme is the empty string and whose word count
    is 0, after that one request. *)
Theorem blank_reply_is_success content options w key prompt reply :
  let style := or_default (opt_style options) (lit "pop") in
  let length := or_default (opt_length options) (lit "medium") in
  let tone := or_default (opt_tone options) (lit "fun") in
  let title := or_default (opt_title options) [] in
  let customInstructions := or_default (opt_customInstructions options) [] in
  fst (getApiKey w) = Normal (Some key) ->
  createPrompt content style length tone title customInstructions = Normal prompt ->
  backend w (fetches w) key prompt = ReplyText reply ->
  reply = VFalsy \/ (exists s, reply = VStr s /\ blank s) ->
  let r := transformToRhyme content options w in
  fst r = Normal (Success []
                    {| md_style := style; md_length := length; md_tone := tone;
                       wordCount := 0; generatedAt := clock w |})
  /\ log (snd r) = log w ++ [EvFetch key prompt].
Proof.
  intros style length tone title customInstructions Hk Hp Hb Hr r. unfold r.
  rewrite transformToRhyme_run. cbv zeta.
  destruct (getApiKey_frame w) as (Hbk & Hf & Hlog & Hc & _).
  rewrite Hk. fold style length tone title customInstructions. rewrite Hp.
  unfold callGeminiAPI. rewrite callGeminiAPI_from_run. cbv zeta.
  rewrite Hbk, Hf, Hb. cbn [outcome fst snd].
  assert (E : cleanResponse reply = Normal [] /\ countWords_val reply = Normal 0).
  { destruct Hr as [->|(s & -> & B)]; [split; reflexivity|].
    simpl. now rewrite (cleanResponse_blank s B), (countWords_blank s B). }
  destruct E as [-> ->]. cbn [fst snd log record_event clock].
  rewrite Hlog, Hc. auto.
Qed.

Lemma blank_reply_is_success_witness :
  exists md,
    fst (transformToRhyme fox pop_options Scenarios.world_blank)
    = Normal (Success [] md)
    /\ wordCount md = 0.
Proof.
  edestruct (blank_reply_is_success fox pop_options Scenarios.world_blank
               (lit "AIzaSy-0123456789-abcdefghij")) as [H _].
  - reflexivity.
  - reflexivity.
  - reflexivity.
  - right. eexists. split; [reflexivity|]. repeat constructor.
  - eexists. split; [exact H|reflexivity].
Defined.

(** *** cleanResponse never lengthens *)

Lemma skipn_length_le {A} n (l : list A) : length (skipn n l) <= length l.
Proof. rewrite length_skipn. lia. Qed.

Lemma after_colon_length s t : after_colon s = Some t -> length t <= length s.
Proof.
  revert t. induction s as [|c u IH]; intros t; simpl; [discriminate|].
  destruct (N.eqb c 58). { intros H. inversion H; subst. lia. }
  destruct (is_line_terminator c); [discriminate|].
  intros H. specialize (IH _ H). lia.
Qed.

Lemma strip_here_length s : length (strip_here s) <= length s.
Proof.
  unfold strip_here.
  destruct (startsWith_ci (lit "Here's") s).
  - destruct (after_colon (skipn 6 s)) as [t|] eqn:E; [|lia].
    pose proof (after_colon_length _ _ E). pose proof (trimStart_length t).
    pose proof (skipn_length_le 6 s). lia.
  - destruct (startsWith_ci (lit "Here is") s); [|lia].
    destruct (after_colon (skipn 7 s)) as [t|] eqn:E; [|lia].
    pose proof (after_colon_length _ _ E). pose proof (trimStart_length t).
    pose proof (skipn_length_le 7 s). lia.
Qed.

Lemma strip_label_length s : length (strip_label s) <= length s.
Proof.
  unfold strip_label.
  repeat match goal with
         | |- context [if ?b then _ else _] => destruct b
         end;
    try lia;
    match goal with
    | |- length (trimStart (skipn ?n s)) <= _ =>
        pose proof (trimStart_length (skipn n s));
        pose proof (skipn_length_le n s); lia
    end.
Qed.

Lemma startsWith_length p s : startsWith p s = true -> length p <= length s.
Proof.
  revert s. induction p as [|a p IH]; intros s; simpl; [lia|].
  destruct s as [|b s]; [discriminate|]. intros H.
  apply andb_true_iff in H. destruct H as [_ H]. specialize (IH _ H). simpl. lia.
Qed.

Lemma lazy_group_length close s g :
  lazy_group close s = Some g -> length g + length close <= length s.
Proof.
  revert g. induction s as [|c t IH]; intros g; simpl.
  - destruct (startsWith close []) eqn:E; [|discriminate].
    intros H. inversion H; subst. destruct close; [simpl; lia|discriminate].
  - destruct (startsWith close (c :: t)) eqn:E.
    + intros H. inversion H; subst.
      apply startsWith_length in E. simpl in *. lia.
    + destruct (is_line_terminator c); [discriminate|].
      destruct (lazy_group close t) as [g'|] eqn:G; [|discriminate].
      simpl. intros H. inversion H; subst. specialize (IH _ eq_refl). simpl. lia.
Qed.

Lemma m_emphasis_shrinking delim : shrinking (m_emphasis delim).
Proof.
  intros s rep n. unfold m_emphasis.
  destruct (nonempty delim) eqn:Ne; [|discriminate]. simpl.
  destruct (startsWith delim s) eqn:E; [|discriminate].
  destruct (lazy_group delim (skipn (length delim) s)) as [g|] eqn:G; [|discriminate].
  intros H. inversion H; subst.
  pose proof (lazy_group_length _ _ _ G) as L. rewrite length_skipn in L.
  pose proof (startsWith_length _ _ E).
  destruct delim; [discriminate|]. simpl in *. lia.
Qed.

Lemma takeWhile_length {A} (p : A -> bool) s : length (takeWhile p s) <= length s.
Proof. induction s as [|c t IH]; simpl; [lia|]. destruct (p c); simpl; lia. Qed.

Lemma last_lf_lt s i : last_lf s = Some i -> i < length s.
Proof.
  revert i. induction s as [|c t IH]; intros i; simpl; [discriminate|].
  destruct (last_lf t) as [j|].
  - intros H. inversion H; subst. specialize (IH _ eq_refl). lia.
  - destruct (N.eqb c 10); [|discriminate]. intros H. inversion H. lia.
Qed.

Lemma m_blank_lines_shrinking : shrinking m_blank_lines.
Proof.
  intros s rep n. unfold m_blank_lines. destruct s as [|c t]; [discriminate|].
  destruct (N.eqb c 10); [|discriminate].
  destruct (last_lf (takeWhile is_ws t)) as [i|] eqn:E; [|discriminate].
  intros H. inversion H; subst.
  pose proof (last_lf_lt _ _ E). pose proof (takeWhile_length is_ws t).
  simpl. lia.
Qed.

(** X7. cleanResponse never returns a text longer than the response it
    was given; a falsy response gives the empty string. *)
Theorem cleanResponse_never_longer (response : jsval) (s : jsstring) :
  cleanResponse response = Normal s ->
  match response with
  | VStr raw => length s <= length raw
  | _ => s = []
  end.
Proof.
  destruct response as [raw| |]; simpl; intros H; inversion H; [|reflexivity].
  unfold cleanResponse_str. destruct raw as [|c t]; [simpl; lia|].
  etransitivity; [apply replaceAll_length, m_blank_lines_shrinking|].
  etransitivity; [apply trim_length|].
  etransitivity; [apply replaceAll_length, m_emphasis_shrinking|].
  etransitivity; [apply replaceAll_length, m_emphasis_shrinking|].
  etransitivity; [apply strip_label_length|]. apply strip_here_length.
Qed.

Lemma cleanResponse_never_longer_witness :
  length (lit "la la") <= length (lit "Here's your song: la la").
Proof.
  apply (cleanResponse_never_longer (VStr (lit "Here's your song: la la")) (lit "la la")).
  vm_compute. reflexivity.
Defined.

Lemma callGeminiAPI_from_first left : forall prompt key attempt w,
  exists rest,
    log (snd (callGeminiAPI_from left prompt key attempt w))
    = log w ++ EvFetch key prompt :: rest.
Proof.
  induction left as [|left IH]; intros prompt key attempt w;
    rewrite callGeminiAPI_from_run; cbv zeta;
    destruct (outcome _); cbn [snd log record_event]; try (exists []; reflexivity).
  destruct (IH prompt key (attempt + 1)
              (record_event (EvDelay (retryDelay * attempt))
                 (record_event (EvFetch key prompt) w))) as [rest ->].
  cbn [log record_event]. rewrite <- !app_assoc. cbn [app]. eauto.
Qed.

(** X8. After [setApiKey(key)] with a non-empty key, getApiKey returns
    that key without reading the storage, and keeps returning it whatever
    the storage holds later; the first request of transformToRhyme carries
    it. After [setApiKey] of the empty string getApiKey returns [null].
    setApiKey stores the key and sends nothing. *)
Theorem setApiKey_round_trip (key : jsstring) (w : World) :
  let w1 := snd (setApiKey key w) in
  (key <> [] ->
     getApiKey w1 = (Normal (Some key), w1)
     /\ (forall stored,
           fst (getApiKey (set_storedKey stored w1)) = Normal (Some key))
     /\ (forall content options prompt,
           createPrompt content
             (or_default (opt_style options) (lit "pop"))
             (or_default (opt_length options) (lit "medium"))
             (or_default (opt_tone options) (lit "fun"))
             (or_default (opt_title options) [])
             (or_default (opt_customInstructions options) []) = Normal prompt ->
           exists rest,
             log (snd (transformToRhyme content options w1))
             = log w ++ EvFetch key prompt :: rest))
  /\ (key = [] -> fst (getApiKey w1) = Normal None)
  /\ storedKey w1 = Some key
  /\ log w1 = log w /\ fetches w1 = fetches w.
Proof.
  cbv zeta. unfold setApiKey, modify. cbn [snd].
  set (w1 := set_storedKey (Some key) (set_apiKey (Some key) w)).
  split; [|split; [|repeat split]].
  - intros Hk. destruct key as [|c k]; [contradiction|].
    split; [reflexivity|]. split; [reflexivity|].
    intros content options prompt Hp.
    rewrite transformToRhyme_run. cbv zeta.
    change (getApiKey w1) with (Normal (Some (c :: k)), w1). cbn [fst snd].
    rewrite Hp. unfold callGeminiAPI.
    destruct (callGeminiAPI_from_first (maxRetries - 1) prompt (c :: k) 1 w1)
      as [rest Hl].
    change (log w1) with (log w) in Hl.
    destruct (fst (callGeminiAPI_from _ _ _ _ w1)) as [response|e]; cbn [snd];
      [|eauto].
    destruct (cleanResponse response); [|cbn [snd]; eauto].
    destruct (countWords_val response); cbn [snd]; eauto.
  - intros ->. reflexivity.
Qed.

Lemma setApiKey_round_trip_witness :
  getApiKey (snd (setApiKey (lit "k1") world_no_key))
  = (Normal (Some (lit "k1")), snd (setApiKey (lit "k1") world_no_key))
  /\ fst (getApiKey (snd (setApiKey [] world_up))) = Normal None.
Proof.
  split.
  - apply (proj1 (setApiKey_round_trip (lit "k1") world_no_key)). discriminate.
  - apply (proj1 (proj2 (setApiKey_round_trip [] world_up))). reflexivity.
Defined.

Ltac lit_lengths :=
  repeat match goal with
         | |- context [length (lit ?s)] =>
             let n := eval vm_compute in (length (lit s)) in
             change (length (lit s)) with n
         end.

Lemma basePrompt_length toneDesc style title content guide spec customInstructions :
  length (basePrompt toneDesc style title content (Own guide) (Own spec)
            customInstructions)
  = 669 + 3 * length toneDesc + 2 * length style + length title
    + length (substring0 2500 content)
    + (length (examples guide) + length (rhythm guide) + length (rhymeScheme guide)
       + length (language guide) + length (structure guide))
    + (length (lines spec) + length (verses spec))
    + match customInstructions with
      | [] => 0
      | _ => 28 + length customInstructions
      end.
Proof.
  unfold basePrompt, field_text, newline. rewrite !length_app. lit_lengths.
  destruct customInstructions; rewrite ?length_app; lit_lengths; simpl length; lia.
Qed.

Lemma styleGuides_lengths style guide :
  assoc styleGuides style = Some guide ->
  2 * length style
  + (length (examples guide) + length (rhythm guide) + length (rhymeScheme guide)
     + length (language guide) + length (structure guide)) <= 184.
Proof.
  intros H. apply assoc_Some_In in H.
  assert (F : Forall (fun kv : jsstring * StyleGuide =>
                        2 * length (fst kv)
                        + (length (examples (snd kv)) + length (rhythm (snd kv))
                           + length (rhymeScheme (snd kv)) + length (language (snd kv))
                           + length (structure (snd kv))) <= 184) styleGuides).
  { repeat constructor; vm_compute; lia. }
  rewrite Forall_forall in F. apply (F _ H).
Qed.

Lemma lengthSpecs_lengths key spec :
  assoc lengthSpecs key = Some spec -> length (lines spec) + length (verses spec) <= 21.
Proof.
  intros H. apply assoc_Some_In in H.
  assert (F : Forall (fun kv : jsstring * LengthSpec =>
                        length (lines (snd kv)) + length (verses (snd kv)) <= 21)
                lengthSpecs).
  { repeat constructor; vm_compute; lia. }
  rewrite Forall_forall in F. apply (F _ H).
Qed.

Lemma toneAdjectives_lengths key adjectives :
  assoc toneAdjectives key = Some adjectives -> length adjectives <= 36.
Proof.
  intros H. apply assoc_Some_In in H.
  assert (F : Forall (fun kv : jsstring * jsstring => length (snd kv) <= 36)
                toneAdjectives).
  { repeat constructor; vm_compute; lia. }
  rewrite Forall_forall in F. apply (F _ H).
Qed.

(** X9. For a style, a length and a tone of the tables, createPrompt
    returns a prompt of at most 3510 code units more than the title and the
    custom instructions together, however long the content is: only the
    first 2500 code units of the content are read, so that appending to a
    content of 2500 code units or more leaves the prompt unchanged. *)
Theorem createPrompt_bounded
    (content style length_ tone title customInstructions : jsstring) :
  In style styles -> In length_ lengths -> In tone tones ->
  exists prompt,
    createPrompt content style length_ tone title customInstructions = Normal prompt
    /\ length prompt <= 3510 + length title + length customInstructions
    /\ createPrompt (substring0 2500 content) style length_ tone title customInstructions
       = Normal prompt
    /\ (forall more,
          2500 <= length content ->
          createPrompt (content ++ more) style length_ tone title customInstructions
          = Normal prompt).
Proof.
  intros Hs Hl Ht.
  destruct (assoc_In styleGuides style Hs) as [guide Hg].
  destruct (assoc_In lengthSpecs length_ Hl) as [spec Hsp].
  destruct (assoc_In toneAdjectives tone Ht) as [adj Ha].
  assert (E : forall c,
             createPrompt c style length_ tone title customInstructions
             = Normal (basePrompt adj style title c (Own guide) (Own spec)
                         customInstructions)).
  { intros c. unfold createPrompt, tone_text.
    now rewrite (get_own _ _ _ Hg), (get_own _ _ _ Hsp), (get_own _ _ _ Ha). }
  eexists. split; [apply E|]. split; [|split].
  - rewrite basePrompt_length.
    pose proof (styleGuides_lengths _ _ Hg).
    pose proof (lengthSpecs_lengths _ _ Hsp).
    pose proof (toneAdjectives_lengths _ _ Ha).
    assert (length (substring0 2500 content) <= 2500)
      by (unfold substring0; rewrite length_firstn; lia).
    destruct customInstructions; simpl length in *; lia.
  - rewrite E. unfold basePrompt, substring0. now rewrite firstn_firstn.
  - intros more Hlen. rewrite E. unfold basePrompt, substring0.
    rewrite firstn_app. replace (2500 - length content) with 0 by lia.
    now rewrite firstn_O, app_nil_r.
Qed.

Lemma createPrompt_bounded_witness :
  exists prompt,
    createPrompt (repeat 97%N 5000) (lit "pop") (lit "medium") (lit "fun") [] []
    = Normal prompt
    /\ length prompt <= 3510.
Proof.
  destruct (createPrompt_bounded (repeat 97%N 5000) (lit "pop") (lit "medium")
              (lit "fun") [] []) as (prompt & H1 & H2 & _).
  - vm_compute. tauto.
  - vm_compute. tauto.
  - vm_compute. tauto.
  - exists prompt. split; [exact H1|].
    change (length (@nil N)) with 0 in H2. lia.
Defined.

End GeminiMoreFacts.

(** ** The service, the storage and the cache of the audio generator *)

Module AudioServiceFacts.
Import Audio AudioService Settings.
Import AudioFacts AudioCacheFacts.

(** *** Collisions of the hash *)

Lemma hash_value_app a b : hash_value (a ++ b) = fold_left hash_step b (hash_value a).
Proof. unfold hash_value. apply fold_left_app. Qed.

Lemma hash_Aa_BB h :
  hash_step (hash_step h 65) 97 = hash_step (hash_step h 66) 66.
Proof.
  rewrite !hash_step_31. apply to_int32_congr.
  destruct (to_int32_shift (h * 31 + Z.of_N 65)) as [k1 ->].
  destruct (to_int32_shift (h * 31 + Z.of_N 66)) as [k2 ->].
  change (Z.of_N 65) with 65%Z. change (Z.of_N 66) with 66%Z.
  change (Z.of_N 97) with 97%Z.
  replace ((h * 31 + 65 + k1 * 2 ^ 32) * 31 + 97)%Z
    with (h * 961 + 2112 + (31 * k1) * 2^32)%Z by ring.
  replace ((h * 31 + 66 + k2 * 2 ^ 32) * 31 + 66)%Z
    with (h * 961 + 2112 + (31 * k2) * 2^32)%Z by ring.
  now rewrite !Z_mod_plus_full.
Qed.

Lemma cache_hit text style0 gender w cached :
  cache_get (createCacheKey text
               (match style0 with Some s => s | None => lit "pop" end) gender)
    (audioCache w) = Some cached ->
  generateAudio text style0 gender w = (Normal cached, w).
Proof. intros H. rewrite generateAudio_run. cbv zeta. now rewrite H. Qed.

(** X10. hashString is not injective, and the cache key holds nothing
    else of the text: replacing an occurrence of ["Aa"] by ["BB"] leaves the
    hash unchanged whatever comes before and after. Once the audio of a text
    has been generated and cached, a request for any text of the same hash,
    with the same style and gender, is served that cached audio and no
    backend is called. *)
Theorem colliding_texts_share_audio :
  (forall pre post : jsstring,
      hash_value (pre ++ lit "Aa" ++ post) = hash_value (pre ++ lit "BB" ++ post))
  /\ (forall text1 text2 style0 gender w result,
        let style := match style0 with Some s => s | None => lit "pop" end in
        hash_value text1 = hash_value text2 ->
        cache_get (createCacheKey text1 style gender) (audioCache w) = None ->
        fst (dispatch (currentService w) text1 style gender w) = Normal result ->
        let w1 := snd (generateAudio text1 style0 gender w) in
        generateAudio text2 style0 gender w1 = (Normal result, w1)).
Proof.
  split.
  - intros pre post. rewrite !hash_value_app, !fold_left_app.
    change (lit "Aa") with [65; 97]%N. change (lit "BB") with [66; 66]%N.
    cbn [fold_left]. now rewrite hash_Aa_BB.
  - intros text1 text2 style0 gender w result style Hh Hmiss Hd w1.
    apply cache_hit. fold style.
    assert (K : createCacheKey text2 style gender = createCacheKey text1 style gender).
    { unfold createCacheKey, hashString. now rewrite Hh. }
    rewrite K. unfold w1. rewrite generateAudio_run. cbv zeta. fold style.
    rewrite Hmiss, Hd. cbn [snd audioCache with_cache].
    apply cache_get_cacheAudio.
Qed.

Lemma colliding_texts_share_audio_witness :
  exists result,
    generateAudio (lit "BB") (Some (lit "pop")) None
      (snd (generateAudio (lit "Aa") (Some (lit "pop")) None world_speaking))
    = (Normal result,
       snd (generateAudio (lit "Aa") (Some (lit "pop")) None world_speaking))
    /\ audio result
       = Direct {| u_text := lit "Aa";
                   u_config := {| rate := 100; pitch := 100; volume := 80 |} |}.
Proof.
  eexists. split.
  - apply (proj2 colliding_texts_share_audio (lit "Aa") (lit "BB") (Some (lit "pop"))
             None world_speaking).
    + apply (proj1 colliding_texts_share_audio [] []).
    + reflexivity.
    + reflexivity.
  - reflexivity.
Defined.

(** *** A generator that was just constructed *)

Lemma generateWithBrowser_requests text style gender w :
  requests (snd (generateWithBrowser text style gender w)) = requests w.
Proof.
  unfold generateWithBrowser, bind, gets, modify, throw, ret, enter, recordSpeech.
  cbn -[getVoiceConfig].
  destruct (speechSynthesis w); cbn -[getVoiceConfig]; [|reflexivity].
  destruct (getVoiceConfig style); cbn; [|reflexivity].
  destruct (recording w (recordings w)); reflexivity.
Qed.

Lemma generateWithBrowser_service text style gender w result :
  fst (generateWithBrowser text style gender w) = Normal result ->
  service result = lit "browser" /\ success result = true.
Proof.
  destruct (generateWithBrowser_run text style gender w) as (w' & _ & ->).
  destruct (speechSynthesis w); [|discriminate].
  destruct (getVoiceConfig style); [|discriminate].
  cbn [fst]. intros H. inversion H. split; reflexivity.
Qed.

Lemma dispatch_browser svc text style gender w :
  service_call svc = CallBrowser ->
  dispatch svc text style gender w = generateWithBrowser text style gender w.
Proof.
  unfold service_call, dispatch.
  destruct (str_eqb svc (lit "elevenlabs")); [discriminate|].
  destruct (str_eqb svc (lit "google")); [discriminate|].
  destruct (str_eqb svc (lit "azure")); [discriminate|reflexivity].
Qed.

(** X11. A generator that was just constructed, as the popup constructs
    one for every rhyme, never sends a request to a remote service: its
    result, if any, comes from the browser backend, which is called once and
    whose result is the only cache entry; when generateAudio rejects, the
    browser backend was called twice and the cache is empty. *)
Theorem new_generator_is_local (host : World) (text : jsstring)
    (style0 gender : option jsstring) :
  let r := generateAudio text style0 gender (new_AudioGenerator host) in
  requests (snd r) = requests host
  /\ (forall result, fst r = Normal result ->
        service result = lit "browser" /\ success result = true
        /\ calls (snd r) = calls host ++ [CallBrowser]
        /\ audioCache (snd r)
           = [(createCacheKey text
                 (match style0 with Some s => s | None => lit "pop" end) gender,
               result)])
  /\ (forall e, fst r = Throw e ->
        calls (snd r) = calls host ++ [CallBrowser; CallBrowser]
        /\ audioCache (snd r) = []).
Proof.
  cbv zeta. rewrite generateAudio_run. cbv zeta.
  set (style := match style0 with Some s => s | None => lit "pop" end).
  set (w := new_AudioGenerator host).
  change (cache_get _ (audioCache w)) with (@None AudioResult). cbv iota.
  change (currentService w) with (lit "browser").
  rewrite dispatch_browser by reflexivity.
  pose proof (generateWithBrowser_requests text style gender w) as R1.
  destruct (generateWithBrowser_extends text style gender w) as (C1 & S1 & P1 & L1).
  set (w1 := snd (generateWithBrowser text style gender w)) in *.
  destruct (fst (generateWithBrowser text style gender w)) as [result|e] eqn:E.
  - cbn [fst snd requests calls audioCache with_cache].
    split; [exact R1|]. split; [|discriminate].
    intros result' H. inversion H; subst result'.
    destruct (generateWithBrowser_service _ _ _ _ _ E) as [H1 H2].
    repeat split; try assumption. rewrite C1. reflexivity.
  - pose proof (generateWithBrowser_requests text style gender w1) as R2.
    destruct (generateWithBrowser_extends text style gender w1) as (C2 & S2 & P2 & L2).
    split; [rewrite R2, R1; reflexivity|].
    assert (F : exists e', fst (generateWithBrowser text style gender w1) = Throw e').
    { destruct (generateWithBrowser_run text style gender w1) as (w' & _ & ->).
      destruct (generateWithBrowser_run text style gender w) as (w'' & _ & Hr).
      rewrite Hr in E. cbn [fst] in *. rewrite P1.
      destruct (speechSynthesis w); [|eauto].
      destruct (getVoiceConfig style); [discriminate|eauto]. }
    destruct F as [e' F]. split.
    + intros result H. rewrite F in H. discriminate.
    + intros e0 _. split.
      * rewrite L2, L1, <- app_assoc. reflexivity.
      * rewrite C2, C1. reflexivity.
Qed.

Lemma new_generator_is_local_witness :
  requests (snd (generateAudio (lit "la la") (Some (lit "pop")) (Some (lit "auto"))
                   (new_AudioGenerator Scenarios.world_configured))) = 0
  /\ exists result,
       fst (generateAudio (lit "la la") (Some (lit "pop")) (Some (lit "auto"))
              (new_AudioGenerator Scenarios.world_configured)) = Normal result
       /\ service result = lit "browser".
Proof.
  pose proof (new_generator_is_local Scenarios.world_configured (lit "la la")
                (Some (lit "pop")) (Some (lit "auto"))) as H.
  cbv zeta in H. destruct H as (H1 & H2 & _).
  split; [exact H1|].
  eexists. split; [reflexivity|]. exact (proj1 (H2 _ eq_refl)).
Defined.

(** *** setService and getCurrentService *)

Lemma supported_nonempty service : In service supportedServices -> service <> [].
Proof.
  intros H. simpl in H.
  destruct H as [<-|[<-|[<-|[<-|[]]]]]; discriminate.
Qed.

Lemma existsb_str_eqb service l :
  existsb (str_eqb service) l = true <-> In service l.
Proof.
  rewrite existsb_exists. split.
  - intros (x & Hx & E). apply str_eqb_eq in E. now subst.
  - intros H. exists service. split; [exact H|apply str_eqb_refl].
Qed.

Lemma getCurrentService_run w :
  getCurrentService w
  = (Normal (or_else (sync w (lit "audioService")) (lit "browser")),
     with_service (or_else (sync w (lit "audioService")) (lit "browser")) w).
Proof. reflexivity. Qed.

Lemma or_else_nonempty s d : s <> [] -> or_else (Some s) d = s.
Proof. destruct s; [contradiction|reflexivity]. Qed.

(** X12. setService accepts the four supported names only: for one of
    them the current service and the stored [audioService] become that name,
    the other keys of the storage keep their values, and getCurrentService
    returns the name; for any other name setService changes nothing. It
    never touches the cache. getCurrentService does not validate: a stored
    name that is not empty becomes the current service as it is, and a name
    that is none of the three remote services makes generateAudio use the
    browser backend. *)
Theorem setService_validates (service : jsstring) (w : World) :
  let w' := snd (setService service w) in
  (In service supportedServices ->
     currentService w' = service
     /\ sync w' (lit "audioService") = Some service
     /\ (forall key, key <> lit "audioService" -> sync w' key = sync w key)
     /\ getCurrentService w' = (Normal service, w'))
  /\ (~ In service supportedServices -> w' = w)
  /\ audioCache w' = audioCache w
  /\ (forall stored,
        sync w (lit "audioService") = Some stored -> stored <> [] ->
        let w2 := snd (getCurrentService w) in
        currentService w2 = stored
        /\ (service_call stored = CallBrowser ->
            forall text style gender,
              dispatch (currentService w2) text style gender w2
              = generateWithBrowser text style gender w2)).
Proof.
  cbv zeta.
  assert (G : forall stored,
             sync w (lit "audioService") = Some stored -> stored <> [] ->
             currentService (snd (getCurrentService w)) = stored
             /\ (service_call stored = CallBrowser ->
                 forall text style gender,
                   dispatch (currentService (snd (getCurrentService w))) text style
                     gender (snd (getCurrentService w))
                   = generateWithBrowser text style gender (snd (getCurrentService w)))).
  { intros stored Hs Hn. rewrite getCurrentService_run. cbn [snd].
    rewrite Hs, (or_else_nonempty _ _ Hn). cbn [currentService with_service].
    split; [reflexivity|]. intros Hc text style gender. now apply dispatch_browser. }
  unfold setService.
  destruct (existsb (str_eqb service) supportedServices) eqn:E.
  - apply existsb_str_eqb in E.
    cbn [snd modify currentService sync audioCache with_sync with_service].
    split; [|split; [|split]]; [|contradiction|reflexivity|exact G].
    intros _. split; [reflexivity|].
    assert (S : storage_set (lit "audioService") (Some service) (sync w)
                  (lit "audioService") = Some service).
    { unfold storage_set. now rewrite str_eqb_refl. }
    split; [exact S|]. split.
    + intros key Hk. unfold storage_set.
      destruct (str_eqb key (lit "audioService")) eqn:K; [|reflexivity].
      apply str_eqb_eq in K. contradiction.
    + rewrite getCurrentService_run.
      cbn [sync with_sync]. rewrite S.
      rewrite (or_else_nonempty _ _ (supported_nonempty service E)). reflexivity.
  - split; [|split; [|split]]; [|reflexivity|reflexivity|exact G].
    intros H. apply existsb_str_eqb in H. congruence.
Qed.

Lemma setService_validates_witness :
  currentService (snd (setService (lit "google") world_speaking)) = lit "google"
  /\ snd (setService (lit "polly") world_speaking) = world_speaking.
Proof.
  pose proof (setService_validates (lit "google") world_speaking) as H.
  pose proof (setService_validates (lit "polly") world_speaking) as H'.
  cbv zeta in H, H'. split.
  - apply (proj1 H). vm_compute. tauto.
  - apply (proj1 (proj2 H')). vm_compute. intuition discriminate.
Defined.

(** *** The cache outlives a change of service *)

(** X13. Changing the service does not invalidate the cache: after
    setService, a request whose key was in the cache is still answered with
    the cached result, and no backend is called. *)
Theorem cache_ignores_service (service text : jsstring) (style0 gender : option jsstring)
    (w : World) (cached : AudioResult) :
  let style := match style0 with Some s => s | None => lit "pop" end in
  cache_get (createCacheKey text style gender) (audioCache w) = Some cached ->
  let w' := snd (setService service w) in
  generateAudio text style0 gender w' = (Normal cached, w')
  /\ calls w' = calls w.
Proof.
  intros style H w'. split.
  - apply cache_hit. fold style. unfold w', setService.
    destruct (existsb _ _); exact H.
  - unfold w', setService. destruct (existsb _ _); reflexivity.
Qed.

Lemma cache_ignores_service_witness :
  exists cached,
    fst (generateAudio (lit "la la") None None
           (snd (setService (lit "elevenlabs")
                   (snd (generateAudio (lit "la la") None None world_speaking)))))
    = Normal cached
    /\ service cached = lit "browser".
Proof.
  edestruct (cache_ignores_service (lit "elevenlabs") (lit "la la") None None
               (snd (generateAudio (lit "la la") None None world_speaking)))
    as [E _].
  - vm_compute. reflexivity.
  - eexists. rewrite E. split; reflexivity.
Defined.

(** *** The keys of the settings page *)


Lemma saveSettings_other formData storage key :
  ~ In key (map lit ["audioService"; "azureRegion"; "azureApiKey"; "googleApiKey";
                     "elevenLabsApiKey"; "geminiApiKey"]%string) ->
  saveSettings formData storage key = storage key.
Proof.
  intros H. unfold saveSettings, storage_set.
  repeat match goal with
         | |- context [str_eqb key ?k] =>
             let E := fresh "E" in
             destruct (str_eqb key k) eqn:E;
             [apply str_eqb_eq in E; exfalso; apply H; subst key; simpl; tauto
             |clear E]
         end.
  reflexivity.
Qed.

Lemma elevenlabs_requests text style gender w :
  sync w (lit "elevenlabsApiKey") = None ->
  requests (snd (generateWithElevenLabs text style gender w)) = requests w
  /\ exists e, fst (generateWithElevenLabs text style gender w) = Throw e.
Proof.
  intros H. unfold generateWithElevenLabs, getApiKey, enter, bind, gets, modify, throw.
  cbn [sync with_counts].
  change (lit "elevenlabs" ++ lit "ApiKey") with (lit "elevenlabsApiKey").
  rewrite H. cbn. eauto.
Qed.

Lemma azure_requests text style gender w :
  sync w (lit "azureKey") = None ->
  requests (snd (generateWithAzure text style gender w)) = requests w
  /\ exists e, fst (generateWithAzure text style gender w) = Throw e.
Proof.
  intros H. unfold generateWithAzure, enter, bind, gets, modify, throw.
  cbn [sync with_counts]. rewrite H. cbn. eauto.
Qed.

Lemma google_requests text style gender w :
  (forall s g, getGoogleVoiceConfig w s g <> None) ->
  requests (snd (generateWithGoogle text style gender w)) = requests w
  /\ exists e, fst (generateWithGoogle text style gender w) = Throw e.
Proof.
  intros H. unfold generateWithGoogle, getApiKey, enter, bind, gets, modify, throw.
  cbn [sync with_counts getGoogleVoiceConfig].
  destruct (truthy _); [|cbn; eauto].
  specialize (H style gender). cbv beta. cbn [getGoogleVoiceConfig with_counts].
  destruct (getGoogleVoiceConfig w style gender); [cbn; eauto|congruence].
Qed.

(** X14. The settings page stores the keys of the remote services under
    [elevenLabsApiKey], [googleApiKey] and [azureApiKey], and the generator
    reads [elevenlabsApiKey], [googleApiKey] and [azureKey]. With a storage
    written by saveSettings only, generateAudio never sends a request to a
    remote service, whichever service is selected: ElevenLabs and Azure find
    no key, and for Google the call of getGoogleVoiceConfig, a method that
    the class does not define, throws before the request. On a cache miss
    the result comes from the browser backend. *)
Theorem settings_keys_never_reach_remote
    (formData : FormData) (storage : jsstring -> option jsstring)
    (text : jsstring) (style0 gender : option jsstring) (w : World) :
  storage (lit "elevenlabsApiKey") = None ->
  storage (lit "azureKey") = None ->
  sync w = saveSettings formData storage ->
  (currentService w = lit "google" -> forall s g, getGoogleVoiceConfig w s g <> None) ->
  let r := generateAudio text style0 gender w in
  requests (snd r) = requests w
  /\ (cache_get (createCacheKey text
                   (match style0 with Some s => s | None => lit "pop" end) gender)
        (audioCache w) = None ->
      (forall result, fst r = Normal result -> service result = lit "browser")
      /\ last (calls (snd r)) CallBrowser = CallBrowser).
Proof.
  intros He Ha Hs Hg r. unfold r. clear r.
  assert (Se : sync w (lit "elevenlabsApiKey") = None).
  { rewrite Hs, saveSettings_other; [exact He|].
    simpl. intros [H|[H|[H|[H|[H|[H|[]]]]]]]; vm_compute in H; discriminate. }
  assert (Sa : sync w (lit "azureKey") = None).
  { rewrite Hs, saveSettings_other; [exact Ha|].
    simpl. intros [H|[H|[H|[H|[H|[H|[]]]]]]]; vm_compute in H; discriminate. }
  rewrite generateAudio_run. cbv zeta.
  set (style := match style0 with Some s => s | None => lit "pop" end).
  destruct (cache_get _ (audioCache w)) as [cached|].
  { cbn [fst snd]. split; [reflexivity|discriminate]. }
  assert (D : (requests (snd (dispatch (currentService w) text style gender w))
               = requests w)
              /\ ((exists e, fst (dispatch (currentService w) text style gender w)
                             = Throw e)
                  \/ dispatch (currentService w) text style gender w
                     = generateWithBrowser text style gender w)).
  { unfold dispatch.
    destruct (str_eqb (currentService w) (lit "elevenlabs")).
    { destruct (elevenlabs_requests text style gender w Se); auto. }
    destruct (str_eqb (currentService w) (lit "google")) eqn:G.
    { apply str_eqb_eq in G.
      destruct (google_requests text style gender w (Hg G)); auto. }
    destruct (str_eqb (currentService w) (lit "azure")).
    { destruct (azure_requests text style gender w Sa); auto. }
    split; [apply generateWithBrowser_requests|auto]. }
  destruct D as [D1 D2].
  destruct (dispatch_extends (currentService w) text style gender w) as (_ & _ & _ & L).
  set (w1 := snd (dispatch (currentService w) text style gender w)) in *.
  destruct (fst (dispatch (currentService w) text style gender w)) as [result|e] eqn:E.
  - cbn [fst snd requests with_cache calls]. split; [exact D1|]. intros _.
    destruct D2 as [[e D2]|D2]; [discriminate|].
    assert (L' : calls w1 = calls w ++ [CallBrowser]).
    { unfold w1. rewrite D2.
      now destruct (generateWithBrowser_extends text style gender w) as (_ & _ & _ & ->). }
    split.
    + intros result' H. inversion H; subst result'. rewrite D2 in E.
      now apply generateWithBrowser_service in E.
    + rewrite L'. apply last_last.
  - split.
    + rewrite generateWithBrowser_requests. exact D1.
    + intros _. split.
      * intros result H. now apply generateWithBrowser_service in H.
      * destruct (generateWithBrowser_extends text style gender w1) as (_ & _ & _ & ->).
        apply last_last.
Qed.

Lemma settings_keys_never_reach_remote_witness :
  requests (snd (generateAudio (lit "la la") None None Scenarios.world_configured)) = 0.
Proof.
  pose proof (settings_keys_never_reach_remote Scenarios.all_keys no_storage
                (lit "la la") None None Scenarios.world_configured) as H.
  cbv zeta in H. apply H; try reflexivity.
  intros E. vm_compute in E. discriminate.
Defined.

End AudioServiceFacts.

(** ** The choice of a voice *)

Module VoiceFacts.
Import AudioService.

Lemma preferred_In preferences voices v :
  preferred preferences voices = Some v -> In v voices.
Proof.
  induction preferences as [|p ps IH]; simpl; [discriminate|].
  destruct (find (named p) voices) as [m|] eqn:F.
  - intros H. inversion H; subst. apply find_some in F. tauto.
  - exact IH.
Qed.

Lemma filter_head_In {A} (f : A -> bool) l a rest :
  filter f l = a :: rest -> In a l /\ f a = true.
Proof.
  intros H. apply filter_In. rewrite H. now left.
Qed.

(** selectVoice, for a style that is not a member of [Object.prototype]. *)
Lemma selectVoice_run voices style preferredGender :
  is_prototype_key style = false ->
  selectVoice voices style preferredGender
  = Normal
      match filter english voices with
      | [] => None
      | first :: rest =>
          Some
            match preferred
                    (match assoc stylePreferences style with Some p => p | None => [] end)
                    (first :: rest) with
            | Some matchingVoice => matchingVoice
            | None =>
                hd first
                  (filter (gender_filter
                             (match preferredGender with
                              | Some g => g
                              | None => lit "female"
                              end))
                     (first :: rest))
            end
      end.
Proof.
  intros Hp. unfold selectVoice, get.
  destruct (filter english voices) as [|first rest]; [reflexivity|].
  destruct (assoc stylePreferences style) as [p|].
  - destruct (preferred p (first :: rest)); [reflexivity|].
    destruct (filter _ (first :: rest)); reflexivity.
  - rewrite Hp. cbn [preferred].
    destruct (filter _ (first :: rest)); reflexivity.
Qed.

(** X15. For a style that is not the name of a member of
    [Object.prototype], selectVoice returns [null] exactly when no voice has
    a language tag starting with ["en-"] and a non-empty name, and otherwise
    returns one of the voices given, with such a tag and name. *)
Theorem selectVoice_sound (voices : list Voice) (style : jsstring)
    (preferredGender : option jsstring) :
  is_prototype_key style = false ->
  exists selected,
    selectVoice voices style preferredGender = Normal selected
    /\ (selected = None <-> forall v, In v voices -> english v = false)
    /\ (forall v, selected = Some v -> In v voices /\ english v = true).
Proof.
  intros Hp. rewrite (selectVoice_run _ _ _ Hp).
  destruct (filter english voices) as [|first rest] eqn:F.
  - exists None. split; [reflexivity|]. split; [|discriminate].
    split; [|reflexivity]. intros _ v Hv.
    destruct (english v) eqn:E; [|reflexivity].
    assert (H : In v (filter english voices)) by (apply filter_In; auto).
    rewrite F in H. contradiction.
  - assert (Hin : forall u, In u (first :: rest) -> In u voices /\ english u = true).
    { intros u Hu. rewrite <- F in Hu. now apply filter_In in Hu. }
    eexists. split; [reflexivity|].
    assert (Hv : forall v,
               match preferred
                       (match assoc stylePreferences style with Some p => p | None => [] end)
                       (first :: rest) with
               | Some matchingVoice => matchingVoice
               | None =>
                   hd first
                     (filter (gender_filter
                                (match preferredGender with
                                 | Some g => g
                                 | None => lit "female"
                                 end))
                        (first :: rest))
               end = v -> In v voices /\ english v = true).
    { intros v <-. apply Hin.
      destruct (preferred _ (first :: rest)) as [m|] eqn:P;
        [eapply preferred_In; eauto|].
      destruct (filter _ (first :: rest)) as [|g gs] eqn:G; [now left|].
      apply (filter_head_In _ _ _ _ G). }
    split.
    + split; [discriminate|]. intros H. exfalso.
      destruct (Hv _ eq_refl) as [H1 H2]. rewrite (H _ H1) in H2. discriminate.
    + intros v H. inversion H. now apply Hv.
Qed.

Lemma selectVoice_sound_witness :
  exists selected,
    selectVoice [Scenarios.thomas] (lit "pop") None = Normal selected
    /\ selected = None.
Proof.
  destruct (selectVoice_sound [Scenarios.thomas] (lit "pop") None eq_refl)
    as (selected & H1 & H2 & _).
  exists selected. split; [exact H1|]. apply H2.
  intros v [<-|[]]. reflexivity.
Defined.

Lemma male_accepts_female voice :
  gender_filter (lit "female") voice = true -> gender_filter (lit "male") voice = true.
Proof.
  unfold gender_filter.
  change (str_eqb (lit "female") (lit "male")) with false.
  change (str_eqb (lit "male") (lit "male")) with true. cbv iota.
  unfold named. rewrite !orb_true_iff. intros [H|H]; [left|right].
  - eapply includes_trans; [|exact H]. reflexivity.
  - eapply includes_trans; [|exact H]. reflexivity.
Qed.

(** X16. The test of the preferred gender ["male"] looks for ["male"]
    or ["man"] in the lower-cased name, and every name that contains
    ["female"] or ["woman"] contains one of them. So when no voice matches a
    preference of the style and the first English voice is named as a female
    or a woman, selectVoice called for a male voice returns that voice. *)
Theorem male_preference_takes_female_voice (voices : list Voice) (style : jsstring)
    (first : Voice) (rest : list Voice) :
  is_prototype_key style = false ->
  filter english voices = first :: rest ->
  preferred (match assoc stylePreferences style with Some p => p | None => [] end)
    (first :: rest) = None ->
  named (lit "female") first = true \/ named (lit "woman") first = true ->
  selectVoice voices style (Some (lit "male")) = Normal (Some first)
  /\ forall voice,
       gender_filter (lit "female") voice = true ->
       gender_filter (lit "male") voice = true.
Proof.
  intros Hp F P Hf. split; [|exact male_accepts_female].
  rewrite (selectVoice_run _ _ _ Hp), F, P.
  assert (M : gender_filter (lit "male") first = true).
  { apply male_accepts_female. unfold gender_filter.
    change (str_eqb (lit "female") (lit "male")) with false. cbv iota.
    apply orb_true_iff. exact Hf. }
  cbn [filter]. rewrite M. reflexivity.
Qed.

Lemma male_preference_takes_female_voice_witness :
  selectVoice [Scenarios.thomas; Scenarios.english_female; Scenarios.english_male]
    (lit "pop") (Some (lit "male")) = Normal (Some Scenarios.english_female).
Proof.
  apply (male_preference_takes_female_voice _ (lit "pop") Scenarios.english_female
           [Scenarios.english_male]).
  - reflexivity.
  - reflexivity.
  - vm_compute. reflexivity.
  - left. vm_compute. reflexivity.
Defined.

End VoiceFacts.

(** ** The proxy server *)

Module ServerFacts.
Import Server.

Lemma fetch_run key prompt w :
  fetch key prompt w
  = (Normal (gemini w key prompt),
     {| GEMINI_API_KEY := GEMINI_API_KEY w; gemini := gemini w;
        overLimit := overLimit w; sent := sent w ++ [(key, prompt)] |}).
Proof. reflexivity. Qed.

(** The route, by the branch taken. *)
Lemma api_run body w :
  api body w
  = if overLimit w
    then (Normal (Failed 429 (lit "Too many requests, please try again later.") None), w)
    else
      match truthy (content body) with
      | None => (Normal (Failed 400 (lit "Content is required") None), w)
      | Some text =>
          match truthy (GEMINI_API_KEY w) with
          | None => (Normal (Failed 500 (lit "API key not configured") None), w)
          | Some key =>
              let prompt :=
                createRhymePrompt text (style body) (tone body) (length_ body) in
              let w1 := snd (fetch key prompt w) in
              (Normal
                 match gemini w key prompt with
                 | Text (VStr (c :: generatedText)) =>
                     Succeeded (trim (c :: generatedText))
                 | FetchFails e | BodyFails e =>
                     Failed 500 (lit "Failed to generate rhyme") (Some (message e))
                 | Status status =>
                     Failed 500 (lit "Failed to generate rhyme")
                       (Some (lit "Gemini API error: " ++ dec (Z.of_N status)))
                 | Text (VStr []) | Text VFalsy =>
                     Failed 500 (lit "Failed to generate rhyme")
                       (Some (lit "No content generated"))
                 | Text VObject =>
                     Failed 500 (lit "Failed to generate rhyme")
                       (Some (lit "generatedText.trim is not a function"))
                 end, w1)
          end
      end.
Proof.
  unfold api, generate_rhyme, generate_try, try_catch, bind, gets, ret, throw.
  destruct (overLimit w) eqn:L; [reflexivity|].
  destruct (truthy (content body)) as [text|]; [|reflexivity].
  destruct (truthy (GEMINI_API_KEY w)) as [key|]; [|reflexivity].
  rewrite fetch_run. cbv zeta. cbn [fst snd].
  destruct (gemini w key _) as [e|status|e|[[|c t]| |]]; reflexivity.
Qed.





End ServerFacts.

(** ** More on the proxy-relay client *)

Module BackgroundMoreFacts.
Import Background.
Import BackgroundFacts.

Lemma generate_try_run data w :
  generate_try data w
  = if match content data with [] => true | c => length (trim c) <? 10 end
    then (Throw (Error (lit "Content is too short to transform")), w)
    else
      let w1 := {| proxy := proxy w; isoNow := isoNow w;
                   posts := posts w ++ [data] |} in
      match proxy w data with
      | Rejected e => (Throw e, w1)
      | NotOk status error =>
          (Throw (Error (or_else error (lit "Server error: " ++ dec (Z.of_N status)))), w1)
      | Unreadable e => (Throw e, w1)
      | Unsuccessful error =>
          (Throw (Error (or_else error (lit "Failed to generate rhyme"))), w1)
      | Generated text =>
          match countWords_val text with
          | Normal words =>
              (Normal {| rhyme := text;
                         metadata := {| md_style := style data;
                                        md_length := length_ data;
                                        md_tone := tone data; wordCount := words;
                                        generatedAt := isoNow w; fallback := false |};
                         audioUrl := None |}, w1)
          | Throw e => (Throw e, w1)
          end
      end.
Proof.
  unfold generate_try, fetch, bind, gets, modify, throw, ret, lift.
  destruct (match content data with [] => true | c => length (trim c) <? 10 end);
    [reflexivity|].
  cbv zeta. destruct (proxy w data) as [e|status error|e|error|text]; try reflexivity.
Qed.

(** handleRhymeGeneration with the state it leaves. *)
Lemma handleRhymeGeneration_state data w :
  handleRhymeGeneration data w
  = match generate_try data w with
    | (Normal result, w1) => (Normal result, w1)
    | (Throw _, w1) => (Normal (fallback_result data (isoNow w1)), w1)
    end.
Proof.
  unfold handleRhymeGeneration, try_catch.
  destruct (generate_try data w) as [[result|e] w1]; reflexivity.
Qed.

(** X18. handleRhymeGeneration sends no request when the trimmed content
    has fewer than 10 code units, and returns the fallback result at once;
    otherwise it sends exactly one request, with the data it was given. Its
    result never has an audio address. *)
Theorem handleRhymeGeneration_one_request (data : Request) (w : World) :
  let r := handleRhymeGeneration data w in
  (length (trim (content data)) < 10 ->
     r = (Normal (fallback_result data (isoNow w)), w))
  /\ (10 <= length (trim (content data)) ->
      posts (snd r) = posts w ++ [data])
  /\ (forall result, fst r = Normal result -> audioUrl result = None)
  /\ proxy (snd r) = proxy w
  /\ isoNow (snd r) = isoNow w.
Proof.
  cbv zeta. rewrite handleRhymeGeneration_state, generate_try_run. cbv zeta.
  assert (S : match content data with
              | [] => true
              | c => length (trim c) <? 10
              end = (length (trim (content data)) <? 10)).
  { destruct (content data); reflexivity. }
  rewrite S.
  destruct (Nat.ltb_spec (length (trim (content data))) 10) as [Hlt|Hge].
  - split; [reflexivity|]. split; [lia|]. split; [|split; reflexivity].
    cbn [fst]. intros result H. inversion H. reflexivity.
  - split; [lia|].
    destruct (proxy w data) as [e|status error|e|error|text];
      try (cbn [fst snd posts proxy isoNow];
           repeat split;
           intros result H; inversion H; reflexivity).
    destruct (countWords_val text);
      cbn [fst snd posts proxy isoNow];
      repeat split; intros result H; inversion H; reflexivity.
Qed.

Lemma handleRhymeGeneration_one_request_witness :
  posts (snd (handleRhymeGeneration fox_request world_offline)) = [fox_request].
Proof.
  pose proof (handleRhymeGeneration_one_request fox_request world_offline) as H.
  cbv zeta in H. apply (proj1 (proj2 H)). vm_compute. lia.
Defined.

Lemma split_re_head_sep sep c rest :
  sep c = true -> exists l, split_re sep (c :: rest) = [] :: l.
Proof.
  intros Hc. unfold split_re. cbn [split_go].
  destruct (split_go sep rest) as [p ps]. rewrite Hc.
  destruct rest as [|d t]; [eauto|]. destruct (sep d); eauto.
Qed.

(** X19. The fallback of the background script takes its key points from
    the first two pieces of the content only: there are at most two, each is
    non-empty, has no white space at its ends, holds none of [.], [!] and
    [?], and occurs in the content; when the content starts with one of
    these three characters the first piece is empty and at most one key
    point is left. *)
Theorem keyPoints_sound (content : jsstring) :
  length (keyPoints content) <= 2
  /\ Forall (fun point =>
               point <> []
               /\ trim point = point
               /\ Forall (fun c => is_sentence_end c = false) point
               /\ includes point content = true)
       (keyPoints content)
  /\ (forall c rest, content = c :: rest -> is_sentence_end c = true ->
        length (keyPoints content) <= 1).
Proof.
  unfold keyPoints, slice0. split; [|split].
  - etransitivity; [apply filter_length_le|].
    rewrite length_map, length_firstn. lia.
  - apply Forall_forall. intros point Hp.
    apply filter_In in Hp. destruct Hp as [Hin Hne].
    apply in_map_iff in Hin. destruct Hin as (s & <- & Hs).
    assert (Hs' : In s (split_re is_sentence_end content)).
    { revert Hs. generalize (split_re is_sentence_end content) as l. intros l.
      rewrite <- (firstn_skipn 2 l) at 2. intros H. apply in_or_app. now left. }
    pose proof (split_re_pieces is_sentence_end content) as P.
    pose proof (split_re_infix is_sentence_end content) as I.
    rewrite Forall_forall in P, I.
    split; [destruct (trim s); [discriminate|discriminate]|].
    split; [apply trim_idem|].
    split; [apply Forall_trim, P, Hs'|].
    eapply includes_trans; [apply includes_trim|apply I, Hs'].
  - intros c rest -> Hc.
    destruct (split_re_head_sep is_sentence_end c rest Hc) as [l ->].
    destruct l as [|a l]; cbn; [lia|].
    destruct (nonempty (trim a)); simpl; lia.
Qed.

Lemma keyPoints_sound_witness :
  length (keyPoints (lit "...Hello there. General Kenobi")) <= 1.
Proof.
  apply (proj2 (proj2 (keyPoints_sound (lit "...Hello there. General Kenobi")))
           46%N (lit "..Hello there. General Kenobi")); reflexivity.
Defined.

End BackgroundMoreFacts.

(** ** The client in front of the server *)

Module EndToEndFacts.
Import Background Server.
Import BackgroundFacts ServerFacts BackgroundMoreFacts.

Lemma fallback_is_text content style :
  is_prototype_key style = false ->
  exists text, generateFallbackRhyme content style = VStr text.
Proof.
  intros Hp. unfold generateFallbackRhyme, get. rewrite Hp.
  destruct (assoc _ _); eauto.
Qed.

Lemma served_400 server data response :
  fst (api (body_of data) server) = Normal response ->
  match response with
  | Failed 400 _ _ => length (trim (Background.content data)) < 10
  | _ => True
  end.
Proof.
  rewrite api_run.
  destruct (overLimit server); [intros H; inversion H; exact I|].
  cbn [body_of Server.content].
  destruct (Background.content data) as [|c0 t];
    [intros H; inversion H; vm_compute; lia|].
  cbn [truthy].
  destruct (truthy (GEMINI_API_KEY server)); [|intros H; inversion H; exact I].
  cbv zeta. cbn [fst].
  destruct (gemini server _ _) as [e|status|e|[[|c t']| |]];
    intros H; inversion H; exact I.
Qed.

(** What the client makes of the answer of the server. *)
Lemma served_run server now data :
  handleRhymeGeneration data (served server now)
  = let prompt :=
      createRhymePrompt (Background.content data) (Some (Background.style data))
        (Some (Background.tone data)) (Some (Background.length_ data)) in
    let w1 := {| proxy := proxy_via server; isoNow := now; posts := [data] |} in
    if match Background.content data with
       | [] => true
       | c => length (trim c) <? 10
       end
    then (Normal (fallback_result data now), served server now)
    else
      match overLimit server, truthy (GEMINI_API_KEY server) with
      | false, Some key =>
          match gemini server key prompt with
          | Text (VStr (c :: t)) =>
              (Normal {| rhyme := VStr (trim (c :: t));
                         metadata := {| md_style := Background.style data;
                                        md_length := Background.length_ data;
                                        md_tone := Background.tone data;
                                        wordCount := countWords (trim (c :: t));
                                        generatedAt := now; fallback := false |};
                         audioUrl := None |}, w1)
          | _ => (Normal (fallback_result data now), w1)
          end
      | _, _ => (Normal (fallback_result data now), w1)
      end.
Proof.
  rewrite handleRhymeGeneration_state, generate_try_run. cbv zeta.
  destruct (match Background.content data with
            | [] => true
            | c => length (trim c) <? 10
            end) eqn:Short; [reflexivity|].
  assert (T : truthy (Server.content (body_of data)) = Some (Background.content data)).
  { cbn [body_of Server.content].
    destruct (Background.content data); [discriminate|reflexivity]. }
  cbn [proxy served posts app isoNow]. unfold proxy_via. rewrite api_run, T.
  destruct (overLimit server); [reflexivity|].
  destruct (truthy (GEMINI_API_KEY server)) as [key|]; [|reflexivity].
  cbv zeta. cbn [fst body_of Server.style Server.tone Server.length_].
  destruct (gemini server key _) as [e|status|e|[[|c t]| |]]; reflexivity.
Qed.

Lemma served_text server now data :
  is_prototype_key (Background.style data) = false ->
  exists result text,
    fst (handleRhymeGeneration data (served server now)) = Normal result
    /\ rhyme result = VStr text.
Proof.
  intros Hp. rewrite served_run. cbv zeta.
  destruct (fallback_is_text (Background.content data) _ Hp) as [fb Hfb].
  assert (F : exists result text,
             Normal (fallback_result data now) = Normal result
             /\ rhyme result = VStr text).
  { exists (fallback_result data now), fb. split; [reflexivity|exact Hfb]. }
  destruct (match Background.content data with
            | [] => true
            | c => length (trim c) <? 10
            end); [exact F|].
  destruct (overLimit server); [exact F|].
  destruct (truthy (GEMINI_API_KEY server)) as [key|]; [|exact F].
  destruct (gemini server key _) as [e|status|e|[[|c t]| |]]; try exact F.
  eexists _, _. split; reflexivity.
Qed.

(** X20. The client of the background script in front of the proxy
    server of the repository. handleRhymeGeneration returns a result. When
    the result is not the fallback, the server had a key, the generative
    endpoint answered the prompt of the server with a non-empty text, and
    the rhyme is that text trimmed, counted by countWords. When it is the
    fallback, it is the fallback result for the data. For a style that is
    not the name of a member of [Object.prototype] the rhyme is a string in
    both cases. The server answers 400 only to a content that the client
    does not send, one of fewer than 10 code units once trimmed. *)
Theorem served_rhyme_is_text (server : Server.World) (now : jsstring)
    (data : Request) :
  let prompt :=
    createRhymePrompt (Background.content data) (Some (Background.style data))
      (Some (Background.tone data)) (Some (Background.length_ data)) in
  exists result,
    fst (handleRhymeGeneration data (served server now)) = Normal result
    /\ (fallback (metadata result) = false ->
        exists key text,
          truthy (GEMINI_API_KEY server) = Some key
          /\ gemini server key prompt = Text (VStr text)
          /\ text <> []
          /\ rhyme result = VStr (trim text)
          /\ wordCount (metadata result) = countWords (trim text))
    /\ (fallback (metadata result) = true ->
        result = fallback_result data now)
    /\ (is_prototype_key (Background.style data) = false ->
        exists text, rhyme result = VStr text)
    /\ (forall response,
          fst (api (body_of data) server) = Normal response ->
          match response with
          | Failed 400 _ _ => length (trim (Background.content data)) < 10
          | _ => True
          end).
Proof.
  cbv zeta. rewrite served_run. cbv zeta.
  assert (F : exists result,
             Normal (fallback_result data now) = Normal result
             /\ (fallback (metadata result) = false ->
                 exists key text,
                   truthy (GEMINI_API_KEY server) = Some key
                   /\ gemini server key
                        (createRhymePrompt (Background.content data)
                           (Some (Background.style data))
                           (Some (Background.tone data))
                           (Some (Background.length_ data))) = Text (VStr text)
                   /\ text <> []
                   /\ rhyme result = VStr (trim text)
                   /\ wordCount (metadata result) = countWords (trim text))
             /\ (fallback (metadata result) = true ->
                 result = fallback_result data now)
             /\ (is_prototype_key (Background.style data) = false ->
                 exists text, rhyme result = VStr text)
             /\ (forall response,
                   fst (api (body_of data) server) = Normal response ->
                   match response with
                   | Failed 400 _ _ => length (trim (Background.content data)) < 10
                   | _ => True
                   end)).
  { exists (fallback_result data now). split; [reflexivity|].
    split; [discriminate|]. split; [reflexivity|].
    split; [apply fallback_is_text|apply served_400]. }
  destruct (match Background.content data with
            | [] => true
            | c => length (trim c) <? 10
            end); [exact F|].
  destruct (overLimit server); [exact F|].
  destruct (truthy (GEMINI_API_KEY server)) as [key|]; [|exact F].
  destruct (gemini server key _) as [e|status|e|[[|c t]| |]] eqn:G; try exact F.
  eexists. split; [reflexivity|]. cbn [metadata fallback rhyme wordCount].
  split.
  - intros _. exists key, (c :: t). repeat split; auto. discriminate.
  - split; [discriminate|]. split; [eauto|apply served_400].
Qed.

Lemma served_rhyme_is_text_witness :
  exists result,
    fst (handleRhymeGeneration fox_request (served Scenarios.server_up Scenarios.now))
    = Normal result
    /\ rhyme result = VStr (lit "Roses are red").
Proof.
  pose proof (served_rhyme_is_text Scenarios.server_up Scenarios.now fox_request) as H.
  cbv zeta in H. destruct H as (result & H1 & H2 & _).
  exists result. split; [exact H1|].
  destruct H2 as (key & text & _ & Hg & _ & Hr & _).
  - vm_compute in H1. inversion H1. reflexivity.
  - rewrite Hr. cbn [gemini Scenarios.server_up] in Hg. inversion Hg. reflexivity.
Defined.

End EndToEndFacts.

(** ** The history list and the word count of the popup *)

Module PopupViewFacts.
Import Popup PopupView.
Import PopupFacts.

(** *** A negative limit *)

(** X21. With a negative [maxHistory] in the settings, saveToHistory
    cuts the list from its end: of the new item and the former history, the
    last [-maxHistory] entries are dropped, and when the former history is
    shorter than [-maxHistory] nothing is kept, the new rhyme included. *)
Theorem saveToHistory_negative_limit (p : Popup) (text : jsstring) (time m : Z) :
  settings_maxHistory p = Some m -> (m < 0)%Z ->
  let p' := saveToHistory text time p in
  history p'
  = firstn (Z.to_nat (Z.of_nat (S (length (history p))) + m))
      (historyItem p text time :: history p)
  /\ (Z.of_nat (length (history p)) < - m -> history p' = [])%Z
  /\ stored p' = history p'.
Proof.
  intros Hs Hm p'. unfold p', saveToHistory. cbn [history stored].
  assert (M : maxHistory p = m).
  { unfold maxHistory. rewrite Hs. destruct m; [lia|lia|reflexivity]. }
  rewrite M. unfold push_capped.
  destruct (Z.ltb_spec m (Z.of_nat (length (historyItem p text time :: history p))))
    as [_|H]; [|simpl length in H; lia].
  unfold slice_to. destruct (Z.ltb_spec m 0) as [_|H]; [|lia].
  cbn [length].
  split; [|split; [|reflexivity]].
  - f_equal. lia.
  - intros Hlen.
    replace (Z.to_nat (Z.max (Z.of_nat (S (length (history p))) + m) 0)) with 0 by lia.
    reflexivity.
Qed.

Lemma saveToHistory_negative_limit_witness :
  history (saveToHistory (lit "la") 0 Scenarios.popup_negative) = [].
Proof.
  apply (proj1 (proj2 (saveToHistory_negative_limit Scenarios.popup_negative
                         (lit "la") 0 (-5) eq_refl eq_refl))).
  reflexivity.
Defined.

(** *** The list shown *)

Lemma saveAll_stored rhymes : forall p,
  rhymes <> [] -> stored (saveAll rhymes p) = history (saveAll rhymes p).
Proof.
  induction rhymes as [|[[text t] iso] rest IH]; intros p Hne; [congruence|].
  cbn [saveAll]. destruct rest as [|r rest]; [reflexivity|].
  apply IH. discriminate.
Qed.

(** X22. The list that the popup shows. After a sequence of saves with a
    limit of 5 or more, a popup that loads the stored history shows the same
    five entries as the popup that saved: the most recent saves, newest
    first, followed by what the history held before if the saves are fewer
    than five. The preview of an entry has at most 63 code units. *)
Theorem recentHistory_after_saves (p q : Popup)
    (rhymes : list (jsstring * Z * jsstring)) :
  (5 <= maxHistory p)%Z ->
  rhymes <> [] ->
  stored q = stored (saveAll rhymes p) ->
  recentHistory (loadHistory q)
  = firstn 5 (rev (map (entry p) rhymes) ++ history p)
  /\ recentHistory (saveAll rhymes p) = recentHistory (loadHistory q)
  /\ (5 <= length rhymes ->
      recentHistory (loadHistory q) = firstn 5 (rev (map (entry p) rhymes)))
  /\ Forall (fun item => length (preview item) <= 63) (recentHistory (loadHistory q)).
Proof.
  intros Hm Hne Hq.
  assert (E : recentHistory (loadHistory q)
              = firstn 5 (rev (map (entry p) rhymes) ++ history p)).
  { unfold recentHistory, loadHistory, slice0. cbn [history].
    rewrite Hq, (saveAll_stored _ _ Hne).
    destruct (saveAll_history rhymes p ltac:(lia)) as [->|H]; [|contradiction].
    rewrite firstn_firstn. f_equal. lia. }
  split; [exact E|]. split; [|split].
  - rewrite E. unfold recentHistory, slice0.
    destruct (saveAll_history rhymes p ltac:(lia)) as [->|H]; [|contradiction].
    rewrite firstn_firstn. f_equal. lia.
  - intros Hlen. rewrite E, firstn_app.
    replace (5 - length (rev (map (entry p) rhymes))) with 0
      by (rewrite length_rev, length_map; lia).
    now rewrite firstn_O, app_nil_r.
  - apply Forall_forall. intros item _. unfold preview, substring0.
    rewrite length_app, length_firstn. change (length (lit "...")) with 3. lia.
Qed.

Lemma recentHistory_after_saves_witness :
  map id (recentHistory (loadHistory (saveAll rhymes26 popup0)))
  = map Z.of_nat [26; 25; 24; 23; 22].
Proof.
  rewrite (proj1 (recentHistory_after_saves popup0 (saveAll rhymes26 popup0) rhymes26
                    ltac:(vm_compute; discriminate) ltac:(vm_compute; discriminate)
                    eq_refl)).
  vm_compute. reflexivity.
Defined.

(** *** The word count shown *)

Lemma split_go_cons sep c t :
  split_go sep (c :: t)
  = let (p, ps) := split_go sep t in
    if sep c then
      match t with
      | d :: _ => if sep d then ([], ps) else ([], p :: ps)
      | [] => ([], p :: ps)
      end
    else (c :: p, ps).
Proof. reflexivity. Qed.

Lemma split_go_last sep s :
  s <> [] -> sep (last s 0%N) = false ->
  Forall (fun p => p <> []) (snd (split_go sep s))
  /\ (sep (hd 0%N s) = false -> fst (split_go sep s) <> []).
Proof.
  induction s as [|c t IH]; intros Hne Hlast; [congruence|].
  destruct t as [|d t'].
  - cbn in *. rewrite Hlast. cbn. split; [constructor|discriminate].
  - destruct IH as [IH1 IH2]; [discriminate|exact Hlast|].
    rewrite split_go_cons. destruct (split_go sep (d :: t')) as [p ps].
    cbn [fst snd hd] in *.
    destruct (sep c) eqn:C.
    + destruct (sep d) eqn:D; cbn [fst snd].
      * split; [exact IH1|discriminate].
      * split; [constructor; auto|discriminate].
    + cbn [fst snd]. split; [exact IH1|discriminate].
Qed.

Lemma filter_all {A} (f : A -> bool) l :
  Forall (fun a => f a = true) l -> filter f l = l.
Proof.
  induction 1 as [|a l H F IH]; cbn; [reflexivity|]. now rewrite H, IH.
Qed.

(** X23. The word count that displayRhyme shows is the number of pieces
    of [split(/\s+/)]; it equals countWords on a non-empty rhyme without
    white space at its ends, is never smaller than countWords, and is 1 for
    the empty rhyme, which countWords counts as 0. *)
Theorem displayedWordCount_agrees (rhymeText : jsstring) :
  (rhymeText <> [] -> trim rhymeText = rhymeText ->
   displayedWordCount rhymeText = countWords rhymeText)
  /\ countWords rhymeText <= displayedWordCount rhymeText
  /\ displayedWordCount [] = 1
  /\ countWords [] = 0.
Proof.
  split; [|split; [|split; reflexivity]].
  - intros Hne Ht. unfold displayedWordCount, countWords.
    destruct rhymeText as [|c t]; [congruence|].
    destruct (trim_ends (c :: t)) as [H1 H2]. rewrite Ht in H1, H2.
    assert (Hh : is_ws c = false) by (eapply H1; reflexivity).
    assert (Hl : is_ws (last (c :: t) 0%N) = false).
    { destruct (rev (c :: t)) as [|z r] eqn:R.
      - apply (f_equal (@length N)) in R. rewrite length_rev in R. discriminate.
      - assert (E : c :: t = rev r ++ [z]).
        { rewrite <- (rev_involutive (c :: t)), R. reflexivity. }
        rewrite E, last_last. eapply H2. reflexivity. }
    destruct (split_go_last is_ws (c :: t) ltac:(discriminate) Hl) as [P1 P2].
    specialize (P2 Hh). unfold split_re.
    destruct (split_go is_ws (c :: t)) as [p ps]. cbn [fst snd] in *.
    rewrite filter_all; [reflexivity|].
    constructor.
    + destruct p; [congruence|reflexivity].
    + eapply Forall_impl; [|exact P1]. intros a Ha. destruct a; [congruence|reflexivity].
  - unfold displayedWordCount, countWords.
    destruct rhymeText; [lia|]. apply filter_length_le.
Qed.

Lemma displayedWordCount_agrees_witness :
  displayedWordCount (lit "Roses are red") = countWords (lit "Roses are red").
Proof.
  apply (proj1 (displayedWordCount_agrees (lit "Roses are red")));
    [vm_compute; discriminate|reflexivity].
Defined.

End PopupViewFacts.

(** ** handleTransform *)

Module PipelineFacts.
Import Pipeline.

(** handleTransform, by what the two messages bring. *)
Lemma handleTransform_run h f :
  isProcessing f = false ->
  handleTransform h f
  = (Normal tt,
     match received (lit "Failed to extract content") (extraction h) with
     | Throw error => failed_extraction error f
     | Normal data =>
         match received (lit "Failed to generate rhyme")
                 (generation h (requestData data (Popup.form (popup f)))) with
         | Throw error => failed_generation data error f
         | Normal rhyme => completed data rhyme h f
         end
     end).
Proof.
  intros Hp. unfold handleTransform. rewrite Hp.
  unfold try_catch, transform_try, bind, modify, gets, lift, updateStatus,
    showError, displayRhyme, generateAudio, try_catch, bind, modify, lift, ret.
  cbn [isProcessing set_isProcessing popup content saveHistory statuses rhymeText
       audioControls].
  destruct (received (lit "Failed to extract content") (extraction h)) as [data|e].
  2: { cbn. unfold failed_extraction. rewrite <- !app_assoc. reflexivity. }
  cbn [set_currentContent popup Popup.form content isProcessing saveHistory statuses
       rhymeText audioControls].
  destruct (received (lit "Failed to generate rhyme") _) as [rhyme|e].
  2: { cbn. unfold failed_generation. rewrite <- !app_assoc. reflexivity. }
  unfold completed.
  destruct (audio h) as [[|]|e]; cbn;
    destruct (saveHistory f); cbn; rewrite <- !app_assoc; reflexivity.
Qed.

(** X24. handleTransform never rejects. Called while a run is in
    progress it changes nothing. Otherwise it ends with [isProcessing] reset;
    when both messages are answered with a success, the status is the ready
    message, the rhyme is on the page, and the history gets the new entry
    exactly when the setting [saveHistory] holds, whatever the audio step
    did; when a message fails, the status is the failure message, preceded
    by the message of the error, and the rhyme on the page, the history and
    the stored history are unchanged. A popup whose settings were never
    saved does not save to the history. *)
Theorem handleTransform_outcomes (h : Host) (f : Flow) :
  let f' := snd (handleTransform h f) in
  fst (handleTransform h f) = Normal tt
  /\ (isProcessing f = true -> f' = f)
  /\ (isProcessing f = false ->
      isProcessing f' = false
      /\ (forall data rhyme,
            received (lit "Failed to extract content") (extraction h) = Normal data ->
            received (lit "Failed to generate rhyme")
              (generation h (requestData data (Popup.form (popup f)))) = Normal rhyme ->
            status f' = lit "Ready! Your rhyme is complete."
            /\ rhymeText f' = Some rhyme
            /\ content f' = Some data
            /\ Popup.history (popup f')
               = if saveHistory f
                 then Popup.push_capped (Popup.maxHistory (popup f))
                        (Popup.historyItem (popup (set_currentContent data f)) rhyme
                           (generationTime h))
                        (Popup.history (popup f))
                 else Popup.history (popup f))
      /\ (forall error,
            received (lit "Failed to extract content") (extraction h) = Throw error
            \/ (exists data,
                  received (lit "Failed to extract content") (extraction h)
                  = Normal data
                  /\ received (lit "Failed to generate rhyme")
                       (generation h (requestData data (Popup.form (popup f))))
                     = Throw error) ->
            status f' = lit "Transform failed. Please try again."
            /\ includes (message error) (nth (length (statuses f') - 2) (statuses f') [])
               = true
            /\ rhymeText f' = rhymeText f
            /\ Popup.history (popup f') = Popup.history (popup f)
            /\ Popup.stored (popup f') = Popup.stored (popup f)))
  /\ (forall f0, f = loadSettings None f0 ->
        Popup.history (popup f') = Popup.history (popup f)).
Proof.
  cbv zeta. destruct (isProcessing f) eqn:P.
  { unfold handleTransform. rewrite P. cbn [fst snd].
    split; [reflexivity|]. split; [reflexivity|]. split; [discriminate|reflexivity]. }
  rewrite (handleTransform_run h f P). cbn [fst snd].
  split; [reflexivity|]. split; [discriminate|].
  split.
  - intros _. split; [|split].
    + destruct (received _ (extraction h)) as [data|e]; [|reflexivity].
      destruct (received _ (generation h _)); reflexivity.
    + intros data rhyme -> ->. unfold status, completed.
      cbn [statuses rhymeText content popup].
      split; [rewrite !app_assoc; apply last_last|].
      split; [reflexivity|]. split; [reflexivity|].
      destruct (saveHistory f); reflexivity.
    + intros error [->|(data & -> & ->)].
      * unfold status, failed_extraction. cbn [statuses rhymeText popup].
        split; [rewrite !app_assoc; apply last_last|].
        split; [|repeat split].
        rewrite !length_app. cbn [length].
        replace (length (statuses f) + (1 + (1 + 1)) - 2) with (length (statuses f) + 1)
          by lia.
        rewrite app_nth2 by lia.
        replace (length (statuses f) + 1 - length (statuses f)) with 1 by lia.
        match goal with
        | |- includes _ (nth 1 ([_] ++ [?y] ++ _) []) = true =>
            change (includes (message error) y = true)
        end.
        repeat first [apply includes_here | apply includes_app_r].
      * unfold status, failed_generation. cbn [statuses rhymeText popup].
        split; [rewrite !app_assoc; apply last_last|].
        split; [|repeat split].
        rewrite !length_app. cbn [length].
        replace (length (statuses f) + (1 + (1 + (1 + 1))) - 2)
          with (length (statuses f) + 2) by lia.
        rewrite app_nth2 by lia.
        replace (length (statuses f) + 2 - length (statuses f)) with 2 by lia.
        match goal with
        | |- includes _ (nth 2 ([_] ++ [_] ++ [?y] ++ _) []) = true =>
            change (includes (message error) y = true)
        end.
        repeat first [apply includes_here | apply includes_app_r].
  - intros f0 ->.
    destruct (received _ (extraction h)) as [data|e]; [|reflexivity].
    destruct (received _ (generation h _)); reflexivity.
Qed.

Lemma handleTransform_outcomes_witness :
  status (snd (handleTransform Scenarios.host_silent Scenarios.flow0))
  = lit "Transform failed. Please try again."
  /\ isProcessing (snd (handleTransform Scenarios.host_silent Scenarios.flow0)) = false.
Proof.
  pose proof (handleTransform_outcomes Scenarios.host_silent Scenarios.flow0) as H.
  cbv zeta in H. destruct H as (_ & _ & H & _).
  destruct (H eq_refl) as (H1 & _ & H3).
  split; [|exact H1].
  apply (H3 (TypeError (lit "Cannot read properties of undefined (reading 'success')"))).
  left. reflexivity.
Defined.

(** X25. The whole pipeline. With a content script in the tab and the
    proxy server behind the background script, whatever the page holds and
    whatever the server and the generative endpoint answer, handleTransform
    ends with the ready message and a rhyme on the page: the rhyme of the
    result of handleRhymeGeneration for the content that extractContent
    returned. With [saveHistory] set the rhyme is added to the history.
    (The style of the form is not the name of a member of
    [Object.prototype].) *)
Theorem pipeline_degrades_gracefully
    (doc : Content.Document) (server : Server.World) (now : jsstring)
    (h : Host) (f : Flow) :
  isProcessing f = false ->
  wired doc (Server.served server now) h ->
  is_prototype_key (Popup.style (Popup.form (popup f))) = false ->
  exists data result rhyme,
    Content.extractContent doc = Normal data
    /\ fst (Background.handleRhymeGeneration
              (requestData data (Popup.form (popup f))) (Server.served server now))
       = Normal result
    /\ Background.rhyme result = VStr rhyme
    /\ handleTransform h f = (Normal tt, completed data rhyme h f)
    /\ status (completed data rhyme h f) = lit "Ready! Your rhyme is complete."
    /\ rhymeText (completed data rhyme h f) = Some rhyme
    /\ (saveHistory f = true ->
        Popup.history (popup (completed data rhyme h f))
        = Popup.push_capped (Popup.maxHistory (popup f))
            (Popup.historyItem (popup (set_currentContent data f)) rhyme
               (generationTime h))
            (Popup.history (popup f))).
Proof.
  intros Hp [He Hg] Hs.
  assert (D : exists data, Content.extractContent doc = Normal data).
  { unfold Content.extractContent. destruct (Content.extract_try doc); eauto. }
  destruct D as [data D].
  destruct (EndToEndFacts.served_text server now
              (requestData data (Popup.form (popup f))) Hs)
    as (result & rhyme & Hr & Ht).
  exists data, result, rhyme.
  split; [exact D|]. split; [exact Hr|]. split; [exact Ht|].
  split; [|split; [|split]].
  - rewrite (handleTransform_run h f Hp), He.
    unfold background_onExtract, content_onMessage. rewrite D.
    cbn [received].
    rewrite (Hg _ (Delivered (Succeeded rhyme))).
    + reflexivity.
    + unfold background_onGenerate. now rewrite Hr, Ht.
  - unfold status, completed. cbn [statuses].
    rewrite !app_assoc. apply last_last.
  - reflexivity.
  - intros Hsave. unfold completed. cbn [popup]. rewrite Hsave. reflexivity.
Qed.

Lemma pipeline_degrades_gracefully_witness :
  exists data,
    handleTransform (Scenarios.host_of Scenarios.server_up) Scenarios.flow0
    = (Normal tt,
       completed data (lit "Roses are red") (Scenarios.host_of Scenarios.server_up)
         Scenarios.flow0).
Proof.
  destruct (pipeline_degrades_gracefully Content.article_page Scenarios.server_up
              Scenarios.now (Scenarios.host_of Scenarios.server_up) Scenarios.flow0)
    as (data & result & rhyme & Hd & Hr & Ht & Hh & _).
  - reflexivity.
  - split; [reflexivity|]. intros data d H.
    unfold Scenarios.host_of. cbn [generation]. now rewrite H.
  - reflexivity.
  - exists data. rewrite Hh. repeat f_equal.
    vm_compute in Hd. inversion Hd; subst data. clear Hd.
    vm_compute in Hr. inversion Hr; subst result. clear Hr.
    vm_compute in Ht. inversion Ht. reflexivity.
Defined.

End PipelineFacts.

(** ** The audio player *)

Module PlayerFacts.
Import Player.

Lemma clamp_range lo hi x :
  (0 <= lo <= hi)%Z -> (Z.to_N lo <= clamp lo hi x <= Z.to_N hi)%N.
Proof. unfold clamp. lia. Qed.

Lemma levels_set_levels v r m : levels_of (set_levels v r m) = (v, r).
Proof. destruct m; reflexivity. Qed.

Lemma showError_frame message st :
  let st' := snd (showError message st) in
  currentAudio st' = currentAudio st /\ isPlaying st' = isPlaying st
  /\ volume st' = volume st /\ playbackRate st' = playbackRate st
  /\ speech st' = speech st /\ currentTrack st' = currentTrack st.
Proof.
  unfold showError, bind, gets, modify, throw. destruct (container st); cbn; auto 10.
Qed.

Lemma consistent_showError message st :
  consistent st -> consistent (snd (showError message st)).
Proof.
  intros H. destruct (showError_frame message st) as (A & B & C & D & E & _).
  unfold consistent in *. cbv zeta in *. rewrite A, B, C, D, E. exact H.
Qed.

Lemma consistent_stop st : consistent st -> consistent (snd (stop st)).
Proof.
  unfold consistent, stop, bind, gets, modify, ret.
  destruct (currentAudio st) as [[u|e]|] eqn:A; cbn; rewrite ?A; auto.
Qed.

Lemma consistent_pause st : consistent st -> consistent (snd (pause st)).
Proof.
  unfold consistent, pause, bind, gets, modify, ret.
  destruct (currentAudio st) as [[u|e]|] eqn:A; cbn; rewrite ?A; auto.
Qed.

Lemma consistent_play resolves st : consistent st -> consistent (snd (play resolves st)).
Proof.
  intros H. unfold play, bind, gets.
  destruct (currentAudio st) as [[u|e]|] eqn:A.
  - unfold consistent in *. cbn. rewrite A in *. exact H.
  - destruct resolves; [|now apply consistent_showError].
    unfold consistent in *. cbn. rewrite A in *. exact H.
  - exact H.
Qed.

Lemma stop_frame st :
  let st' := snd (stop st) in
  volume st' = volume st /\ playbackRate st' = playbackRate st
  /\ container st' = container st
  /\ (currentAudio st = None -> st' = st)
  /\ (currentAudio st <> None -> isPlaying st' = false)
  /\ match currentAudio st, currentAudio st' with
     | Some (Speech u), Some (Speech u') => u' = u
     | Some (Sound e), Some (Sound e') => e' = set_paused true e
     | None, None => True
     | _, _ => False
     end.
Proof.
  unfold stop, bind, gets, modify, ret.
  destruct (currentAudio st) as [[u|e]|] eqn:A; cbn; rewrite ?A;
    repeat split; auto; congruence.
Qed.

Lemma consistent_loadTrack audio service metadata st :
  consistent st -> consistent (snd (loadTrack audio service metadata st)).
Proof.
  intros H. apply consistent_stop in H.
  unfold loadTrack, try_catch, bind, modify, throw, ret.
  destruct (stop st) as [[[]|e] st1]; cbn [fst snd] in *.
  2: { unfold bind. pose proof (consistent_showError (lit "Failed to load audio track") st1 H).
       destruct (showError _ st1) as [[[]|e'] st2]; exact H0. }
  destruct audio as [[blob|u]|].
  - unfold consistent in *. cbn. tauto.
  - unfold consistent in *. cbn. tauto.
  - cbn [fst snd]. unfold bind.
    assert (C : consistent (with_track (track_of service metadata) st1))
      by exact H.
    pose proof (consistent_showError (lit "Failed to load audio track") _ C) as H0.
    destruct (showError _ _) as [[[]|e'] st2]; exact H0.
Qed.

Lemma consistent_run c st : consistent st -> consistent (run c st).
Proof.
  intros H. destruct c as [audio service metadata|r| | |r|v|r| | | |]; cbn [run].
  - now apply consistent_loadTrack.
  - now apply consistent_play.
  - now apply consistent_pause.
  - now apply consistent_stop.
  - unfold togglePlayPause, bind, gets.
    destruct (currentAudio st) eqn:A; [|exact H].
    destruct (isPlaying st); [now apply consistent_pause|now apply consistent_play].
  - unfold setVolume, modify. cbn [snd].
    destruct H as (Hv & Hr & Hm).
    pose proof (clamp_range 0 100 v ltac:(lia)) as Hc.
    unfold consistent. cbn.
    split; [apply Hc|]. split; [exact Hr|].
    destruct (currentAudio st) as [m|]; cbn; [apply levels_set_levels|exact Hm].
  - unfold setPlaybackRate, modify. cbn [snd].
    destruct H as (Hv & Hr & Hm).
    pose proof (clamp_range 25 400 r ltac:(lia)) as Hc.
    unfold consistent. cbn.
    split; [exact Hv|]. split; [apply Hc|].
    destruct (currentAudio st) as [m|]; cbn; [apply levels_set_levels|exact Hm].
  - unfold onstart, bind, gets, modify, ret.
    destruct (currentAudio st) as [[u|e]|] eqn:A; cbn [snd]; try exact H.
    unfold consistent in *. cbn. rewrite A in *. exact H.
  - unfold onTrackEnded, modify. cbn [snd].
    unfold consistent in *. cbn.
    destruct (currentAudio st); tauto.
  - unfold onerror, bind, gets, ret.
    destruct (currentAudio st) as [[u|e]|] eqn:A; cbn [snd]; try exact H;
      now apply consistent_showError.
  - now apply consistent_stop.
Qed.

(** X26. The levels of the player. Whatever calls and events reach a new
    player, and in whatever order (the numbers given to setVolume and to
    setPlaybackRate being finite), its volume stays between 0 and 1 and its
    rate between 0.25 and 4, and the utterance or the element that is
    loaded carries the volume and the rate of the player. As long as no
    track has been loaded the player is not playing and speechSynthesis has
    not been called. *)
Theorem player_stays_consistent (hasContainer : bool) (calls : list Call) :
  let st := runs calls (new_AudioPlayer hasContainer) in
  (volume st <= 100)%N
  /\ (25 <= playbackRate st <= 400)%N
  /\ match currentAudio st with
     | Some (Speech u) =>
         Audio.volume (Audio.u_config u) = volume st
         /\ Audio.rate (Audio.u_config u) = playbackRate st
     | Some (Sound e) =>
         el_volume e = volume st /\ el_playbackRate e = playbackRate st
     | None => isPlaying st = false /\ speech st = []
     end.
Proof.
  cbv zeta.
  assert (C : consistent (runs calls (new_AudioPlayer hasContainer))).
  { unfold runs.
    assert (C0 : consistent (new_AudioPlayer hasContainer)).
    { unfold consistent. cbn. repeat split; lia. }
    revert C0. generalize (new_AudioPlayer hasContainer) as st.
    induction calls as [|c calls IH]; intros st C0; [exact C0|].
    cbn [fold_left]. apply IH. now apply consistent_run. }
  destruct C as (Hv & Hr & Hm).
  split; [exact Hv|]. split; [exact Hr|].
  destruct (currentAudio _) as [[u|e]|]; [| |exact Hm];
    cbn [levels_of] in Hm; inversion Hm; auto.
Qed.


Lemma stop_normal st : fst (stop st) = Normal tt.
Proof.
  unfold stop, bind, gets, modify, ret.
  destruct (currentAudio st) as [[u|e]|]; reflexivity.
Qed.

Lemma stop_more st :
  shown (snd (stop st)) = shown st
  /\ currentTrack (snd (stop st)) = currentTrack st
  /\ speech (snd (stop st))
     = match currentAudio st with
       | Some (Speech _) => speech st ++ [Cancel]
       | _ => speech st
       end.
Proof.
  unfold stop, bind, gets, modify, ret.
  destruct (currentAudio st) as [[u|e]|]; cbn; auto.
Qed.

Lemma loadTrack_some p service metadata st :
  loadTrack (Some p) service metadata st
  = (Normal true,
     let st1 := with_track (track_of service metadata) (snd (stop st)) in
     with_audio
       (Some (match p with
              | Audio.Direct utterance =>
                  set_levels (volume st1) (playbackRate st1) (Speech utterance)
              | Audio.AudioUrl audioBlob =>
                  Sound {| src := audioBlob; el_volume := volume st1;
                           el_playbackRate := playbackRate st1;
                           el_paused := true |}
              end))
       (isPlaying st1) st1).
Proof.
  unfold loadTrack, try_catch, bind, modify, ret.
  pose proof (stop_normal st) as N.
  destruct (stop st) as [c st1]. cbn [fst snd] in *. subst c.
  destruct p; reflexivity.
Qed.

Lemma loadTrack_none service metadata st :
  loadTrack None service metadata st
  = let st1 := with_track (track_of service metadata) (snd (stop st)) in
    if container st
    then (Normal false,
          snd (showError (lit "Failed to load audio track") st1))
    else (Throw (TypeError (lit "Cannot read properties of null (reading 'appendChild')")),
          st1).
Proof.
  unfold loadTrack, try_catch, bind, modify, ret, throw.
  pose proof (stop_normal st) as N.
  destruct (stop_frame st) as (_ & _ & C & _).
  destruct (stop st) as [c st1]. cbn [fst snd] in *. subst c.
  cbv zeta. rewrite <- C.
  unfold showError, bind, gets, modify, throw. cbn.
  destruct (container st1); reflexivity.
Qed.

(** X27. A load that fails. loadTrack on data with neither an utterance
    nor an address returns [false] after showing its message, or throws the
    TypeError of showError when the player has no container. Either way
    [currentTrack] already names the new track, while the audio loaded
    before is kept, stopped: the next play speaks or plays the old track. *)
Theorem failed_load_keeps_old_audio (service : jsstring) (metadata : TrackOptions)
    (st : State) (resolves : bool) :
  let r := loadTrack None service metadata st in
  fst r = (if container st then Normal false
           else Throw (TypeError (lit "Cannot read properties of null (reading 'appendChild')")))
  /\ shown (snd r)
     = (if container st then shown st ++ [lit "Failed to load audio track"]
        else shown st)
  /\ currentTrack (snd r) = Some (track_of service metadata)
  /\ volume (snd r) = volume st /\ playbackRate (snd r) = playbackRate st
  /\ match currentAudio st with
     | None => currentAudio (snd r) = None /\ isPlaying (snd r) = isPlaying st
     | Some (Speech u) =>
         currentAudio (snd r) = Some (Speech u) /\ isPlaying (snd r) = false
         /\ speech (snd (play resolves (snd r))) = speech st ++ [Cancel; Speak u]
     | Some (Sound e) =>
         currentAudio (snd r) = Some (Sound (set_paused true e))
         /\ isPlaying (snd r) = false
         /\ currentAudio (snd (play true (snd r))) = Some (Sound (set_paused false e))
         /\ isPlaying (snd (play true (snd r))) = true
     end.
Proof.
  cbv zeta. rewrite loadTrack_none. cbv zeta.
  destruct (stop_frame st) as (V & R & C & N & P & A).
  destruct (stop_more st) as (S1 & T1 & S2).
  set (st1 := snd (stop st)) in *.
  destruct (container st) eqn:Hc.
  - destruct (showError_frame (lit "Failed to load audio track")
                (with_track (track_of service metadata) st1))
      as (A2 & P2 & V2 & R2 & S3 & T2).
    cbn [fst snd].
    split; [reflexivity|]. split.
    { unfold showError, bind, gets, modify. cbn [container with_track].
      rewrite C. cbn. now rewrite S1. }
    split; [rewrite T2; reflexivity|].
    split; [rewrite V2; exact V|]. split; [rewrite R2; exact R|].
    rewrite A2, P2. cbn [currentAudio isPlaying with_track].
    destruct (currentAudio st) as [[u|e]|] eqn:Ha.
    + destruct (currentAudio st1) as [[u'|e']|] eqn:Hb; try contradiction. subst u'.
      split; [reflexivity|]. split; [apply P; discriminate|].
      unfold play, bind, gets. rewrite A2. cbn [currentAudio with_track].
      rewrite Hb. unfold modify. cbn [snd speech with_speech].
      rewrite S3. cbn [speech with_track]. rewrite S2, <- app_assoc. reflexivity.
    + destruct (currentAudio st1) as [[u'|e']|] eqn:Hb; try contradiction. subst e'.
      split; [reflexivity|]. split; [apply P; discriminate|].
      unfold play, bind, gets. rewrite A2. cbn [currentAudio with_track].
      rewrite Hb. unfold modify. cbn. auto.
    + rewrite (N eq_refl). auto.
  - cbn [fst snd shown currentTrack volume playbackRate currentAudio isPlaying with_track].
    split; [reflexivity|]. split; [exact S1|]. split; [reflexivity|].
    split; [exact V|]. split; [exact R|].
    destruct (currentAudio st) as [[u|e]|] eqn:Ha.
    + destruct (currentAudio st1) as [[u'|e']|] eqn:Hb; try contradiction. subst u'.
      split; [reflexivity|]. split; [apply P; discriminate|].
      unfold play, bind, gets. cbn [currentAudio with_track].
      rewrite Hb. unfold modify. cbn [snd speech with_speech with_track].
      rewrite S2, <- app_assoc. reflexivity.
    + destruct (currentAudio st1) as [[u'|e']|] eqn:Hb; try contradiction. subst e'.
      split; [reflexivity|]. split; [apply P; discriminate|].
      unfold play, bind, gets. cbn [currentAudio with_track].
      rewrite Hb. unfold modify. cbn. auto.
    + rewrite (N eq_refl). auto.
Qed.

Lemma new_generator_direct rhyme style gender host config :
  Audio.speechSynthesis host = true ->
  Audio.recording host (Audio.recordings host) = None ->
  Audio.getVoiceConfig style = Some config ->
  fst (Audio.generateAudio rhyme (Some style) gender
         (AudioService.new_AudioGenerator host))
  = Normal {| Audio.success := true; Audio.service := lit "browser";
              Audio.audio :=
                Audio.Direct {| Audio.u_text := rhyme; Audio.u_config := config |} |}.
Proof.
  intros Hs Hr Hc. rewrite AudioCacheFacts.generateAudio_run. cbv zeta.
  set (w := AudioService.new_AudioGenerator host).
  change (Audio.cache_get _ (Audio.audioCache w)) with (@None Audio.AudioResult).
  cbv iota. change (Audio.currentService w) with (lit "browser").
  rewrite AudioServiceFacts.dispatch_browser by reflexivity.
  destruct (AudioCacheFacts.generateWithBrowser_run rhyme style gender w)
    as (w' & _ & ->).
  change (Audio.speechSynthesis w) with (Audio.speechSynthesis host).
  change (Audio.recording w (Audio.recordings w))
    with (Audio.recording host (Audio.recordings host)).
  rewrite Hs, Hc, Hr. reflexivity.
Qed.

(** X28. Direct playback. When the window has speech synthesis and the
    recording fails, generateAudio of the popup loads the utterance of the
    generator into the player and shows the controls; loadTrack has then
    replaced the rate and the volume that the style gave the utterance by
    those of the player, which are unchanged, and play speaks the utterance
    so changed: of the voice configuration of the style only the pitch is
    heard. *)
Theorem direct_playback_at_player_levels (rhyme style voiceGender title : jsstring)
    (host : Audio.World) (st : State) (config : Audio.VoiceConfig)
    (resolves : bool) :
  Audio.speechSynthesis host = true ->
  Audio.recording host (Audio.recordings host) = None ->
  Audio.getVoiceConfig style = Some config ->
  let spoken :=
    {| Audio.u_text := rhyme;
       Audio.u_config := {| Audio.rate := playbackRate st;
                            Audio.pitch := Audio.pitch config;
                            Audio.volume := volume st |} |} in
  exists w' st',
    generateAudio rhyme style voiceGender (Some title) host (Some st)
    = (true, w', Some st')
    /\ currentAudio st' = Some (Speech spoken)
    /\ volume st' = volume st /\ playbackRate st' = playbackRate st
    /\ speech (snd (play resolves st')) = speech st' ++ [Speak spoken]
    /\ isPlaying (snd (play resolves st')) = true.
Proof.
  intros Hs Hr Hc. cbv zeta. unfold generateAudio. cbv zeta.
  rewrite (new_generator_direct rhyme style (Some voiceGender) host config Hs Hr Hc).
  cbn [Audio.success]. unfold loadResult. cbn [Audio.audio Audio.service].
  rewrite loadTrack_some. cbv zeta. cbn [fst snd].
  destruct (stop_frame st) as (V & R & _).
  eexists. eexists. split; [reflexivity|].
  cbn [currentAudio with_audio with_track volume playbackRate set_levels
       Audio.u_text Audio.u_config Audio.pitch].
  rewrite V, R. split; [reflexivity|]. split; [reflexivity|]. split; [reflexivity|].
  unfold play, bind, gets, modify.
  cbn [currentAudio with_audio with_track volume playbackRate set_levels
       Audio.u_text Audio.u_config Audio.pitch snd speech with_speech isPlaying].
  split; reflexivity.
Qed.


Lemma direct_playback_at_player_levels_witness :
  Audio.getVoiceConfig (lit "rap")
  = Some {| Audio.rate := 130; Audio.pitch := 110; Audio.volume := 90 |}
  /\ exists w' st',
       generateAudio (lit "Roses are red") (lit "rap") (lit "auto")
         (Some (lit "Letters")) (Audio.world_of "browser" true) (Some (new_AudioPlayer true))
       = (true, w', Some st')
       /\ currentAudio st'
          = Some (Speech {| Audio.u_text := lit "Roses are red";
                            Audio.u_config :=
                              {| Audio.rate := 100; Audio.pitch := 110;
                                 Audio.volume := 80 |} |}).
Proof.
  split; [reflexivity|].
  destruct (direct_playback_at_player_levels
              (lit "Roses are red") (lit "rap") (lit "auto") (lit "Letters")
              (Audio.world_of "browser" true) (new_AudioPlayer true)
              {| Audio.rate := 130; Audio.pitch := 110; Audio.volume := 90 |} true
              eq_refl eq_refl eq_refl) as (w' & st' & H1 & H2 & _).
  exists w', st'. split; [exact H1|exact H2].
Defined.

End PlayerFacts.
